(** * nef: a decoder for TIFF-based camera raw containers

    A shallow embedding of package [nef] of midbel/exif (the library part of
    the repository) and the properties of its directory reader, tag value
    codec and image assembler.

    Conventions of the embedding:
    - Go's fixed-width unsigned integers are [Z] with the wrap-around written
      out where the code can overflow ([g.Offset + delta] on [uint32]);
      [int] is the 64-bit [int] of the usual targets, so products such as
      [Type.Size() * int(Count)] never overflow;
    - a [[]byte] is a [list byte]; a Go [string] is a [string];
    - an [error] result is [Err e]; a run-time panic (index out of range,
      integer division by zero, nil interface) is [Panic];
    - a [*bytes.Reader] is a buffer and a position, threaded explicitly;
    - memory is not modelled: [make] succeeds for every length that the
      run time accepts, and panics for a length above its limit;
    - functions of Go's library that the package calls ([sort.Search],
      [io.ReadFull], [binary.Read], [bytes.TrimSpace], ...) are modelled by
      what they return; the printing of floats and the JPEG decoder are
      parameters. *)

From Stdlib Require Import ZArith List String Ascii Bool Lia.
From Stdlib Require Import Strings.Byte.
From Stdlib Require Import DecimalString DecimalZ.
Import ListNotations.
Open Scope Z_scope.

Set Implicit Arguments.

(* ------------------------------------------------------------------ *)
(** ** Results, errors and panics *)

(** The error values of the package.  [fmt.Errorf("...: %w", e)] wraps [e];
    the wrapper only adds text, and [errors.Is] sees through it, so a wrapped
    error is identified with the error it wraps. *)
Inductive error : Type :=
| EOF                 (* io.EOF *)
| ErrUnexpectedEOF    (* io.ErrUnexpectedEOF *)
| ErrImage            (* "unknown image" *)
| ErrExist            (* "not found" *)
| ErrFormat           (* "unknown format" *)
| ErrNotSorted        (* "tags not sorted properly" *)
| ErrInvalidCount     (* "invalid count" *)
| ErrByteOrder        (* "invalid byte order" *)
| ErrMagic            (* "invalid magic number" *)
| ErrDecode.          (* an error of the JPEG decoder *)

Inductive result (A : Type) : Type :=
| Ok (a : A)
| Err (e : error)
| Panic.

Arguments Ok {A} a.
Arguments Err {A} e.
Arguments Panic {A}.

Definition rbind {A B} (x : result A) (k : A -> result B) : result B :=
  match x with
  | Ok a => k a
  | Err e => Err e
  | Panic => Panic
  end.

Definition rmap {A B} (f : A -> B) (x : result A) : result B :=
  rbind x (fun a => Ok (f a)).

Declare Scope result_scope.
Delimit Scope result_scope with res.
Notation "'let?' x ':=' c 'in' k" := (rbind c (fun x => k))
  (at level 10, x pattern, c at level 100, k at level 200) : result_scope.
Open Scope result_scope.

(** The taxonomy of the specification, as a view on the error values. *)
Inductive ErrorKind : Type :=
| HeaderInvalid | DirectoryCorrupt | Truncated | NotFound
| UnsupportedType | NoImage | DecoderFailure.

Definition kind (e : error) : ErrorKind :=
  match e with
  | EOF | ErrUnexpectedEOF => Truncated
  | ErrImage => NoImage
  | ErrExist => NotFound
  | ErrFormat => UnsupportedType
  | ErrNotSorted | ErrInvalidCount => DirectoryCorrupt
  | ErrByteOrder | ErrMagic => HeaderInvalid
  | ErrDecode => DecoderFailure
  end.

(* ------------------------------------------------------------------ *)
(** ** Bytes and slices *)

Definition byte_val (b : byte) : Z := Z.of_N (Byte.to_N b).

Definition byte_of (z : Z) : byte :=
  match Byte.of_N (Z.to_N (z mod 256)) with
  | Some b => b
  | None => x00
  end.

Definition len {A} (l : list A) : Z := Z.of_nat (List.length l).

(** [s[off:]] clipped to the slice: the bytes from [off] on. *)
Definition from {A} (off : Z) (s : list A) : list A := skipn (Z.to_nat off) s.

(** At most [n] bytes of [s] from [off] on. *)
Definition slice {A} (s : list A) (off n : Z) : list A :=
  firstn (Z.to_nat n) (from off s).

(* ------------------------------------------------------------------ *)
(** ** encoding/binary: byte orders *)

Inductive ByteOrder : Type := LittleEndian | BigEndian.

(** The value of a byte string read least significant byte first. *)
Fixpoint le_value (bs : list byte) : Z :=
  match bs with
  | [] => 0
  | b :: bs' => byte_val b + 256 * le_value bs'
  end.

(** The [n] low bytes of [v], least significant first. *)
Fixpoint le_bytes (n : nat) (v : Z) : list byte :=
  match n with
  | O => []
  | S n' => byte_of v :: le_bytes n' (v / 256)
  end.

Definition arrange {A} (o : ByteOrder) (bs : list A) : list A :=
  match o with
  | LittleEndian => bs
  | BigEndian => rev bs
  end.

Definition get_uint (o : ByteOrder) (bs : list byte) : Z :=
  le_value (arrange o bs).

Definition put_uint (o : ByteOrder) (n : nat) (v : Z) : list byte :=
  arrange o (le_bytes n v).

(** [order.UintN(b)]: the first [w] bytes of [b]; panics on a shorter
    slice, and on the nil order of a zero [Tag]. *)
Definition UintN (w : Z) (o : option ByteOrder) (b : list byte) : result Z :=
  match o with
  | None => Panic
  | Some o' => if len b <? w then Panic else Ok (get_uint o' (slice b 0 w))
  end.

Definition Uint16 := UintN 2.
Definition Uint32 := UintN 4.

(** [order.PutUint32(b, v)] on a fresh 4-byte slice. *)
Definition PutUint32 (o : ByteOrder) (v : Z) : list byte := put_uint o 4 v.

(** Reinterpreting an unsigned [w]-bit pattern as two's complement. *)
Definition signed (w : Z) (v : Z) : Z :=
  if v <? 2 ^ (w - 1) then v else v - 2 ^ w.

(* ------------------------------------------------------------------ *)
(** ** bytes.Reader, io.ReadFull, io.SectionReader *)

Record Reader : Type := mkReader { buf : list byte; pos : Z }.

(** A computation on the reader: the position moves also when a read fails. *)
Definition M (A : Type) : Type := Reader -> result A * Reader.

Definition ret {A} (a : A) : M A := fun r => (Ok a, r).
Definition fail {A} (e : error) : M A := fun r => (Err e, r).

Definition bind {A B} (m : M A) (k : A -> M B) : M B :=
  fun r =>
    match m r with
    | (Ok a, r') => k a r'
    | (Err e, r') => (Err e, r')
    | (Panic, r') => (Panic, r')
    end.

(** [io.ReadFull(r, make([]byte, n))] on a [*bytes.Reader]: nothing is read
    for [n = 0]; [io.EOF] when no byte is left; [io.ErrUnexpectedEOF], with
    the reader at the end, when fewer than [n] are left. *)
Definition ReadFull (n : Z) : M (list byte) :=
  fun r =>
    if n <=? 0 then (Ok [], r)
    else if len (buf r) <=? pos r then (Err EOF, r)
    else if len (buf r) - pos r <? n
         then (Err ErrUnexpectedEOF, mkReader (buf r) (len (buf r)))
         else (Ok (slice (buf r) (pos r) n), mkReader (buf r) (pos r + n)).

(** [r.Seek(at, io.SeekStart)] with [at >= 0], which cannot fail. *)
Definition SeekStart (at_ : Z) : M unit :=
  fun r => (Ok tt, mkReader (buf r) at_).

(** [r.Seek(0, io.SeekCurrent)]. *)
Definition Tell : M Z := fun r => (Ok (pos r), r).

(** [binary.Read(r, order, &x)] for an unsigned [x] of [w] bytes. *)
Definition binary_Read (w : Z) (o : ByteOrder) : M Z :=
  fun r =>
    match ReadFull w r with
    | (Ok bs, r') => (Ok (get_uint o bs), r')
    | (Err e, r') => (Err e, r')
    | (Panic, r') => (Panic, r')
    end.

(** [io.ReadFull(io.NewSectionReader(r, off, n), make([]byte, n))]: all [n]
    bytes at [off], or an end-of-file error; the position of [r] is not
    used and does not move ([ReadAt]). *)
Definition SectionReadFull (s : list byte) (off n : Z) : result (list byte) :=
  if n <=? 0 then Ok []
  else if len s <=? off then Err EOF
  else if len s - off <? n then Err ErrUnexpectedEOF
  else Ok (slice s off n).

(** [ioutil.ReadAll(io.NewSectionReader(r, off, n))]: the bytes of the
    section that exist; reaching the end of the buffer early is not an
    error for [ReadAll]. *)
Definition SectionReadAll (s : list byte) (off n : Z) : result (list byte) :=
  Ok (slice s off n).

(** A read whose error the caller drops: the target keeps its zero value. *)
Definition or_zero (m : M Z) : M Z :=
  fun r =>
    match m r with
    | (Ok v, r') => (Ok v, r')
    | (Err _, r') => (Ok 0, r')
    | (Panic, r') => (Panic, r')
    end.

(** [binary.Read] with the order of a [Tag], which is nil for the zero
    [Tag]: the bytes are read first, the order is used after. *)
Definition binary_Read_opt (w : Z) (o : option ByteOrder) : M Z :=
  fun r =>
    match ReadFull w r with
    | (Ok bs, r') =>
        match o with
        | Some o' => (Ok (get_uint o' bs), r')
        | None => (Panic, r')
        end
    | (Err e, r') => (Err e, r')
    | (Panic, r') => (Panic, r')
    end.

(** [n] rounds of a loop body that yields one element per round. *)
Fixpoint times {A} (n : nat) (body : M A) : M (list A) :=
  match n with
  | O => ret []
  | S n' => bind body (fun x => bind (times n' body) (fun xs => ret (x :: xs)))
  end.

(** The same for a body that does not use a reader, indexed from [i]. *)
Fixpoint each {A} (n : nat) (f : Z -> result A) (i : Z) : result (list A) :=
  match n with
  | O => Ok []
  | S n' => let? x := f i in let? xs := each n' f (i + 1) in Ok (x :: xs)
  end.

(* ------------------------------------------------------------------ *)
(** ** strconv, bytes.TrimSpace, bytes.TrimRight *)

(** [strconv.FormatUint(x, 10)] and [fmt.Sprintf("%d", x)]. *)
Definition FormatUint (x : Z) : string :=
  NilZero.string_of_uint (N.to_uint (Z.to_N x)).

(** [strconv.FormatInt(x, 10)]. *)
Definition FormatInt (x : Z) : string :=
  NilZero.string_of_int (Z.to_int x).

(** The white space of [unicode.IsSpace] in UTF-8: the six ASCII bytes and
    the encodings of U+0085, U+00A0, U+1680, U+2000..U+200A, U+2028, U+2029,
    U+202F, U+205F and U+3000.  A byte that is not part of a well-formed
    encoding decodes to U+FFFD, which is not white space. *)
Definition space_tokens : list (list byte) :=
  [ [x09]; [x0a]; [x0b]; [x0c]; [x0d]; [x20];
    [xc2; x85]; [xc2; xa0]; [xe1; x9a; x80];
    [xe2; x80; x80]; [xe2; x80; x81]; [xe2; x80; x82]; [xe2; x80; x83];
    [xe2; x80; x84]; [xe2; x80; x85]; [xe2; x80; x86]; [xe2; x80; x87];
    [xe2; x80; x88]; [xe2; x80; x89]; [xe2; x80; x8a];
    [xe2; x80; xa8]; [xe2; x80; xa9]; [xe2; x80; xaf];
    [xe2; x81; x9f]; [xe3; x80; x80] ].

Fixpoint strip_prefix (p s : list byte) : option (list byte) :=
  match p, s with
  | [], _ => Some s
  | a :: p', b :: s' => if Byte.eqb a b then strip_prefix p' s' else None
  | _ :: _, [] => None
  end.

Fixpoint strip_any (toks : list (list byte)) (s : list byte)
  : option (list byte) :=
  match toks with
  | [] => None
  | p :: toks' =>
      match strip_prefix p s with
      | Some s' => Some s'
      | None => strip_any toks' s
      end
  end.

Fixpoint trim_front (toks : list (list byte)) (fuel : nat) (s : list byte)
  : list byte :=
  match fuel with
  | O => s
  | S fuel' =>
      match strip_any toks s with
      | Some s' => trim_front toks fuel' s'
      | None => s
      end
  end.

(** [bytes.TrimSpace] (and [strings.TrimSpace] on the same bytes): leading
    white space goes first, then trailing white space. *)
Definition TrimSpace (s : list byte) : list byte :=
  let l := trim_front space_tokens (List.length s) s in
  rev (trim_front (map (@rev byte) space_tokens) (List.length l) (rev l)).

Fixpoint drop_zeros (s : list byte) : list byte :=
  match s with
  | x00 :: s' => drop_zeros s'
  | _ => s
  end.

(** [bytes.TrimRight(s, "\x00")]. *)
Definition TrimRightNul (s : list byte) : list byte := rev (drop_zeros (rev s)).

(* ------------------------------------------------------------------ *)
(** ** Formats and tags *)

Module Format.
Definition Byte : Z := 1.
Definition String : Z := 2.
Definition Short : Z := 3.
Definition Long : Z := 4.
Definition Rational : Z := 5.
Definition SByte : Z := 6.
Definition Undef : Z := 7.
Definition SShort : Z := 8.
Definition SLong : Z := 9.
Definition SRational : Z := 10.
Definition Float : Z := 11.
Definition Double : Z := 12.

Definition Size (f : Z) : Z :=
    match f with
    | 1 | 2 | 6 | 7 => 1
    | 3 | 8 => 2
    | 4 | 9 | 11 => 4
    | 5 | 10 | 12 => 8
    | _ => 0
    end.
End Format.

(** The ids and families of the package. *)
Definition Tiff : Z := 0x0.
Definition Exif : Z := 0x8769.
Definition Nef : Z := 0x14a.
Definition Note : Z := 0x927c.
Definition Gps : Z := 0x8825.

Definition Xmp : Z := 0x2bc.
Definition Comment : Z := 0x9286.
Definition ImageWidth : Z := 0x100.
Definition ImageLength : Z := 0x101.
Definition JpegFromRawStart : Z := 0x0201.
Definition JpegFromRawLength : Z := 0x0202.
Definition StripOffsets : Z := 0x111.
Definition RowsPerStrip : Z := 0x116.
Definition StripByteCounts : Z := 0x117.
Definition Photometric : Z := 0x106.
Definition BitsPerSample : Z := 0x102.

Definition ImgBlack : Z := 0.
Definition ImgWhite : Z := 1.
Definition ImgRGB : Z := 2.
Definition ImgPalette : Z := 3.
Definition ImgMask : Z := 4.
Definition ImgCMYK : Z := 5.
Definition ImgYCbCr : Z := 6.

Record Tag : Type := mkTag {
  Id : Z;                      (* uint16 *)
  Typ : Z;                     (* Format, a uint16 *)
  Count : Z;                   (* uint32 *)
  Offset : Z;                  (* uint32 *)
  Raw : list byte;
  family : Z;
  order : option ByteOrder     (* nil in the zero Tag *)
}.

(** [var t Tag]. *)
Definition zeroTag : Tag := mkTag 0 0 0 0 [] 0 None.

Module TagM.
Definition Size (t : Tag) : Z := Format.Size (Typ t) * Count t.

  (** [Tag.Uint]. *)
Definition Uint (t : Tag) : result Z :=
    if Typ t =? Format.Byte then
      match Raw t with
      | b :: _ => Ok (byte_val b)
      | [] => Panic
      end
    else if Typ t =? Format.Short then Uint16 (order t) (Raw t)
    else if Typ t =? Format.Long then Uint32 (order t) (Raw t)
    else Ok 0.
End TagM.

Definition count_of (t : Tag) : nat := Z.to_nat (Count t).

Definition tagReader (t : Tag) : Reader := mkReader (Raw t) 0.

Definition decodeShort (t : Tag) : result (list string) :=
  each (count_of t)
       (fun i => let? x := Uint16 (order t) (from (i * 2) (Raw t)) in
                 Ok (FormatUint x)) 0.

Definition decodeSignedShort (t : Tag) : result (list string) :=
  fst (times (count_of t)
         (bind (or_zero (binary_Read_opt 2 (order t)))
               (fun s => ret (FormatInt (signed 16 s))))
         (tagReader t)).

Definition decodeLong (t : Tag) : result (list string) :=
  each (count_of t)
       (fun i => let? x := Uint32 (order t) (from (i * 4) (Raw t)) in
                 Ok (FormatUint x)) 0.

Definition decodeSignedLong (t : Tag) : result (list string) :=
  fst (times (count_of t)
         (bind (or_zero (binary_Read_opt 4 (order t)))
               (fun s => ret (FormatInt (signed 32 s))))
         (tagReader t)).

Definition decodeByte (t : Tag) : result (list string) :=
  each (count_of t)
       (fun i => match from i (Raw t) with
                 | b :: _ => Ok (FormatUint (byte_val b))
                 | [] => Panic
                 end) 0.

Definition decodeRational (t : Tag) : result (list string) :=
  fst (times (count_of t)
         (bind (or_zero (binary_Read_opt 4 (order t))) (fun n =>
          bind (or_zero (binary_Read_opt 4 (order t))) (fun d =>
          ret (FormatUint n ++ "/" ++ FormatUint d)%string)))
         (tagReader t)).

Definition decodeSignedRational (t : Tag) : result (list string) :=
  fst (times (count_of t)
         (bind (or_zero (binary_Read_opt 4 (order t))) (fun n =>
          bind (or_zero (binary_Read_opt 4 (order t))) (fun d =>
          ret (FormatInt (signed 32 n) ++ "/" ++ FormatInt (signed 32 d))%string)))
         (tagReader t)).

Section FloatText.
  (** [strconv.FormatFloat(f, 'f', -1, 64)] of the [float32], respectively
      [float64], with the given IEEE-754 bit pattern: Go's shortest
      round-trip printing, a parameter of the development. *)
Variable FormatFloat32 : Z -> string.
Variable FormatFloat64 : Z -> string.

Definition decodeFloat (t : Tag) : result (list string) :=
    fst (times (count_of t)
           (bind (or_zero (binary_Read_opt 4 (order t)))
                 (fun f => ret (FormatFloat32 f)))
           (tagReader t)).

Definition decodeDouble (t : Tag) : result (list string) :=
    fst (times (count_of t)
           (bind (or_zero (binary_Read_opt 8 (order t)))
                 (fun f => ret (FormatFloat64 f)))
           (tagReader t)).

  (** [Tag.Values]. *)
Definition Values (t : Tag) : result (list string) :=
    if (Id t =? Xmp) || (Id t =? Comment) then
      Ok [string_of_list_byte (TrimSpace (Raw t))]
    else if Typ t =? Format.String then
      Ok [string_of_list_byte (TrimSpace (TrimRightNul (Raw t)))]
    else if Typ t =? Format.Long then decodeLong t
    else if Typ t =? Format.SLong then decodeSignedLong t
    else if Typ t =? Format.Short then decodeShort t
    else if Typ t =? Format.SShort then decodeSignedShort t
    else if Typ t =? Format.Byte then decodeByte t
    else if Typ t =? Format.SByte then Ok []
    else if Typ t =? Format.Undef then Ok []
    else if Typ t =? Format.Rational then decodeRational t
    else if Typ t =? Format.SRational then decodeSignedRational t
    else if Typ t =? Format.Float then decodeFloat t
    else if Typ t =? Format.Double then decodeDouble t
    else Err ErrFormat.
End FloatText.

(** The logical value of a tag: id, type, count and printed values. *)
Definition logical (FormatFloat32 FormatFloat64 : Z -> string) (t : Tag)
  : Z * Z * Z * result (list string) :=
  (Id t, Typ t, Count t, Values FormatFloat32 FormatFloat64 t).

(* ------------------------------------------------------------------ *)
(** ** sort.Search *)

(** The loop of [sort.Search]: [h := int(uint(i+j) >> 1)]. *)
Fixpoint search_loop (fuel : nat) (f : Z -> bool) (i j : Z) : Z :=
  match fuel with
  | O => i
  | S fuel' =>
      if i <? j then
        let h := (i + j) / 2 in
        if f h then search_loop fuel' f i h else search_loop fuel' f (h + 1) j
      else i
  end.

(** [sort.Search(n, f)]; the interval shrinks in every round, so [n] rounds
    and one more test are always enough ([search_loop_fuel] below). *)
Definition Search (n : Z) (f : Z -> bool) : Z :=
  search_loop (S (Z.to_nat n)) f 0 n.

(** [tags[i]], for an index in range. *)
Definition at_index (tags : list Tag) (i : Z) : Tag :=
  nth (Z.to_nat i) tags zeroTag.

(** [sort.Search(len(tags), func(i int) bool { return tags[i].Id >= id })]
    followed by [x >= len(tags) || tags[x].Id != id]. *)
Definition find (tags : list Tag) (id : Z) : option Tag :=
  let x := Search (len tags) (fun i => id <=? Id (at_index tags i)) in
  if (len tags <=? x) || negb (Id (at_index tags x) =? id)
  then None
  else Some (at_index tags x).

(* ------------------------------------------------------------------ *)
(** ** Files *)

#[warnings="-register-all"]
Inductive File : Type := mkFile {
  reader : list byte;          (* the buffer behind the *bytes.Reader *)
  forder : ByteOrder;          (* field [order] *)
  tiff : list Tag;
  exif : list Tag;
  notes : list Tag;
  gps : list Tag;
  Index : list Z;
  Files : list File
}.

Module FileM.
  (** [File.TagsFor]. *)
Definition TagsFor (f : File) (fam : Z) : list Tag :=
    if fam =? Exif then exif f
    else if fam =? Note then notes f
    else if (fam =? Tiff) || (fam =? Nef) then tiff f
    else if fam =? Gps then gps f
    else [].

  (** [File.GetTag]. *)
Definition GetTag (f : File) (id : Z) (origin : Z) : result Tag :=
    if (origin =? Tiff) || (origin =? Nef) then
      match find (tiff f) id with Some t => Ok t | None => Err ErrExist end
    else if origin =? Exif then
      match find (exif f) id with Some t => Ok t | None => Err ErrExist end
    else if origin =? Note then
      match find (notes f) id with Some t => Ok t | None => Err ErrExist end
    else Err ErrExist.

  (** [File.get]. *)
Definition get (f : File) (id : Z) : result Tag :=
    match find (tiff f) id with
    | Some t => Ok t
    | None => Err ErrExist
    end.

  (** [t, _ = f.get(id)]: the zero [Tag] when the tag is missing. *)
Definition get_ (f : File) (id : Z) : Tag :=
    match get f id with
    | Ok t => t
    | _ => zeroTag
    end.

  (** [File.Has]. *)
Definition Has (f : File) (id : Z) : bool :=
    let x := Search (len (tiff f)) (fun i => id <=? Id (at_index (tiff f) i)) in
    (x <? len (tiff f)) && (Id (at_index (tiff f) x) =? id).

Definition IsJpeg (f : File) : bool :=
    Has f JpegFromRawStart && Has f JpegFromRawLength.

Definition IsRaw (f : File) : bool :=
    Has f StripOffsets && Has f RowsPerStrip && Has f StripByteCounts.

  (** [File.processJpeg]. *)
Definition processJpeg (f : File) : result (list byte) :=
    let start := get_ f JpegFromRawStart in
    let length := get_ f JpegFromRawLength in
    SectionReadFull (reader f) (Offset start) (Offset length).

  (** [block = length / strip; if length % strip != 0 { block++ }]. *)
Definition blockCount (length strip : Z) : Z :=
    let block := length / strip in
    if length mod strip =? 0 then block else block + 1.

  (** The loop of [processRaw]: [rsp] and [rsc] read the two arrays,
      [img] collects the strips. *)
Fixpoint strips (n : nat) (s : list byte) (op oc : option ByteOrder)
           (rsp rsc : Reader) (img : list byte) : result (list byte) :=
    match n with
    | O => Ok img
    | S n' =>
        match binary_Read_opt 4 op rsp with
        | (Ok pos, rsp') =>
            match binary_Read_opt 4 oc rsc with
            | (Ok num, rsc') =>
                let? tmp := SectionReadAll s pos num in
                strips n' s op oc rsp' rsc' (img ++ tmp)
            | (Err e, _) => Err e
            | (Panic, _) => Panic
            end
        | (Err e, _) => Err e
        | (Panic, _) => Panic
        end
    end.

  (** [File.processRaw]. *)
Definition processRaw (f : File) : result (list byte) :=
    let strip := get_ f RowsPerStrip in
    let offset := get_ f StripOffsets in
    let count := get_ f StripByteCounts in
    let length := get_ f ImageLength in
    if Offset strip =? 0 then Panic     (* integer divide by zero *)
    else
      let block := blockCount (Offset length) (Offset strip) in
      strips (Z.to_nat block) (reader f) (order offset) (order count)
             (mkReader (Raw offset) 0) (mkReader (Raw count) 0) [].

  (** [File.Bytes]. *)
Definition Bytes (f : File) : result (list byte) :=
    if IsJpeg f then processJpeg f
    else if IsRaw f then processRaw f
    else Err ErrImage.

  (** [File.IsSupported]. *)
Definition IsSupported (f : File) : result bool :=
    match get f Photometric with
    | Err ErrExist => Ok true
    | Err _ => Ok false
    | Panic => Panic
    | Ok typ =>
        let? u := TagM.Uint typ in
        Ok ((0 <=? u) && (u <=? 6))
    end.

  (** The [switch] of [File.ImageType]. *)
Definition typeName (u : Z) : string :=
    if (u =? ImgBlack) || (u =? ImgWhite) then "raw/gray"%string
    else if u =? ImgRGB then "raw/rgb"%string
    else if u =? ImgPalette then "raw/palette"%string
    else if u =? ImgMask then "raw/mask"%string
    else if u =? ImgCMYK then "raw/cmyk"%string
    else if u =? ImgYCbCr then "raw/ycbcr"%string
    else "unsupported"%string.

  (** [File.ImageType]. *)
Definition ImageType (f : File) : result string :=
    match get f Photometric with
    | Err ErrExist => Ok "jpeg"%string
    | r =>
        let typ := match r with Ok t => t | _ => zeroTag end in
        let? u := TagM.Uint typ in
        Ok (typeName u)
    end.
End FileM.

(* ------------------------------------------------------------------ *)
(** ** Pixel images *)

(** The images the package builds: [image.Gray], [image.RGBA] and
    [image.CMYK] over [image.Rect(0, 0, w, h)], pixels in row order, and
    whatever the JPEG decoder returns. *)
Inductive Image : Type :=
| ImgGray (w h : Z) (pix : list (list byte))
| ImgRGBA (w h : Z) (pix : list (list (byte * byte * byte * byte)))
| ImgCMYKBlank (w h : Z)
| ImgDecoded (w h : Z) (data : list byte).

(** [rs.ReadByte()] with the error dropped: [0] at the end of the buffer. *)
Definition ReadByte_ : M byte :=
  fun r =>
    match from (pos r) (buf r) with
    | b :: _ => (Ok b, mkReader (buf r) (pos r + 1))
    | [] => (Ok x00, r)
    end.

Definition rows {A} (w h : Z) (pixel : M A) (b : list byte)
  : result (list (list A)) :=
  fst (times (Z.to_nat h) (times (Z.to_nat w) pixel) (mkReader b 0)).

(** [mul3NonNeg] of package [image]: the product of three numbers, or [-1]
    when one of them is negative or a product does not fit: [bits.Mul64]
    gives the two 64-bit halves of a product, the high half must be zero,
    and the low half must not be negative as an [int]. *)
Definition mul3NonNeg (x y z : Z) : Z :=
  if (x <? 0) || (y <? 0) || (z <? 0) then -1
  else if 2 ^ 64 <=? x * y then -1
  else if 2 ^ 64 <=? x * y * z then -1
  else if 2 ^ 63 <=? x * y * z then -1
  else x * y * z.

(** The largest length in bytes that [make] accepts: [maxAlloc] of the run
    time, 48 address bits on the 64-bit targets. *)
Definition maxAlloc : Z := 2 ^ 48.

(** [make([]uint8, pixelBufferLength(bytesPerPixel, r, name))] for
    [r = image.Rect(0, 0, w, h)], in [image.NewGray], [image.NewRGBA] and
    [image.NewCMYK]: the length of the pixel buffer; [pixelBufferLength]
    panics on "huge or negative dimensions", [make] on a length out of
    range. *)
Definition pixelBuffer (bytesPerPixel w h : Z) : result Z :=
  let totalLength := mul3NonNeg bytesPerPixel w h in
  if totalLength <? 0 then Panic
  else if maxAlloc <? totalLength then Panic
  else Ok totalLength.

(** [grayImage], on [image.Rect(0, 0, w, h)]. *)
Definition grayImage (w h : Z) (b : list byte) (inverted : bool)
  : result Image :=
  let? _ := pixelBuffer 1 w h in
  let? pix := rows w h
                (bind ReadByte_ (fun y =>
                   ret (if inverted then byte_of (255 - byte_val y) else y))) b in
  Ok (ImgGray w h pix).

(** [rgbImage], on [image.Rect(0, 0, w, h)]. *)
Definition rgbImage (w h : Z) (b : list byte) : result Image :=
  let? _ := pixelBuffer 4 w h in
  let? pix := rows w h
                (bind ReadByte_ (fun r_ =>
                 bind ReadByte_ (fun g_ =>
                 bind ReadByte_ (fun b_ => ret (r_, g_, b_, xff))))) b in
  Ok (ImgRGBA w h pix).

Section Pixels.
  (** [image.Decode] with the JPEG decoder registered: a parameter. *)
Variable image_Decode : list byte -> result Image.

  (** [File.decodeJpeg]. *)
Definition decodeJpeg (f : File) : result Image :=
    let? raw := FileM.Bytes f in
    image_Decode raw.

  (** [File.decodeRaw]. *)
Definition decodeRaw (f : File) : result Image :=
    let imgtype := FileM.get_ f Photometric in
    let width := FileM.get_ f ImageWidth in
    let height := FileM.get_ f ImageLength in
    let? b := FileM.Bytes f in
    let? typ := TagM.Uint imgtype in
    if (typ =? ImgBlack) || (typ =? ImgWhite)
    then grayImage (Offset width) (Offset height) b (typ =? ImgWhite)
    else if typ =? ImgRGB then rgbImage (Offset width) (Offset height) b
    else if typ =? ImgCMYK then
      let? _ := pixelBuffer 4 (Offset width) (Offset height) in
      Ok (ImgCMYKBlank (Offset width) (Offset height))
    else Err ErrFormat.

  (** [File.Image]. *)
Definition ImageOf (f : File) : result Image :=
    if FileM.IsJpeg f then decodeJpeg f
    else if FileM.IsRaw f then decodeRaw f
    else Err ErrImage.
End Pixels.

(* ------------------------------------------------------------------ *)
(** ** The directory reader *)

Definition little : list byte := [x49; x49].   (* II *)
Definition big : list byte := [x4d; x4d].      (* MM *)
Definition magicbe : list byte := [x00; x2a].
Definition magicle : list byte := [x2a; x00].

Definition bytes_eqb (a b : list byte) : bool :=
  if list_eq_dec Byte.byte_eq_dec a b then true else false.

(** [readOrder]. *)
Definition readOrder : M ByteOrder :=
  bind (ReadFull 4) (fun intro =>
    if bytes_eqb (slice intro 0 2) little then
      if bytes_eqb (from 2 intro) magicle then ret LittleEndian
      else fail ErrMagic
    else if bytes_eqb (slice intro 0 2) big then
      if bytes_eqb (from 2 intro) magicbe then ret BigEndian
      else fail ErrMagic
    else fail ErrByteOrder).

(** [uint32] addition. *)
Definition add32 (a b : Z) : Z := (a + b) mod 2 ^ 32.

(** The body of the loop of [readTags] after the descriptor [g] was read:
    [tags] are the tags read so far, [s] is the buffer of the reader. *)
Definition decodeEntry (s : list byte) (o : ByteOrder) (delta fam : Z)
           (tags : list Tag) (g : list byte) : result (list Tag) :=
  let gId := get_uint o (slice g 0 2) in
  let gType := get_uint o (slice g 2 2) in
  let gCount := get_uint o (slice g 4 4) in
  let gOffset := get_uint o (slice g 8 4) in
  if match tags with
     | [] => false
     | _ :: _ => gId <=? Id (last tags zeroTag)
     end
  then Err ErrNotSorted
  else if gCount =? 2 ^ 32 - 1 then Err ErrInvalidCount
  else
    let off := add32 gOffset delta in
    let z := Format.Size gType * gCount in
    if 4 <? z then
      let? raw := SectionReadFull s off z in
      Ok (tags ++ [mkTag gId gType gCount off raw fam (Some o)])
    else
      Ok (tags ++ [mkTag gId gType gCount off (PutUint32 o off) fam (Some o)]).

(** One round of the loop of [readTags]. *)
Definition readEntry (o : ByteOrder) (delta fam : Z) (tags : list Tag)
  : M (list Tag) :=
  bind (ReadFull 12) (fun g r => (decodeEntry (buf r) o delta fam tags g, r)).

Fixpoint readEntries (n : nat) (o : ByteOrder) (delta fam : Z)
         (tags : list Tag) : M (list Tag) :=
  match n with
  | O => ret tags
  | S n' => bind (readEntry o delta fam tags) (readEntries n' o delta fam)
  end.

(** [readTags]. *)
Definition readTags (o : ByteOrder) (at_ delta fam : Z) : M (list Tag) :=
  bind (SeekStart at_) (fun _ =>
  bind (binary_Read 2 o) (fun count =>
  readEntries (Z.to_nat count) o delta fam [])).

(** [exifTags]. *)
Definition exifTags (o : ByteOrder) (tags : list Tag) : M (list Tag) :=
  match find tags Exif with
  | None => ret []
  | Some t => readTags o (Offset t) 0 Exif
  end.

(** [gpsTags]. *)
Definition gpsTags (o : ByteOrder) (tags : list Tag) : M (list Tag) :=
  match find tags Gps with
  | None => ret []
  | Some t => readTags o (Offset t) 0 Gps
  end.

Definition nikon : list byte := [x4e; x69; x6b; x6f; x6e; x00].  (* "Nikon\x00" *)

(** [notesTags]. *)
Definition notesTags (tags : list Tag) : M (list Tag) :=
  match find tags Note with
  | None => ret []
  | Some t =>
      bind (SeekStart (Offset t)) (fun _ =>
      bind (ReadFull 10) (fun preamble =>
        if negb (bytes_eqb (slice preamble 0 6) nikon) then ret []
        else
          bind readOrder (fun o =>
          bind (binary_Read 4 o) (fun offset =>
            readTags o (add32 offset (add32 (Offset t) 10))
                     (add32 (Offset t) 10) Note))))
  end.

Fixpoint forEach {A B} (f : A -> M B) (l : list A) : M (list B) :=
  match l with
  | [] => ret []
  | a :: l' => bind (f a) (fun b => bind (forEach f l') (fun bs => ret (b :: bs)))
  end.

(** [subTags]: the errors of the offset reads are dropped. *)
Definition subTags (o : ByteOrder) (tags : list Tag) : M (list (list Tag)) :=
  match find tags Nef with
  | None => ret []
  | Some t =>
      bind (SeekStart (Offset t)) (fun _ =>
      bind (times (count_of t) (or_zero (binary_Read 4 o))) (fun pos =>
      forEach (fun p => readTags o p 0 Tiff) pos))
  end.

(** [defer r.Seek(offset, io.SeekStart)]: runs whatever the body returns. *)
Definition deferSeek {A} (offset : Z) (body : M A) : M A :=
  fun r => let (res, r') := body r in (res, mkReader (buf r') offset).

Fixpoint indexed {A} (i : Z) (l : list A) : list (Z * A) :=
  match l with
  | [] => []
  | a :: l' => (i, a) :: indexed (i + 1) l'
  end.

(** The [File] that [readDirectory] builds over the reader [b]: a child per
    sibling directory, with copies of the EXIF and MakerNote tags. *)
Definition buildFile (b : list byte) (o : ByteOrder) (index : Z)
           (tags fexif fgps fnotes : list Tag) (data : list (list Tag)) : File :=
  mkFile b o tags fexif fnotes fgps [index]
         (map (fun c => mkFile b o (snd c) fexif fnotes [] [index; fst c] [])
              (indexed 0 data)).

(** [readDirectory]. *)
Definition readDirectory (o : ByteOrder) (at_ : Z) (index : Z) : M File :=
  bind (readTags o at_ 0 Tiff) (fun tags =>
  bind Tell (fun offset =>
  deferSeek offset
    (bind (exifTags o tags) (fun fexif =>
     bind (gpsTags o tags) (fun fgps =>
     bind (notesTags fexif) (fun fnotes =>
     bind (subTags o tags) (fun data =>
     fun r => (Ok (buildFile (buf r) o index tags fexif fgps fnotes data), r)))))))).

(** The loop of [Decode]; [None] when the chain of root directories is
    longer than [fuel]. *)
Fixpoint decodeLoop (fuel : nat) (o : ByteOrder) (offset i : Z)
         (files : list File) (r : Reader) : option (result (list File)) :=
  if offset =? 0 then Some (Ok files)
  else
    match fuel with
    | O => None
    | S fuel' =>
        match readDirectory o offset i r with
        | (Ok f, r') =>
            match binary_Read 4 o r' with
            | (Ok offset', r'') =>
                decodeLoop fuel' o offset' (i + 1) (files ++ [f]) r''
            | (Err EOF, _) => Some (Ok (files ++ [f]))
            | (Err e, _) => Some (Err e)
            | (Panic, _) => Some Panic
            end
        | (Err e, _) => Some (Err e)
        | (Panic, _) => Some Panic
        end
    end.

(** [Decode], on the bytes [ioutil.ReadAll] returned. *)
Definition Decode (fuel : nat) (b : list byte) : option (result (list File)) :=
  match readOrder (mkReader b 0) with
  | (Ok o, r) =>
      match binary_Read 4 o r with
      | (Ok offset, r') => decodeLoop fuel o offset 0 [] r'
      | (Err e, _) => Some (Err e)
      | (Panic, _) => Some Panic
      end
  | (Err e, _) => Some (Err e)
  | (Panic, _) => Some Panic
  end.

(* ------------------------------------------------------------------ *)
(** ** Predicates of the statements *)

(** Strictly increasing numbers, as a test. *)
Fixpoint increasingb (l : list Z) : bool :=
  match l with
  | a :: ((b :: _) as l') => (a <? b) && increasingb l'
  | _ => true
  end.

(** The tag ids of a vector are strictly increasing. *)
Definition ascending (tags : list Tag) : Prop :=
  increasingb (map Id tags) = true.

(** A tag with the id [id] is in the vector. *)
Definition containsb (tags : list Tag) (id : Z) : bool :=
  existsb (fun t => Id t =? id) tags.

Definition contains (tags : list Tag) (id : Z) : Prop :=
  containsb tags id = true.

(* ------------------------------------------------------------------ *)
(** ** Sample containers *)

Definition u16 (o : ByteOrder) (v : Z) : list byte := put_uint o 2 v.
Definition u32 (o : ByteOrder) (v : Z) : list byte := put_uint o 4 v.

(** The four bytes that [readOrder] accepts for [o]. *)
Definition header (o : ByteOrder) : list byte :=
  match o with
  | LittleEndian => little ++ magicle
  | BigEndian => big ++ magicbe
  end.

(** A 12-byte descriptor; [val] is the 4-byte value field. *)
Definition entry (o : ByteOrder) (id ty cnt : Z) (val : list byte) : list byte :=
  u16 o id ++ u16 o ty ++ u32 o cnt ++ val.

(** The files of a buffer, when it decodes. *)
Definition decoded (b : list byte) : list File :=
  match Decode 8 b with
  | Some (Ok fs) => fs
  | _ => []
  end.

Definition emptyFile : File := mkFile [] LittleEndian [] [] [] [] [] [].

(** A root directory (at 8) with an EXIF directory (at 26) whose MakerNote
    block (at 44) holds one directory (at 62) with the tag 0x0002, a Short
    of count 1 and value 5, stored in the value field of its descriptor
    (bytes 72 to 75). *)
Definition note_file (o : ByteOrder) : list byte :=
  header o ++ u32 o 8
  ++ u16 o 1 ++ entry o Exif Format.Long 1 (u32 o 26) ++ u32 o 0
  ++ u16 o 1 ++ entry o Note Format.Undef 36 (u32 o 44) ++ u32 o 0
  ++ nikon ++ [x02; x10; x00; x00]
  ++ header o ++ u32 o 8
  ++ u16 o 1 ++ entry o 2 Format.Short 1 (u16 o 5 ++ [x00; x00]) ++ u32 o 0.

(** A root directory (at 8) with a GPS directory (at 26) that holds the
    tag 0x0000 (GPSVersionID), four bytes 2 3 0 0. *)
Definition gps_file : list byte :=
  header LittleEndian ++ u32 LittleEndian 8
  ++ u16 LittleEndian 1
  ++ entry LittleEndian Gps Format.Long 1 (u32 LittleEndian 26)
  ++ u32 LittleEndian 0
  ++ u16 LittleEndian 1
  ++ entry LittleEndian 0 Format.Byte 4 [x02; x03; x00; x00]
  ++ u32 LittleEndian 0.

Definition gps_sample : File := hd emptyFile (decoded gps_file).

(** A printer for tags that hold no float. *)
Definition noFloat (bits : Z) : string := EmptyString.

(** ExifVersion, an Undefined tag of four bytes. *)
Definition exifVersion : Tag :=
  mkTag 0x9000 Format.Undef 4 0 [x30; x32; x33; x30] Exif (Some LittleEndian).

(** [n] consecutive indices from [start]. *)
Fixpoint zseq (start : Z) (n : nat) : list Z :=
  match n with
  | O => []
  | S n' => start :: zseq (start + 1) n'
  end.


(** ExposureTime with the elements [n1/d1] and [n2/d2]. *)
Definition exposure (o : ByteOrder) (n1 d1 n2 d2 : Z) : Tag :=
  mkTag 0x829a Format.Rational 2 0
        (u32 o n1 ++ u32 o d1 ++ u32 o n2 ++ u32 o d2) Exif (Some o).

(** A root directory with the raw-strip tags (one strip of four bytes at
    86) and the embedded-JPEG tags (three bytes at 90). *)
Definition both_file : list byte :=
  header LittleEndian ++ u32 LittleEndian 8
  ++ u16 LittleEndian 6
  ++ entry LittleEndian ImageLength Format.Long 1 (u32 LittleEndian 1)
  ++ entry LittleEndian StripOffsets Format.Long 1 (u32 LittleEndian 86)
  ++ entry LittleEndian RowsPerStrip Format.Long 1 (u32 LittleEndian 1)
  ++ entry LittleEndian StripByteCounts Format.Long 1 (u32 LittleEndian 4)
  ++ entry LittleEndian JpegFromRawStart Format.Long 1 (u32 LittleEndian 90)
  ++ entry LittleEndian JpegFromRawLength Format.Long 1 (u32 LittleEndian 3)
  ++ u32 LittleEndian 0
  ++ [x52; x41; x57; x21]
  ++ [xff; xd8; xff].

Definition both_sample : File := hd emptyFile (decoded both_file).

(** A stand-in for the JPEG decoder: it keeps the bytes it is given. *)
Definition keepBytes (b : list byte) : result Image := Ok (ImgDecoded 0 0 b).

(* ------------------------------------------------------------------ *)
(** ** A directory whose descriptors are all in the buffer *)

(** The fields of a 12-byte descriptor. *)
Definition descId (o : ByteOrder) (g : list byte) : Z := get_uint o (slice g 0 2).
Definition descType (o : ByteOrder) (g : list byte) : Z := get_uint o (slice g 2 2).
Definition descCount (o : ByteOrder) (g : list byte) : Z := get_uint o (slice g 4 4).
Definition descValue (o : ByteOrder) (g : list byte) : Z := get_uint o (slice g 8 4).
Definition descSize (o : ByteOrder) (g : list byte) : Z :=
  Format.Size (descType o g) * descCount o g.

(** The [n] descriptors that start at [p], in file order. *)
Definition descriptors (s : list byte) (p : Z) (n : nat) : list (list byte) :=
  map (fun i => slice s (p + 12 * i) 12) (zseq 0 n).

(** The loop of [readTags] over descriptors already taken from the buffer. *)
Fixpoint decodeEntries (s : list byte) (o : ByteOrder) (delta fam : Z)
         (ds : list (list byte)) (tags : list Tag) : result (list Tag) :=
  match ds with
  | [] => Ok tags
  | g :: ds' =>
      let? tags' := decodeEntry s o delta fam tags g in
      decodeEntries s o delta fam ds' tags'
  end.

(** Some descriptor has an id that is not above the id of the descriptor
    before it ([prev], for the first one), or the count 0xFFFFFFFF. *)
Fixpoint violates (o : ByteOrder) (prev : option Z) (ds : list (list byte))
  : bool :=
  match ds with
  | [] => false
  | g :: ds' =>
      match prev with
      | Some p => descId o g <=? p
      | None => false
      end
      || (descCount o g =? 0xFFFFFFFF)
      || violates o (Some (descId o g)) ds'
  end.

(** The index of the first descriptor that has an id not above the id of
    the descriptor before it ([prev], for the first one), or the count
    0xFFFFFFFF. *)
Fixpoint firstViolation (o : ByteOrder) (prev : option Z) (ds : list (list byte))
  : option nat :=
  match ds with
  | [] => None
  | g :: ds' =>
      if match prev with
         | Some p => descId o g <=? p
         | None => false
         end
         || (descCount o g =? 0xFFFFFFFF)
      then Some O
      else option_map S (firstViolation o (Some (descId o g)) ds')
  end.

(** The payload of every descriptor with more than four bytes lies inside
    the buffer. *)
Definition payloads_present (s : list byte) (o : ByteOrder) (delta : Z)
           (ds : list (list byte)) : bool :=
  forallb (fun g => (descSize o g <=? 4)
                    || (add32 (descValue o g) delta + descSize o g <=? len s)) ds.

(** The id of the tag read last. *)
Definition lastId (tags : list Tag) : option Z :=
  match tags with
  | [] => None
  | _ :: _ => Some (Id (last tags zeroTag))
  end.

(** The invariant of the loop of [readTags]: the ids go up, and no count is
    the sentinel. *)
Definition directory_ok (tags : list Tag) : Prop :=
  ascending tags /\ Forall (fun t => Count t <> 0xFFFFFFFF) tags.

(** The vectors of a File and of its children have increasing ids. *)
Definition vectors_ascending (f : File) : Prop :=
  ascending (tiff f) /\ ascending (exif f) /\ ascending (notes f) /\
  ascending (gps f).

Definition file_ok (f : File) : Prop :=
  vectors_ascending f /\ Forall vectors_ascending (Files f).

(** A directory at 8 with the ids 5, 2 and 9, every value in its
    descriptor. *)
Definition unsorted_file (o : ByteOrder) : list byte :=
  header o ++ u32 o 8
  ++ u16 o 3
  ++ entry o 5 Format.Short 1 (u16 o 1 ++ [x00; x00])
  ++ entry o 2 Format.Short 1 (u16 o 1 ++ [x00; x00])
  ++ entry o 9 Format.Short 1 (u16 o 1 ++ [x00; x00])
  ++ u32 o 0.

(** The same ids, but the first tag has four Longs at offset 1000, beyond
    the end of the buffer. *)
Definition unsorted_short_file (o : ByteOrder) : list byte :=
  header o ++ u32 o 8
  ++ u16 o 3
  ++ entry o 5 Format.Long 4 (u32 o 1000)
  ++ entry o 2 Format.Short 1 (u16 o 1 ++ [x00; x00])
  ++ entry o 9 Format.Short 1 (u16 o 1 ++ [x00; x00])
  ++ u32 o 0.

(** The ids 5, 2 and 9 again; the last tag has four Longs at offset 1000,
    beyond the end of the buffer. *)
Definition unsorted_tail_file (o : ByteOrder) : list byte :=
  header o ++ u32 o 8
  ++ u16 o 3
  ++ entry o 5 Format.Short 1 (u16 o 1 ++ [x00; x00])
  ++ entry o 2 Format.Short 1 (u16 o 1 ++ [x00; x00])
  ++ entry o 9 Format.Long 4 (u32 o 1000)
  ++ u32 o 0.

(** [unsorted_file] cut behind its second descriptor, after 34 bytes. *)
Definition unsorted_cut_file (o : ByteOrder) : list byte :=
  firstn 34 (unsorted_file o).

(* ------------------------------------------------------------------ *)
(** ** Strips *)

(** Entry [i] of an array of 32-bit numbers. *)
Definition u32At (o : ByteOrder) (raw : list byte) (i : Z) : Z :=
  get_uint o (slice raw (4 * i) 4).

(** The bytes of strip [i]: the section of the buffer [s] that entry [i] of
    the array of offsets and entry [i] of the array of byte counts give. *)
Definition stripBytes (s : list byte) (op oc : ByteOrder)
           (offsets counts : list byte) (i : Z) : list byte :=
  slice s (u32At op offsets i) (u32At oc counts i).

Definition sumZ (l : list Z) : Z := fold_right Z.add 0 l.

(** The quotient rounded up. *)
Definition ceilDiv (a b : Z) : Z := (a + b - 1) / b.

(** Five rows in strips of two rows: three strips, stored at 90 (3 bytes),
    86 (4 bytes) and 93 (2 bytes); the arrays of offsets and byte counts are
    at 62 and 74. *)
Definition strips_file : list byte :=
  header LittleEndian ++ u32 LittleEndian 8
  ++ u16 LittleEndian 4
  ++ entry LittleEndian ImageLength Format.Long 1 (u32 LittleEndian 5)
  ++ entry LittleEndian StripOffsets Format.Long 3 (u32 LittleEndian 62)
  ++ entry LittleEndian RowsPerStrip Format.Long 1 (u32 LittleEndian 2)
  ++ entry LittleEndian StripByteCounts Format.Long 3 (u32 LittleEndian 74)
  ++ u32 LittleEndian 0
  ++ u32 LittleEndian 90 ++ u32 LittleEndian 86 ++ u32 LittleEndian 93
  ++ u32 LittleEndian 3 ++ u32 LittleEndian 4 ++ u32 LittleEndian 2
  ++ [x64; x65; x66; x67] ++ [x61; x62; x63] ++ [x68; x69].

Definition strips_sample : File := hd emptyFile (decoded strips_file).

(** The same file cut after 94 bytes: the last strip, two bytes at 93, has
    one byte left. *)
Definition cut_strips_file : list byte := firstn 94 strips_file.

(** [both_file] cut after 92 bytes: the embedded JPEG, three bytes at 90,
    has two bytes left. *)
Definition cut_jpeg_file : list byte := firstn 92 both_file.

(** The strips of [strips_file] in a file of the byte order [o] whose
    RowsPerStrip is a Short, as TIFF allows: its value 2 is in the first
    two bytes of the value field of the descriptor. *)
Definition short_rows_file (o : ByteOrder) : list byte :=
  header o ++ u32 o 8
  ++ u16 o 4
  ++ entry o ImageLength Format.Long 1 (u32 o 5)
  ++ entry o StripOffsets Format.Long 3 (u32 o 62)
  ++ entry o RowsPerStrip Format.Short 1 (u16 o 2 ++ [x00; x00])
  ++ entry o StripByteCounts Format.Long 3 (u32 o 74)
  ++ u32 o 0
  ++ u32 o 90 ++ u32 o 86 ++ u32 o 93
  ++ u32 o 3 ++ u32 o 4 ++ u32 o 2
  ++ [x64; x65; x66; x67] ++ [x61; x62; x63] ++ [x68; x69].

(** [strips_file] with no row per strip. *)
Definition no_rows_file : list byte :=
  header LittleEndian ++ u32 LittleEndian 8
  ++ u16 LittleEndian 4
  ++ entry LittleEndian ImageLength Format.Long 1 (u32 LittleEndian 5)
  ++ entry LittleEndian StripOffsets Format.Long 3 (u32 LittleEndian 62)
  ++ entry LittleEndian RowsPerStrip Format.Long 1 (u32 LittleEndian 0)
  ++ entry LittleEndian StripByteCounts Format.Long 3 (u32 LittleEndian 74)
  ++ u32 LittleEndian 0
  ++ u32 LittleEndian 90 ++ u32 LittleEndian 86 ++ u32 LittleEndian 93
  ++ u32 LittleEndian 3 ++ u32 LittleEndian 4 ++ u32 LittleEndian 2
  ++ [x64; x65; x66; x67] ++ [x61; x62; x63] ++ [x68; x69].

(* ------------------------------------------------------------------ *)
(** ** The content of a directory, and buffers that hold it *)

(** The content of a tag: id, type, count and the numbers its payload is
    made of.  For a payload of up to four bytes the numbers fill the value
    field of the descriptor. *)
Record Item : Type := mkItem {
  itemId : Z;
  itemType : Z;
  itemCount : Z;
  itemUnits : list Z
}.

(** The width of the numbers in a payload of a type: a Rational is two
    numbers of four bytes. *)
Definition unitWidth (ty : Z) : Z :=
  match ty with
  | 3 | 8 => 2
  | 4 | 9 | 11 | 5 | 10 => 4
  | 12 => 8
  | _ => 1
  end.

Definition itemSize (it : Item) : Z := Format.Size (itemType it) * itemCount it.

(** In a value field the numbers have at most four bytes (an empty Double
    payload leaves the field to one number of four bytes). *)
Definition itemWidth (it : Item) : Z :=
  if itemSize it <=? 4 then Z.min (unitWidth (itemType it)) 4
  else unitWidth (itemType it).

(** Numbers of [w] bytes, one after the other, in the order [o]. *)
Definition encodeUnits (o : ByteOrder) (w : Z) (units : list Z) : list byte :=
  List.concat (map (put_uint o (Z.to_nat w)) units).

Definition payload (o : ByteOrder) (it : Item) : list byte :=
  encodeUnits o (itemWidth it) (itemUnits it).

(** A content that a descriptor can carry: the fields fit their widths and
    the numbers fill the value field, or the payload, exactly. *)
Definition item_ok (it : Item) : bool :=
  (0 <=? itemId it) && (itemId it <? 2 ^ 16)
  && (0 <=? itemType it) && (itemType it <? 2 ^ 16)
  && (0 <=? itemCount it) && (itemCount it <? 2 ^ 32)
  && (itemWidth it * len (itemUnits it)
      =? (if itemSize it <=? 4 then 4 else itemSize it)).

(** The descriptor of an item in the order [o]; a payload of more than
    four bytes is at [place it]. *)
Definition descriptor (o : ByteOrder) (place : Item -> Z) (it : Item)
  : list byte :=
  entry o (itemId it) (itemType it) (itemCount it)
        (if itemSize it <=? 4 then payload o it else u32 o (place it)).

(** The buffer [s] holds, in the order [o], a directory at [at_] with the
    content [items] in this order, every larger payload at its place. *)
Definition holds (o : ByteOrder) (s : list byte) (at_ : Z) (place : Item -> Z)
           (items : list Item) : bool :=
  (0 <=? at_) && (len items <? 2 ^ 16)
  && (at_ + 2 + 12 * len items <=? len s)
  && bytes_eqb (slice s at_ 2) (u16 o (len items))
  && forallb
       (fun ki =>
          let it := snd ki in
          item_ok it
          && bytes_eqb (slice s (at_ + 2 + 12 * fst ki) 12) (descriptor o place it)
          && ((itemSize it <=? 4)
              || ((0 <=? place it) && (place it <? 2 ^ 32)
                  && (place it + itemSize it <=? len s)
                  && bytes_eqb (slice s (place it) (itemSize it)) (payload o it))))
       (indexed 0 items).

(** What [holds] says of one item. *)
Definition item_held (o : ByteOrder) (s : list byte) (place : Item -> Z)
           (it : Item) : Prop :=
  item_ok it = true /\
  (4 < itemSize it ->
   0 <= place it < 2 ^ 32 /\ place it + itemSize it <= len s /\
   slice s (place it) (itemSize it) = payload o it).

(** The first four bytes of the buffer are the header of the order [o]. *)
Definition has_header (o : ByteOrder) (s : list byte) : bool :=
  bytes_eqb (slice s 0 4) (header o).

(** The tag that [readTags] builds for an item, without a rebase. *)
Definition tagOfItem (o : ByteOrder) (fam : Z) (place : Item -> Z) (it : Item)
  : Tag :=
  mkTag (itemId it) (itemType it) (itemCount it)
        (if itemSize it <=? 4 then get_uint o (payload o it) else place it)
        (payload o it) fam (Some o).

(** The loop of [readTags] on the content. *)
Fixpoint decodeItems (o : ByteOrder) (fam : Z) (place : Item -> Z)
         (items : list Item) (tags : list Tag) : result (list Tag) :=
  match items with
  | [] => Ok tags
  | it :: items' =>
      if match lastId tags with Some p => itemId it <=? p | None => false end
      then Err ErrNotSorted
      else if itemCount it =? 0xFFFFFFFF then Err ErrInvalidCount
      else decodeItems o fam place items' (tags ++ [tagOfItem o fam place it])
  end.

(** The bypass ids carry text: their payload is made of bytes. *)
Definition text_is_bytes (it : Item) : bool :=
  negb ((itemId it =? Xmp) || (itemId it =? Comment)) || (itemWidth it =? 1).

(** [readOrder] and then [readTags], as [Decode] and [readDirectory] do for
    a root directory. *)
Definition readRoot (at_ fam : Z) : M (list Tag) :=
  bind readOrder (fun o => readTags o at_ 0 fam).

(** The lower bound that the ids still to come have to pass. *)
Definition idsFrom (prev : option Z) (items : list Item) : list Z :=
  match prev with
  | Some p => p :: map itemId items
  | None => map itemId items
  end.

(** A number of [w] bytes as its payload holds it. *)
Definition unitAt (w : Z) (units : list Z) (k : Z) : Z :=
  nth (Z.to_nat k) units 0 mod 256 ^ w.

(** The reader on a payload of numbers after [k] reads of [w] bytes: it
    stops at the end of the payload. *)
Definition afterReads (o : ByteOrder) (w : Z) (units : list Z) (k : Z) : Reader :=
  mkReader (encodeUnits o w units) (w * Z.min k (len units)).

(** A directory at 8 with a Short, a Long array behind the directory, a
    text and a Rational. *)
Definition sample_items : list Item :=
  [ mkItem 0x100 Format.Short 1 [640; 0];
    mkItem 0x111 Format.Long 2 [0x01020304; 7];
    mkItem 0x131 Format.String 3 [0x4e; 0x45; 0x46; 0];
    mkItem 0x829a Format.Rational 1 [1; 3] ].

Definition sample_place (it : Item) : Z :=
  if itemId it =? 0x111 then 62 else 70.

Definition sample_buffer (o : ByteOrder) : list byte :=
  header o ++ u32 o 8
  ++ u16 o 4
  ++ List.concat (map (descriptor o sample_place) sample_items)
  ++ u32 o 0
  ++ payload o (mkItem 0x111 Format.Long 2 [0x01020304; 7])
  ++ payload o (mkItem 0x829a Format.Rational 1 [1; 3]).

(** UserComment given as one Long. *)
Definition comment_items : list Item :=
  [ mkItem Comment Format.Long 1 [0x41424344] ].

Definition comment_buffer (o : ByteOrder) : list byte :=
  header o ++ u32 o 8
  ++ u16 o 1
  ++ List.concat (map (descriptor o sample_place) comment_items)
  ++ u32 o 0.

(* ------------------------------------------------------------------ *)
(** ** The other accessors of Tag and File *)

(** [Tag.String]. *)
Definition TagString (t : Tag) : string :=
  if (Id t =? Xmp) || (Id t =? Comment) then
    string_of_list_byte (TrimSpace (Raw t))
  else if Typ t =? Format.String then
    string_of_list_byte (TrimRightNul (Raw t))
  else EmptyString.

(** [Tag.Origin]. *)
Definition Origin (t : Tag) : string :=
  if (family t =? Tiff) || (family t =? Nef) then "tiff"%string
  else if family t =? Exif then "exif"%string
  else if family t =? Note then "note"%string
  else if family t =? Gps then "gps"%string
  else "unknown"%string.

(** [File.Tags]. *)
Definition FileTags (f : File) : list Tag :=
  tiff f ++ exif f ++ notes f ++ gps f.

(** [File.IsMainDir] and [File.IsSubDir]. *)
Definition IsMainDir (f : File) : bool := len (Index f) =? 1.
Definition IsSubDir (f : File) : bool := 1 <? len (Index f).

(** [fmt.Sprintf("%02d", x)]. *)
Definition pad2 (x : Z) : string :=
  if (0 <=? x) && (x <? 10) then ("0" ++ FormatInt x)%string else FormatInt x.

(** [strings.Join(l, sep)]. *)
Fixpoint Join (l : list string) (sep : string) : string :=
  match l with
  | [] => EmptyString
  | [a] => a
  | a :: l' => (a ++ sep ++ Join l' sep)%string
  end.

(** [File.Filename]. *)
Definition Filename (f : File) : string :=
  ((if IsSubDir f then "S" else "M") ++ "-" ++ Join (map pad2 (Index f)) "-")%string.

(** [File.Directory]. *)
Definition Directory (f : File) : string :=
  match Index f with
  | [i] => ("M-IFD#" ++ FormatInt i)%string
  | [_; j] => ("S-IFD#" ++ FormatInt j)%string
  | _ => "???"%string
  end.

(** The tag that one round of the loop of [readTags] builds from the
    descriptor [g], when it builds one. *)
Definition tagOf (s : list byte) (o : ByteOrder) (delta fam : Z) (g : list byte)
  : Tag :=
  let off := add32 (descValue o g) delta in
  mkTag (descId o g) (descType o g) (descCount o g) off
        (if 4 <? descSize o g then slice s off (descSize o g) else PutUint32 o off)
        fam (Some o).

(** A result that is a value or an error of one of the kinds [ks]: no
    other error, and no panic. *)
Definition only_kinds {A} (ks : list ErrorKind) (x : result A) : Prop :=
  match x with
  | Ok _ => True
  | Err e => In (kind e) ks
  | Panic => False
  end.

(* ------------------------------------------------------------------ *)
(** ** Invariants of the forest *)

(** A tag as [readTags] builds it: fields within their widths, no sentinel
    count, an order, and raw bytes of four bytes or of the size of the
    payload. *)
Definition tag_wf (t : Tag) : Prop :=
  0 <= Id t < 2 ^ 16 /\ 0 <= Typ t < 2 ^ 16 /\
  0 <= Count t < 2 ^ 32 - 1 /\ 0 <= Offset t < 2 ^ 32 /\
  (exists o, order t = Some o) /\
  len (Raw t) = Z.max 4 (TagM.Size t).

(** The four vectors of a File satisfy [Q], each for its family. *)
Definition vectors_sat (Q : Z -> list Tag -> Prop) (f : File) : Prop :=
  Q Tiff (tiff f) /\ Q Exif (exif f) /\ Q Note (notes f) /\ Q Gps (gps f).

(** [c] is child number [k] of the root [f] with the index [i]. *)
Definition child_of (f : File) (i k : Z) (c : File) : Prop :=
  Index c = [i; k] /\ exif c = exif f /\ notes c = notes f /\ gps c = [] /\
  Files c = [] /\ reader c = reader f /\ forder c = forder f.

Fixpoint children_from (f : File) (i k : Z) (cs : list File) : Prop :=
  match cs with
  | [] => True
  | c :: cs' => child_of f i k c /\ children_from f i (k + 1) cs'
  end.

Definition root_shape (b : list byte) (i : Z) (f : File) : Prop :=
  Index f = [i] /\ reader f = b /\ children_from f i 0 (Files f).

Fixpoint roots_from (b : list byte) (i : Z) (files : list File) : Prop :=
  match files with
  | [] => True
  | f :: files' => root_shape b i f /\ roots_from b (i + 1) files'
  end.

(** The number of values that [Values] returns for a tag: one text for the
    bypass ids and for String, one value per element for the numeric
    formats, none for SByte and Undefined. *)
Definition valueCount (t : Tag) : Z :=
  if (Id t =? Xmp) || (Id t =? Comment) then 1
  else if Typ t =? Format.String then 1
  else if (Typ t =? Format.SByte) || (Typ t =? Format.Undef) then 0
  else Count t.

(** A computation that leaves the buffer of the reader as it is. *)
Definition keeps_buf {A} (m : M A) : Prop :=
  forall r, buf (snd (m r)) = buf r.

Definition sample_buffer_le : list byte := sample_buffer LittleEndian.

(** [g] is a File of the forest: a root, or a child of a root. *)
Definition in_forest (files : list File) (g : File) : Prop :=
  exists f, In f files /\ (g = f \/ In g (Files f)).

(** The tags of a vector are well formed and of the family [fam]. *)
Definition family_wf (fam : Z) (tags : list Tag) : Prop :=
  Forall (fun t => tag_wf t /\ family t = fam) tags.

(** ImageWidth 640, a Short in the value field of its descriptor. *)
Definition widthTag (o : ByteOrder) : Tag :=
  mkTag ImageWidth Format.Short 1 640 (u16 o 640 ++ [x00; x00]) Tiff (Some o).

(** A MakerNote block of another maker at offset 8: "Canon\0" and six
    bytes. *)
Definition foreignNote : Tag :=
  mkTag Note Format.Undef 12 8 [] Exif (Some LittleEndian).

Definition foreign_buffer : list byte :=
  header LittleEndian ++ u32 LittleEndian 0
  ++ [x43; x61; x6e; x6f; x6e; x00] ++ [x01; x02; x03; x04; x05; x06].

(** Byte [k] of a buffer, zero beyond its end. *)
Definition byteAt (b : list byte) (k : Z) : byte := nth (Z.to_nat k) b x00.

(** The pixels of a [w] by [h] image in row order, pixel number [k] being
    [px k]. *)
Definition pixelGrid {A} (w h : Z) (px : Z -> A) : list (list A) :=
  map (fun j => map (fun i => px (w * j + i)) (zseq 0 (Z.to_nat w)))
      (zseq 0 (Z.to_nat h)).

(** The reader on [b] after [k] calls of [ReadByte]: it stops at the end. *)
Definition afterBytes (b : list byte) (k : Z) : Reader :=
  mkReader b (Z.min k (len b)).

(** A raw image of one strip (four bytes at 74) with the photometric
    interpretation 3, a palette image. *)
Definition palette_file : list byte :=
  header LittleEndian ++ u32 LittleEndian 8
  ++ u16 LittleEndian 5
  ++ entry LittleEndian ImageLength Format.Long 1 (u32 LittleEndian 1)
  ++ entry LittleEndian Photometric Format.Short 1 (u16 LittleEndian 3 ++ [x00; x00])
  ++ entry LittleEndian StripOffsets Format.Long 1 (u32 LittleEndian 74)
  ++ entry LittleEndian RowsPerStrip Format.Long 1 (u32 LittleEndian 1)
  ++ entry LittleEndian StripByteCounts Format.Long 1 (u32 LittleEndian 4)
  ++ u32 LittleEndian 0
  ++ [x00; x01; x02; x03].

Definition palette_sample : File := hd emptyFile (decoded palette_file).




(** The end of the directory at [at_]: behind its last descriptor, where
    the offset of the next directory is. *)
Definition directoryEnd (o : ByteOrder) (s : list byte) (at_ : Z) : Z :=
  at_ + 2 + 12 * get_uint o (slice s at_ 2).

(** A directory at 8 without entries whose next-directory offset is 8. *)
Definition cyclic_file (o : ByteOrder) : list byte :=
  header o ++ u32 o 8 ++ u16 o 0 ++ u32 o 8.

(* ------------------------------------------------------------------ *)
(** ** Package mov: the atoms of a QuickTime file *)

Module Mov.

(** The errors of the package and of the reads it makes. *)
Inductive error : Type :=
| EOF                 (* io.EOF *)
| ErrUnexpectedEOF    (* io.ErrUnexpectedEOF *)
| ErrNotFound         (* "not found" *)
| ErrFtyp             (* "expected ftyp, got ..." *)
| ErrSeek.            (* a seek to a negative position *)

Inductive result (A : Type) : Type :=
| Ok (a : A)
| Err (e : error)
| Panic.

Arguments Ok {A} a.
Arguments Err {A} e.
Arguments Panic {A}.

Definition ftyp : list byte := [x66; x74; x79; x70].
Definition moov : list byte := [x6d; x6f; x6f; x76].
Definition mvhd : list byte := [x6d; x76; x68; x64].

(** [io.ReadFull(r, make([]byte, n))] on a file, or on a section of it,
    at the position of the reader. *)
Definition readFull (n : Z) (r : Reader) : result (list byte) * Reader :=
  if n <=? 0 then (Ok [], r)
  else if len (buf r) <=? pos r then (Err EOF, r)
  else if len (buf r) - pos r <? n
       then (Err ErrUnexpectedEOF, mkReader (buf r) (len (buf r)))
       else (Ok (slice (buf r) (pos r) n), mkReader (buf r) (pos r + n)).

(** [r.Seek(d, io.SeekCurrent)]: an error for a negative position. *)
Definition seekCurrent (d : Z) (r : Reader) : result unit * Reader :=
  if pos r + d <? 0 then (Err ErrSeek, r) else (Ok tt, mkReader (buf r) (pos r + d)).

(** [readMagic]. *)
Definition readMagic (r : Reader) : result unit * Reader :=
  match readFull 8 r with
  | (Ok head, r') =>
      if negb (bytes_eqb (from 4 head) ftyp) then (Err ErrFtyp, r')
      else seekCurrent (get_uint BigEndian (slice head 0 4) - 8) r'
  | (Err e, r') => (Err e, r')
  | (Panic, r') => (Panic, r')
  end.

(** The map from the names of the atoms to their sections: the entry
    written last for a name comes first.  A section is the part of the
    file it gives access to, [n] bytes from [off] on, as far as the file
    goes. *)
Definition Atoms : Type := list (list byte * list byte).

Fixpoint lookup (name : list byte) (atoms : Atoms) : option (list byte) :=
  match atoms with
  | [] => None
  | (k, v) :: atoms' => if bytes_eqb k name then Some v else lookup name atoms'
  end.

Record File : Type := mkFile { atoms : Atoms }.

(** The loop of [readAtoms]; [None] when it is still running after [fuel]
    rounds. *)
Fixpoint readLoop (fuel : nat) (m : Atoms) (r : Reader) : option (result File) :=
  match fuel with
  | O => None
  | S fuel' =>
      match readFull 8 r with
      | (Ok head, r') =>
          let size := get_uint BigEndian (slice head 0 4) in
          let m' := (from 4 head, slice (buf r') (pos r') (size - 8)) :: m in
          match seekCurrent (size - 8) r' with
          | (Ok _, r'') => readLoop fuel' m' r''
          | (Err e, _) => Some (Err e)
          | (Panic, _) => Some Panic
          end
      | (Err EOF, _) => Some (Ok (mkFile m))
      | (Err e, _) => Some (Err e)
      | (Panic, _) => Some Panic
      end
  end.

(** [readAtoms]. *)
Definition readAtoms (fuel : nat) (r : Reader) : option (result File) :=
  readLoop fuel [] r.

(** [Decode], on the bytes of the file. *)
Definition Decode (fuel : nat) (b : list byte) : option (result File) :=
  match readMagic (mkReader b 0) with
  | (Ok _, r) => readAtoms fuel r
  | (Err e, _) => Some (Err e)
  | (Panic, _) => Some Panic
  end.

(** The loop of [findAtom] on a section; [rs] is the reader it builds.
    Every round reads eight bytes, so the loop ends; [None] when [fuel]
    rounds were not enough. *)
Fixpoint findLoop (fuel : nat) (atom : list byte) (r : Reader)
  : option (result (option (list byte))) :=
  match fuel with
  | O => None
  | S fuel' =>
      match readFull 8 r with
      | (Ok head, r') =>
          let size := (get_uint BigEndian (slice head 0 4) - 8) mod 2 ^ 32 in
          if bytes_eqb (from 4 head) atom then
            match readFull size r' with
            | (Ok body, _) => Some (Ok (Some body))
            | (Err e, _) => Some (Err e)
            | (Panic, _) => Some Panic
            end
          else
            match seekCurrent size r' with
            | (Ok _, r'') => findLoop fuel' atom r''
            | (Err e, _) => Some (Err e)
            | (Panic, _) => Some Panic
            end
      | (Err e, _) => Some (Err e)
      | (Panic, _) => Some Panic
      end
  end.

(** [findAtom]: the test [rs == nil] follows the loop. *)
Definition findAtom (fuel : nat) (atom : list byte) (r : Reader)
  : option (result (list byte)) :=
  match findLoop fuel atom r with
  | Some (Ok (Some body)) => Some (Ok body)
  | Some (Ok None) => Some (Err ErrNotFound)
  | Some (Err e) => Some (Err e)
  | Some Panic => Some Panic
  | None => None
  end.

(** The header of a movie. *)
Record Profile : Type := mkProfile {
  Version : Z;
  Spare1 : list byte;
  Created : Z;
  Modified : Z;
  TimeScale : Z;
  Duration : Z;
  Rate : Z;
  Volume : Z;
  Spare2 : list byte;
  Matrix : list byte;
  PreviewTime : Z;
  PreviewDuration : Z;
  PosterTime : Z;
  SelectionTime : Z;
  SelectionDuration : Z;
  CurrentTime : Z;
  Next : Z
}.

(** [var p Profile]. *)
Definition zeroProfile : Profile :=
  mkProfile 0 [x00; x00; x00] 0 0 0 0 0 0
            (repeat x00 10) (repeat x00 36) 0 0 0 0 0 0 0.

Definition be (bs : list byte) (off n : Z) : Z := get_uint BigEndian (slice bs off n).

(** The hundred bytes of a [Profile] as [binary.Read] decodes them. *)
Definition decodeProfile (bs : list byte) : Profile :=
  mkProfile (be bs 0 1) (slice bs 1 3) (be bs 4 4) (be bs 8 4) (be bs 12 4)
            (be bs 16 4) (be bs 20 4) (be bs 24 2) (slice bs 26 10) (slice bs 36 36)
            (be bs 72 4) (be bs 76 4) (be bs 80 4) (be bs 84 4) (be bs 88 4)
            (be bs 92 4) (be bs 96 4).

(** [File.DecodeProfile]: the profile and the error it returns.  An error
    of [findAtom] is dropped.  In the last [return] the value of [p] is
    read after the call of [binary.Read], as the standard compiler does. *)
Definition DecodeProfile (fuel : nat) (f : File)
  : option (result (Profile * option error)) :=
  match lookup moov (atoms f) with
  | None => Some (Ok (zeroProfile, Some ErrNotFound))
  | Some section =>
      match findAtom fuel mvhd (mkReader section 0) with
      | None => None
      | Some (Ok body) =>
          match readFull 100 (mkReader body 0) with
          | (Ok bs, _) => Some (Ok (decodeProfile bs, None))
          | (Err e, _) => Some (Ok (zeroProfile, Some e))
          | (Panic, _) => Some Panic
          end
      | Some (Err _) => Some (Ok (zeroProfile, None))
      | Some Panic => Some Panic
      end
  end.

(** [Profile.Length], in nanoseconds; the division panics on a zero time
    scale. *)
Definition Length (p : Profile) : result Z :=
  if TimeScale p =? 0 then Panic
  else Ok (Duration p / TimeScale p * 1000000000).

(** [epoch.Sub(unix)], in seconds: 1904 is 24107 days before 1970. *)
Definition delta : Z := - (24107 * 86400).

(** [Profile.AcqTime] and [Profile.ModTime], in seconds of Unix time. *)
Definition AcqTime (p : Profile) : Z := Created p + delta.
Definition ModTime (p : Profile) : Z := Modified p + delta.

(** What the command [mov] does with a decoded file: it prints the two
    times and the length, or leaves with the status 2 and the error of
    [DecodeProfile], or panics after the lines printed so far. *)
Inductive Outcome : Type :=
| Printed (acq mod_ length : Z)
| Exit2 (e : error)
| Crashed (printed : list Z).

Definition report (fuel : nat) (f : File) : option Outcome :=
  match DecodeProfile fuel f with
  | None => None
  | Some (Ok (_, Some e)) => Some (Exit2 e)
  | Some (Ok (p, None)) =>
      match Length p with
      | Ok l => Some (Printed (AcqTime p) (ModTime p) l)
      | _ => Some (Crashed [AcqTime p; ModTime p])
      end
  | Some _ => Some (Crashed [])
  end.

(** An atom: its size, header included, its name and its content. *)
Definition atom (name content : list byte) : list byte :=
  put_uint BigEndian 4 (8 + len content) ++ name ++ content.

(** A file made of a [ftyp] atom and of the atoms [items]. *)
Definition movie (brand : list byte) (items : Atoms) : list byte :=
  atom ftyp brand ++ List.concat (map (fun kv => atom (fst kv) (snd kv)) items).

(** Names of four bytes, and sizes that fit 32 bits. *)
Definition atom_ok (kv : list byte * list byte) : Prop :=
  len (fst kv) = 4 /\ 8 + len (snd kv) < 2 ^ 32.

End Mov.


(** A movie whose [moov] atom holds a [trak] atom and no [mvhd] atom. *)
Definition headless_movie : list byte :=
  Mov.movie [x71; x74; x20; x20]
    [(Mov.moov, Mov.atom [x74; x72; x61; x6b] [x00; x01])].

Definition headless_file : Mov.File :=
  Mov.mkFile [(Mov.moov, Mov.atom [x74; x72; x61; x6b] [x00; x01])].

(** A movie whose last atom has the size zero. *)
Definition open_movie : list byte :=
  Mov.movie [x71; x74; x20; x20] [(Mov.moov, [])]
  ++ put_uint BigEndian 4 0 ++ [x6d; x64; x61; x74] ++ [x01; x02; x03].

(* ------------------------------------------------------------------ *)
(** ** The commands: what they compute from paths and tags *)

Module Cmd.

Definition slash : byte := x2f.
Definition dot : byte := x2e.

(** The loop of [filepath.Ext], from the end of the path; [acc] is
    [path[i+1:]]. *)
Fixpoint extLoop (rpath acc : list byte) : list byte :=
  match rpath with
  | [] => []
  | c :: rest =>
      if Byte.eqb c slash then []
      else if Byte.eqb c dot then c :: acc
      else extLoop rest (c :: acc)
  end.

(** [filepath.Ext]. *)
Definition Ext (path : list byte) : list byte := extLoop (rev path) [].

Fixpoint dropSlashes (rpath : list byte) : list byte :=
  match rpath with
  | c :: rest => if Byte.eqb c slash then dropSlashes rest else rpath
  | [] => []
  end.

Fixpoint lastElem (rpath acc : list byte) : list byte :=
  match rpath with
  | [] => acc
  | c :: rest => if Byte.eqb c slash then acc else lastElem rest (c :: acc)
  end.

(** [filepath.Base], with the separator of Unix. *)
Definition Base (path : list byte) : list byte :=
  match path with
  | [] => [dot]
  | _ :: _ =>
      match lastElem (dropSlashes (rev path)) [] with
      | [] => [slash]
      | p => p
      end
  end.

Definition inSet (cutset : list byte) (c : byte) : bool :=
  existsb (Byte.eqb c) cutset.

Fixpoint dropIn (cutset s : list byte) : list byte :=
  match s with
  | c :: rest => if inSet cutset c then dropIn cutset rest else s
  | [] => []
  end.

(** [strings.TrimLeft] and [strings.TrimRight] for a cutset of ASCII
    characters: the bytes of the cutset go, one by one. *)
Definition TrimLeft (s cutset : list byte) : list byte := dropIn cutset s.
Definition TrimRight (s cutset : list byte) : list byte :=
  rev (dropIn cutset (rev s)).

(** The name that [mkdir] of the command [extract] joins to the directory:
    [strings.TrimRight(base, ext)]. *)
Definition mkdirName (file : list byte) : list byte :=
  TrimRight (Base file) (Ext file).

(** The cutset of [userComment]: "ASCII\x00\x00". *)
Definition commentCutset : list byte := [x41; x53; x43; x49; x49; x00; x00].

(** [userComment] of the command [list]. *)
Definition userComment (t : Tag) : string :=
  string_of_list_byte (TrimLeft (list_byte_of_string (TagString t)) commentCutset).

(** [bits.OnesCount32] of a number of 32 bits. *)
Fixpoint onesPos (p : positive) : nat :=
  match p with
  | xH => 1
  | xO q => onesPos q
  | xI q => S (onesPos q)
  end.

Definition OnesCount32 (u : Z) : nat :=
  match u with
  | Zpos p => onesPos p
  | _ => O
  end.

(** [lensType] of the command [list]. *)
Definition lensType (t : Tag) : result string :=
  let? u := TagM.Uint t in
  Ok (match OnesCount32 u with
      | 0 => "MF" | 1 => "D" | 2 => "G" | 3 => "VR" | 4 => "1"
      | 5 => "FT-1" | 6 => "E" | 7 => "AF-P"
      | _ => "other (" ++ FormatUint u ++ ")"
      end%nat%string).

End Cmd.

(** The character code of a comment in ASCII: "ASCII\0\0\0". *)
Definition asciiCode : list byte := [x41; x53; x43; x49; x49; x00; x00; x00].

(** UserComment "CASIO" with its character code. *)
Definition casioComment : Tag :=
  mkTag Comment Format.Undef 13 0
        (asciiCode ++ [x43; x41; x53; x49; x4f]) Exif (Some LittleEndian).

(** LensType with the flags [u]. *)
Definition lensTag (u : Z) : Tag :=
  mkTag 0x83 Format.Byte 1 u [byte_of u; x00; x00; x00] Note (Some LittleEndian).

(** "queen.nef". *)
Definition queen_nef : list byte :=
  [x71; x75; x65; x65; x6e; x2e; x6e; x65; x66].

(** The offset of the next directory, as the directory at [at_] gives it. *)
Definition nextOffset (o : ByteOrder) (s : list byte) (at_ : Z) : Z :=
  get_uint o (slice s (directoryEnd o s at_) 4).

(** The offsets that the chain of directories from [a] goes through, as
    long as the next-directory offsets are in the buffer. *)
Inductive chain (o : ByteOrder) (s : list byte) (a : Z) : Z -> Prop :=
| chain_here : chain o s a a
| chain_next (x : Z) :
    chain o s a x -> 0 < x -> directoryEnd o s x + 4 <= len s ->
    chain o s a (nextOffset o s x).

(** Every directory of the chain from [a] points forward, or nowhere. *)
Definition forward_from (o : ByteOrder) (s : list byte) (a : Z) : Prop :=
  forall x, chain o s a x -> 0 < x -> directoryEnd o s x + 4 <= len s ->
            nextOffset o s x = 0 \/ x < nextOffset o s x.

(** The number that a decimal text denotes, zero for any other text. *)
Definition valueOf (s : string) : Z :=
  match NilZero.int_of_string s with
  | Some d => Z.of_int d
  | None => 0
  end.

(** The text has no hyphen. *)
Fixpoint noDash (s : string) : bool :=
  match s with
  | EmptyString => true
  | String c s' => negb (Ascii.eqb c "-") && noDash s'
  end.

(** A root directory at 8 with the sub-directory pointer: two offsets at
    26, and two empty directories at 34 and 40. *)
Definition sub_file : list byte :=
  header LittleEndian ++ u32 LittleEndian 8
  ++ u16 LittleEndian 1
  ++ entry LittleEndian Nef Format.Long 2 (u32 LittleEndian 26)
  ++ u32 LittleEndian 0
  ++ u32 LittleEndian 34 ++ u32 LittleEndian 40
  ++ u16 LittleEndian 0 ++ u32 LittleEndian 0
  ++ u16 LittleEndian 0 ++ u32 LittleEndian 0.

Definition sub_sample : File := hd emptyFile (decoded sub_file).

(** A root directory at 8 whose sub-directory pointer has the count 1 and,
    in its value field, the offset 26 of the one sub-directory, a directory
    with the tag ImageWidth. *)
Definition one_sub_file : list byte :=
  header LittleEndian ++ u32 LittleEndian 8
  ++ u16 LittleEndian 1
  ++ entry LittleEndian Nef Format.Long 1 (u32 LittleEndian 26)
  ++ u32 LittleEndian 0
  ++ u16 LittleEndian 1
  ++ entry LittleEndian ImageWidth Format.Short 1 (u16 LittleEndian 640 ++ [x00; x00])
  ++ u32 LittleEndian 0.

(* ================================================================== *)
(** * Properties *)

(* ------------------------------------------------------------------ *)
(** ** Lists, bytes and byte orders *)

Lemma len_nonneg {A} (l : list A) : 0 <= len l.
Proof. unfold len; lia. Qed.

Lemma len_app {A} (l1 l2 : list A) : len (l1 ++ l2) = len l1 + len l2.
Proof. unfold len; rewrite length_app; lia. Qed.

Lemma len_cons {A} (a : A) (l : list A) : len (a :: l) = 1 + len l.
Proof. unfold len; cbn [List.length]; lia. Qed.

Lemma byte_val_range (b : byte) : 0 <= byte_val b < 256.
Proof.
  unfold byte_val. pose proof (Byte.to_N_bounded b). lia.
Qed.

Lemma byte_of_val (b : byte) : byte_of (byte_val b) = b.
Proof.
  unfold byte_of. pose proof (byte_val_range b).
  rewrite Z.mod_small by lia.
  unfold byte_val. rewrite N2Z.id, Byte.of_to_N. reflexivity.
Qed.

Lemma byte_val_of (z : Z) : byte_val (byte_of z) = z mod 256.
Proof.
  unfold byte_of, byte_val.
  pose proof (Z.mod_pos_bound z 256 ltac:(lia)) as Hm.
  destruct (Byte.of_N (Z.to_N (z mod 256))) as [b|] eqn:E.
  - apply Byte.to_of_N in E. rewrite E. lia.
  - apply Byte.of_N_None_iff in E. lia.
Qed.

Lemma le_value_range (bs : list byte) : 0 <= le_value bs < 256 ^ len bs.
Proof.
  induction bs as [|b bs IH].
  - cbn. lia.
  - rewrite len_cons, Z.pow_add_r by (pose proof (len_nonneg bs); lia).
    cbn [le_value]. pose proof (byte_val_range b). nia.
Qed.

Lemma le_bytes_length (n : nat) (v : Z) : List.length (le_bytes n v) = n.
Proof. revert v; induction n; intros; cbn; auto. Qed.

Lemma le_value_bytes (n : nat) (v : Z) :
  le_value (le_bytes n v) = v mod 256 ^ Z.of_nat n.
Proof.
  revert v; induction n as [|n IH]; intros v.
  - cbn. rewrite Z.mod_1_r. reflexivity.
  - cbn [le_bytes le_value]. rewrite IH, byte_val_of.
    rewrite Nat2Z.inj_succ, Z.pow_succ_r by lia.
    rewrite Z.rem_mul_r by lia. lia.
Qed.

Lemma le_bytes_value (bs : list byte) :
  le_bytes (List.length bs) (le_value bs) = bs.
Proof.
  induction bs as [|b bs IH]; [reflexivity|].
  cbn [List.length le_bytes le_value].
  pose proof (byte_val_range b) as Hb.
  assert (Hm : (byte_val b + 256 * le_value bs) mod 256 = byte_val b).
  { rewrite (Z.mul_comm 256), Z.mod_add by lia. apply Z.mod_small; lia. }
  assert (Hd : (byte_val b + 256 * le_value bs) / 256 = le_value bs).
  { rewrite (Z.mul_comm 256), Z.div_add by lia.
    rewrite Z.div_small by lia. lia. }
  rewrite Hd, IH. f_equal.
  unfold byte_of. rewrite Hm.
  unfold byte_val. rewrite N2Z.id, Byte.of_to_N. reflexivity.
Qed.

Lemma arrange_involutive {A} (o : ByteOrder) (l : list A) :
  arrange o (arrange o l) = l.
Proof. destruct o; cbn; [reflexivity | apply rev_involutive]. Qed.

Lemma arrange_length {A} (o : ByteOrder) (l : list A) :
  List.length (arrange o l) = List.length l.
Proof. destruct o; cbn; [reflexivity | apply length_rev]. Qed.

(** Reading back what was written gives the value modulo the width. *)
Lemma get_put_uint (o : ByteOrder) (n : nat) (v : Z) :
  get_uint o (put_uint o n v) = v mod 256 ^ Z.of_nat n.
Proof.
  unfold get_uint, put_uint. rewrite arrange_involutive. apply le_value_bytes.
Qed.

(** Writing back what was read gives the same bytes. *)
Lemma put_get_uint (o : ByteOrder) (bs : list byte) :
  put_uint o (List.length bs) (get_uint o bs) = bs.
Proof.
  unfold get_uint, put_uint.
  rewrite <- (arrange_length o bs), le_bytes_value.
  apply arrange_involutive.
Qed.

Lemma get_uint_range (o : ByteOrder) (bs : list byte) :
  0 <= get_uint o bs < 256 ^ len bs.
Proof.
  unfold get_uint. pose proof (le_value_range (arrange o bs)) as H.
  unfold len in *. rewrite arrange_length in H. exact H.
Qed.

Lemma put_uint_length (o : ByteOrder) (n : nat) (v : Z) :
  List.length (put_uint o n v) = n.
Proof. unfold put_uint. rewrite arrange_length. apply le_bytes_length. Qed.

Lemma slice_length {A} (s : list A) (off n : Z) :
  0 <= off -> 0 <= n -> off + n <= len s -> len (slice s off n) = n.
Proof.
  intros Ho Hn Hlen. unfold slice, from, len in *.
  rewrite length_firstn, length_skipn. lia.
Qed.

Lemma slice_all {A} (s : list A) : slice s 0 (len s) = s.
Proof.
  unfold slice, from, len. cbn [Z.to_nat skipn].
  rewrite Nat2Z.id. apply firstn_all.
Qed.

(* ------------------------------------------------------------------ *)
(** ** sort.Search finds the least index of a monotone test *)

Lemma search_loop_bounds (fuel : nat) (f : Z -> bool) (i j : Z) :
  i <= j -> i <= search_loop fuel f i j <= j.
Proof.
  revert i j; induction fuel as [|fuel IH]; intros i j Hij; cbn [search_loop].
  - lia.
  - destruct (Z.ltb_spec i j) as [Hlt|Hge]; [|lia].
    assert (i <= (i + j) / 2 < j) by (split; [apply Z.div_le_lower_bound | apply Z.div_lt_upper_bound]; lia).
    destruct (f ((i + j) / 2)).
    + specialize (IH i ((i + j) / 2)). lia.
    + specialize (IH ((i + j) / 2 + 1) j). lia.
Qed.

(** The loop never runs out of rounds: any two budgets above the width of
    the interval give the same index. *)
Lemma search_loop_fuel (fuel1 fuel2 : nat) (f : Z -> bool) (i j : Z) :
  j - i < Z.of_nat fuel1 -> j - i < Z.of_nat fuel2 ->
  search_loop fuel1 f i j = search_loop fuel2 f i j.
Proof.
  revert fuel2 i j; induction fuel1 as [|fuel1 IH]; intros fuel2 i j H1 H2.
  - destruct fuel2; cbn [search_loop]; [reflexivity|].
    destruct (Z.ltb_spec i j); [lia | reflexivity].
  - destruct fuel2 as [|fuel2]; cbn [search_loop].
    + destruct (Z.ltb_spec i j); [lia | reflexivity].
    + destruct (Z.ltb_spec i j) as [Hlt|Hge]; [|reflexivity].
      assert (i <= (i + j) / 2 < j) by (split; [apply Z.div_le_lower_bound | apply Z.div_lt_upper_bound]; lia).
      destruct (f ((i + j) / 2)); apply IH; lia.
Qed.

Section SearchMonotone.
Variable n : Z.
Variable f : Z -> bool.
Hypothesis f_mono : forall a b, 0 <= a <= b -> b < n -> f a = true -> f b = true.

Lemma search_loop_least (fuel : nat) (i j : Z) :
  j - i < Z.of_nat fuel -> 0 <= i <= j -> j <= n ->
  (forall k, 0 <= k < i -> f k = false) ->
  (forall k, j <= k < n -> f k = true) ->
  let x := search_loop fuel f i j in
  (forall k, 0 <= k < x -> f k = false) /\ (forall k, x <= k < n -> f k = true).
Proof.
  revert i j; induction fuel as [|fuel IH]; intros i j Hfuel Hij Hjn Hlo Hhi;
    cbn [search_loop].
  - lia.
  - destruct (Z.ltb_spec i j) as [Hlt|Hge].
    + assert (Hh : i <= (i + j) / 2 < j) by (split; [apply Z.div_le_lower_bound | apply Z.div_lt_upper_bound]; lia).
      destruct (f ((i + j) / 2)) eqn:Efh.
      * apply IH; try lia; auto.
        intros k Hk. apply (f_mono (a := (i + j) / 2)); auto; lia.
      * apply IH; try lia; auto.
        intros k Hk. destruct (f k) eqn:Efk; [|reflexivity].
        rewrite (f_mono (a := k) (b := (i + j) / 2)) in Efh; auto; lia.
    + cbv zeta. replace i with j in * by lia. auto.
Qed.

Lemma Search_least :
  0 <= n ->
  let x := Search n f in
  0 <= x <= n /\
  (forall k, 0 <= k < x -> f k = false) /\ (forall k, x <= k < n -> f k = true).
Proof.
  intros Hn x. split.
  - apply search_loop_bounds; lia.
  - apply search_loop_least; try lia.
Qed.
End SearchMonotone.

Lemma Search_bounds (n : Z) (f : Z -> bool) : 0 <= n -> 0 <= Search n f <= n.
Proof. intros; apply search_loop_bounds; lia. Qed.

(* ------------------------------------------------------------------ *)
(** ** Looking a tag up in a vector *)

Lemma at_index_In (tags : list Tag) (i : Z) :
  0 <= i < len tags -> In (at_index tags i) tags.
Proof. intros H. unfold at_index, len in *. apply nth_In. lia. Qed.

Lemma In_at_index (tags : list Tag) (t : Tag) :
  In t tags -> exists i, 0 <= i < len tags /\ at_index tags i = t.
Proof.
  intros H. destruct (In_nth _ _ zeroTag H) as (k & Hk & Ek).
  exists (Z.of_nat k). unfold at_index, len. rewrite Nat2Z.id. split; [lia | exact Ek].
Qed.

(** What [find] returns is a tag of the vector with the id asked for,
    whatever the order of the vector. *)
Lemma find_Some_In (tags : list Tag) (id : Z) (t : Tag) :
  find tags id = Some t -> In t tags /\ Id t = id.
Proof.
  unfold find. set (x := Search _ _).
  pose proof (Search_bounds (fun i => id <=? Id (at_index tags i)) (len_nonneg tags)) as Hx.
  fold x in Hx.
  destruct (Z.leb_spec (len tags) x) as [Hge|Hlt]; cbn [orb]; [discriminate|].
  destruct (Z.eqb_spec (Id (at_index tags x)) id) as [E|E]; cbn [negb]; [|discriminate].
  intros [= <-]. split; [apply at_index_In; lia | exact E].
Qed.

Lemma contains_iff (tags : list Tag) (id : Z) :
  contains tags id <-> exists t, In t tags /\ Id t = id.
Proof.
  unfold contains, containsb. rewrite existsb_exists.
  split; intros (t & Hin & E); exists t; split; auto; apply Z.eqb_eq; exact E.
Qed.

Lemma find_absent (tags : list Tag) (id : Z) :
  ~ contains tags id -> find tags id = None.
Proof.
  intros H. destruct (find tags id) as [t|] eqn:E; [|reflexivity].
  exfalso. apply H. apply contains_iff. exists t. apply find_Some_In. exact E.
Qed.

Lemma increasingb_nth (l : list Z) :
  increasingb l = true ->
  forall a b, (a < b < List.length l)%nat -> nth a l 0 < nth b l 0.
Proof.
  induction l as [|x l IH]; intros Hs a b Hab; [cbn in Hab; lia|].
  assert (Htail : increasingb l = true).
  { destruct l; [reflexivity|]. cbn [increasingb] in Hs.
    apply andb_true_iff in Hs. tauto. }
  assert (Hhead : forall k, (k < List.length l)%nat -> x < nth k l 0).
  { intros k Hk. destruct l as [|y l]; [cbn in Hk; lia|].
    cbn [increasingb] in Hs. apply andb_true_iff in Hs. destruct Hs as [Hxy _].
    apply Z.ltb_lt in Hxy.
    destruct k as [|k]; [exact Hxy|].
    specialize (IH Htail 0%nat (S k)). cbn [nth] in IH |- *.
    cbn [List.length] in Hk. specialize (IH ltac:(cbn [List.length]; lia)). lia. }
  cbn [List.length] in Hab.
  destruct b as [|b]; [lia|]. destruct a as [|a]; cbn [nth].
  - apply Hhead. lia.
  - apply IH; [exact Htail | lia].
Qed.

Lemma ascending_at_index (tags : list Tag) (a b : Z) :
  ascending tags -> 0 <= a < b -> b < len tags ->
  Id (at_index tags a) < Id (at_index tags b).
Proof.
  intros Hs Hab Hb. unfold ascending in Hs.
  pose proof (increasingb_nth _ Hs (a := Z.to_nat a) (b := Z.to_nat b)) as H.
  rewrite length_map in H. unfold len in Hb. specialize (H ltac:(lia)).
  unfold at_index.
  rewrite <- (map_nth Id tags zeroTag (Z.to_nat a)).
  rewrite <- (map_nth Id tags zeroTag (Z.to_nat b)). exact H.
Qed.

(** In a vector with strictly increasing ids the binary search finds every
    tag that is there. *)
Lemma find_ascending (tags : list Tag) (t : Tag) :
  ascending tags -> In t tags -> find tags (Id t) = Some t.
Proof.
  intros Hs Hin. destruct (In_at_index _ _ Hin) as (k & Hk & Ek).
  pose proof (len_nonneg tags) as Hn.
  pose proof (@Search_least (len tags) (fun i => Id t <=? Id (at_index tags i))) as HS.
  cbv zeta in HS. unfold find. set (x := Search _ _) in *.
  destruct HS as (Hx & Hlo & Hhi); [| exact Hn |].
  { intros a b Hab Hb Ha. apply Z.leb_le in Ha. apply Z.leb_le.
    destruct (Z.eq_dec a b) as [ -> | Hne]; [exact Ha|].
    pose proof (@ascending_at_index tags a b Hs ltac:(lia) Hb). lia. }
  assert (Hxk : x = k).
  { destruct (Z.lt_trichotomy x k) as [Hlt|[Heq|Hgt]]; [|exact Heq|].
    - specialize (Hhi x ltac:(lia)). apply Z.leb_le in Hhi.
      pose proof (@ascending_at_index tags x k Hs ltac:(lia) ltac:(lia)).
      rewrite Ek in *. lia.
    - specialize (Hlo k ltac:(lia)). rewrite Ek in Hlo.
      apply Z.leb_gt in Hlo. lia. }
  rewrite Hxk, Ek.
  destruct (Z.leb_spec (len tags) k); [lia|].
  rewrite Z.eqb_refl. reflexivity.
Qed.

Lemma find_iff (tags : list Tag) (id : Z) :
  ascending tags ->
  (contains tags id <-> exists t, find tags id = Some t).
Proof.
  intros Hs. rewrite contains_iff. split.
  - intros (t & Hin & <-). exists t. apply find_ascending; assumption.
  - intros (t & E). exists t. apply find_Some_In. exact E.
Qed.

Lemma Has_find (f : File) (id : Z) :
  FileM.Has f id = match find (tiff f) id with Some _ => true | None => false end.
Proof.
  unfold FileM.Has, find. set (x := Search _ _).
  destruct (Z.ltb_spec x (len (tiff f))), (Z.leb_spec (len (tiff f)) x); try lia;
    cbn [andb orb]; [|reflexivity].
  destruct (Id (at_index (tiff f) x) =? id); reflexivity.
Qed.

Lemma Has_true_contains (f : File) (id : Z) :
  FileM.Has f id = true -> contains (tiff f) id.
Proof.
  rewrite Has_find. destruct (find (tiff f) id) as [t|] eqn:E; [|discriminate].
  intros _. apply contains_iff. exists t. apply find_Some_In. exact E.
Qed.

Lemma Has_iff (f : File) (id : Z) :
  ascending (tiff f) -> (FileM.Has f id = true <-> contains (tiff f) id).
Proof.
  intros Hs. rewrite Has_find, (find_iff id Hs).
  destruct (find (tiff f) id) as [t|]; split; intros H; try discriminate; eauto.
  destruct H as (t & E). discriminate.
Qed.

Lemma get_find (f : File) (id : Z) :
  FileM.get f id = match find (tiff f) id with Some t => Ok t | None => Err ErrExist end.
Proof. reflexivity. Qed.

(* ------------------------------------------------------------------ *)
(** ** Files without a Photometric tag *)

Lemma IsJpeg_contains (f : File) :
  FileM.IsJpeg f = true ->
  contains (tiff f) JpegFromRawStart /\ contains (tiff f) JpegFromRawLength.
Proof.
  unfold FileM.IsJpeg. intros H. apply andb_true_iff in H. destruct H.
  split; apply Has_true_contains; assumption.
Qed.

Lemma IsRaw_contains (f : File) :
  FileM.IsRaw f = true ->
  contains (tiff f) StripOffsets /\ contains (tiff f) RowsPerStrip /\
  contains (tiff f) StripByteCounts.
Proof.
  unfold FileM.IsRaw. intros H. apply andb_true_iff in H. destruct H as [H H3].
  apply andb_true_iff in H. destruct H.
  repeat split; apply Has_true_contains; assumption.
Qed.

(** C10.  A File whose TIFF tags hold no Photometric tag (0x106) reports
    supported and the image type "jpeg"; this is so also when it has neither
    the embedded-JPEG tags nor the raw-strip tags, where the image accessor
    fails with NoImage. *)
Theorem no_photometric_reports_jpeg (f : File) :
  containsb (tiff f) Photometric = false ->
  FileM.IsSupported f = Ok true /\
  FileM.ImageType f = Ok "jpeg"%string /\
  (forall dec,
      containsb (tiff f) JpegFromRawStart && containsb (tiff f) JpegFromRawLength
        = false ->
      containsb (tiff f) StripOffsets && containsb (tiff f) RowsPerStrip
        && containsb (tiff f) StripByteCounts = false ->
      ImageOf dec f = Err ErrImage /\ kind ErrImage = NoImage).
Proof.
  intros Hno.
  assert (Hfind : find (tiff f) Photometric = None).
  { apply find_absent. unfold contains. rewrite Hno. discriminate. }
  unfold FileM.IsSupported, FileM.ImageType. rewrite get_find, Hfind.
  repeat split.
  unfold ImageOf.
  destruct (FileM.IsJpeg f) eqn:Ej.
  { apply IsJpeg_contains in Ej. destruct Ej as [E1 E2].
    unfold contains in E1, E2. rewrite E1, E2 in H. discriminate. }
  destruct (FileM.IsRaw f) eqn:Er; [|reflexivity].
  apply IsRaw_contains in Er. destruct Er as (E1 & E2 & E3).
  unfold contains in E1, E2, E3. rewrite E1, E2, E3 in H0. discriminate.
Qed.

Lemma no_photometric_reports_jpeg_witness :
  FileM.IsSupported gps_sample = Ok true /\
  FileM.ImageType gps_sample = Ok "jpeg"%string /\
  (forall dec, ImageOf dec gps_sample = Err ErrImage /\ kind ErrImage = NoImage).
Proof.
  destruct (@no_photometric_reports_jpeg gps_sample) as (H1 & H2 & H3).
  - vm_compute. reflexivity.
  - split; [exact H1|]. split; [exact H2|].
    intros dec. apply H3; vm_compute; reflexivity.
Defined.

(* ------------------------------------------------------------------ *)
(** ** GetTag *)

(** In the families that [GetTag] searches, a tag is found exactly when it
    is in the (sorted) vector of the family. *)
Lemma GetTag_searched (f : File) (id fam : Z) :
  fam = Tiff \/ fam = Nef \/ fam = Exif \/ fam = Note ->
  ascending (FileM.TagsFor f fam) ->
  (forall t, In t (FileM.TagsFor f fam) -> Id t = id -> FileM.GetTag f id fam = Ok t) /\
  (~ contains (FileM.TagsFor f fam) id -> FileM.GetTag f id fam = Err ErrExist).
Proof.
  intros Hfam Hs.
  assert (E : FileM.GetTag f id fam =
              match find (FileM.TagsFor f fam) id with
              | Some t => Ok t
              | None => Err ErrExist
              end).
  { destruct Hfam as [ -> | [ -> | [ -> | -> ] ] ]; reflexivity. }
  rewrite E. split.
  - intros t Hin <-. rewrite (find_ascending _ Hs Hin). reflexivity.
  - intros Hno. rewrite (find_absent Hno). reflexivity.
Qed.

(** C9.  [GetTag] has no case for the GPS family: a lookup there fails with
    NotFound whatever the GPS vector holds, while [TagsFor] returns that
    vector.  The file decoded from [gps_file] has the tag 0x0000 in its GPS
    vector and [GetTag] does not find it. *)
Theorem GetTag_gps_not_searched :
  (forall f id, FileM.GetTag f id Gps = Err ErrExist /\
                FileM.TagsFor f Gps = gps f) /\
  decoded gps_file = [gps_sample] /\
  contains (gps gps_sample) 0 /\
  ascending (gps gps_sample) /\
  FileM.GetTag gps_sample 0 Gps = Err ErrExist.
Proof.
  split; [intros f id; split; reflexivity|].
  vm_compute. repeat split; reflexivity.
Qed.

(* ------------------------------------------------------------------ *)
(** ** Values of Undefined tags *)

Lemma Values_not_bypass (t : Tag) :
  Id t <> Xmp -> Id t <> Comment ->
  (Id t =? Xmp) || (Id t =? Comment) = false.
Proof.
  intros H1 H2. apply orb_false_iff. split; apply Z.eqb_neq; assumption.
Qed.

Section ValuesOfUndefined.
Variable FormatFloat32 FormatFloat64 : Z -> string.

(** C8, as the code has it.  For an Undefined tag that is not one of the
    bypass ids, [Values] returns no value and no error; the error
    UnsupportedType is kept for type codes outside the twelve Formats. *)
Theorem Values_Undef_empty (t : Tag) :
  Id t <> Xmp -> Id t <> Comment ->
  (Typ t = Format.Undef -> Values FormatFloat32 FormatFloat64 t = Ok []) /\
  (~ 1 <= Typ t <= 12 ->
   Values FormatFloat32 FormatFloat64 t = Err ErrFormat /\
   kind ErrFormat = UnsupportedType).
Proof.
  intros H1 H2. unfold Values. rewrite (Values_not_bypass _ H1 H2). split.
  - intros ->. reflexivity.
  - intros Hty. split; [|reflexivity].
    unfold Format.String, Format.Long, Format.SLong, Format.Short, Format.SShort,
      Format.Byte, Format.SByte, Format.Undef, Format.Rational, Format.SRational,
      Format.Float, Format.Double.
    repeat match goal with
           | |- context [?a =? ?b] => destruct (Z.eqb_spec a b); [lia|]
           end.
    reflexivity.
Qed.
End ValuesOfUndefined.

Lemma Values_Undef_empty_witness :
  Values noFloat noFloat exifVersion = Ok [].
Proof.
  apply (@Values_Undef_empty noFloat noFloat exifVersion); vm_compute; congruence.
Defined.

(** C8, as stated, fails: ExifVersion is an Undefined tag whose id is not a
    bypass id, and [Values] does not fail on it. *)
Lemma Values_Undef_no_error :
  Typ exifVersion = Format.Undef /\
  Id exifVersion <> Xmp /\ Id exifVersion <> Comment /\
  ~ (exists e, Values noFloat noFloat exifVersion = Err e /\ kind e = UnsupportedType).
Proof.
  repeat split; try (vm_compute; congruence).
  intros (e & H & _). vm_compute in H. discriminate.
Qed.

(* ------------------------------------------------------------------ *)
(** ** Sequential reads of a payload *)

Lemma ReadFull_ok (s : list byte) (p w : Z) :
  0 < w -> 0 <= p -> p + w <= len s ->
  ReadFull w (mkReader s p) = (Ok (slice s p w), mkReader s (p + w)).
Proof.
  intros Hw Hp Hlen. unfold ReadFull. cbn [buf pos].
  destruct (Z.leb_spec w 0); [lia|].
  destruct (Z.leb_spec (len s) p); [lia|].
  destruct (Z.ltb_spec (len s - p) w); [lia|]. reflexivity.
Qed.

Lemma read_elem (o : ByteOrder) (s : list byte) (p w : Z) :
  0 < w -> 0 <= p -> p + w <= len s ->
  or_zero (binary_Read_opt w (Some o)) (mkReader s p)
  = (Ok (get_uint o (slice s p w)), mkReader s (p + w)).
Proof.
  intros. unfold or_zero, binary_Read_opt. rewrite ReadFull_ok by assumption.
  reflexivity.
Qed.

Lemma zseq_length (i : Z) (n : nat) : List.length (zseq i n) = n.
Proof. revert i; induction n; intros; cbn; auto. Qed.


Section RationalValues.
Variable FormatFloat32 FormatFloat64 : Z -> string.

End RationalValues.


(* ------------------------------------------------------------------ *)
(** ** Classification of the image encoding *)

Section Classification.
Variable image_Decode : list byte -> result Image.

(** C5.  With the TIFF tags in increasing order of id, as [readTags] leaves
    them: a File is an embedded JPEG exactly when its TIFF tags hold 0x201
    and 0x202, and raw striped exactly when they hold 0x111, 0x116 and
    0x117; with neither set both accessors fail with NoImage; with the JPEG
    set both accessors take the embedded-JPEG path, whatever else is
    there. *)
Theorem image_classification (f : File) :
  ascending (tiff f) ->
  (FileM.IsJpeg f = true <->
   contains (tiff f) 0x201 /\ contains (tiff f) 0x202) /\
  (FileM.IsRaw f = true <->
   contains (tiff f) 0x111 /\ contains (tiff f) 0x116 /\ contains (tiff f) 0x117) /\
  (FileM.IsJpeg f = false -> FileM.IsRaw f = false ->
   ImageOf image_Decode f = Err ErrImage /\ FileM.Bytes f = Err ErrImage /\
   kind ErrImage = NoImage) /\
  (FileM.IsJpeg f = true ->
   ImageOf image_Decode f = (let? raw := FileM.processJpeg f in image_Decode raw) /\
   FileM.Bytes f = FileM.processJpeg f).
Proof.
  intros Hs. repeat apply conj.
  - intros H. apply IsJpeg_contains in H. exact H.
  - intros [H1 H2]. unfold FileM.IsJpeg.
    unfold JpegFromRawStart, JpegFromRawLength.
    rewrite (proj2 (@Has_iff f _ Hs) H1), (proj2 (@Has_iff f _ Hs) H2). reflexivity.
  - intros H. apply IsRaw_contains in H. exact H.
  - intros (H1 & H2 & H3). unfold FileM.IsRaw.
    unfold StripOffsets, RowsPerStrip, StripByteCounts.
    rewrite (proj2 (@Has_iff f _ Hs) H1), (proj2 (@Has_iff f _ Hs) H2),
      (proj2 (@Has_iff f _ Hs) H3). reflexivity.
  - intros Hj Hr. unfold ImageOf, FileM.Bytes. rewrite Hj, Hr.
    repeat split.
  - intros Hj. unfold ImageOf, decodeJpeg, FileM.Bytes. rewrite Hj.
    split; reflexivity.
Qed.
End Classification.

Lemma image_classification_witness :
  FileM.IsJpeg both_sample = true /\ FileM.IsRaw both_sample = true /\
  ImageOf keepBytes both_sample = Ok (ImgDecoded 0 0 [xff; xd8; xff]) /\
  FileM.Bytes both_sample = Ok [xff; xd8; xff].
Proof.
  destruct (@image_classification keepBytes both_sample) as (H1 & H2 & _ & H4).
  - vm_compute. reflexivity.
  - assert (Hj : FileM.IsJpeg both_sample = true).
    { apply H1. split; vm_compute; reflexivity. }
    assert (Hr : FileM.IsRaw both_sample = true).
    { apply H2. repeat split; vm_compute; reflexivity. }
    destruct (H4 Hj) as [Hi Hb]. rewrite Hi, Hb.
    repeat split; try assumption; vm_compute; reflexivity.
Defined.

(* ------------------------------------------------------------------ *)
(** ** readTags: what a decoded directory looks like *)

Lemma increasingb_snoc (l : list Z) (x : Z) :
  increasingb l = true -> (l = [] \/ last l 0 < x) ->
  increasingb (l ++ [x]) = true.
Proof.
  induction l as [|a l IH]; intros Hs Hl; [reflexivity|].
  destruct Hl as [Hl|Hl]; [discriminate|].
  destruct l as [|b l].
  - cbn in *. apply andb_true_iff. split; [apply Z.ltb_lt; exact Hl | reflexivity].
  - change ((a :: b :: l) ++ [x]) with (a :: (b :: l) ++ [x]).
    cbn [increasingb] in Hs. apply andb_true_iff in Hs. destruct Hs as [Hab Hs].
    change ((b :: l) ++ [x]) with (b :: l ++ [x]) in *.
    cbn [increasingb]. apply andb_true_iff. split; [exact Hab|].
    apply IH; [exact Hs|]. right. exact Hl.
Qed.

Lemma last_map_Id (tags : list Tag) :
  tags <> [] -> last (map Id tags) 0 = Id (last tags zeroTag).
Proof.
  induction tags as [|t tags IH]; intros Hne; [congruence|].
  destruct tags as [|t' tags]; [reflexivity|].
  change (last (Id t :: map Id (t' :: tags)) 0) with (last (map Id (t' :: tags)) 0).
  change (last (t :: t' :: tags) zeroTag) with (last (t' :: tags) zeroTag).
  apply IH. discriminate.
Qed.

Lemma ascending_snoc (tags : list Tag) (t : Tag) :
  ascending tags -> (tags = [] \/ Id (last tags zeroTag) < Id t) ->
  ascending (tags ++ [t]).
Proof.
  unfold ascending. intros Hs Hl. rewrite map_app. cbn [map].
  apply increasingb_snoc; [exact Hs|].
  destruct Hl as [->|Hl]; [left; reflexivity|].
  destruct tags as [|t0 tags]; [left; reflexivity|].
  right. rewrite last_map_Id by discriminate. exact Hl.
Qed.

(** What one round of the loop adds, when it succeeds: the descriptor's
    fields, the rebased offset, and the raw bytes by the size test. *)
Lemma decodeEntry_Ok (s : list byte) (o : ByteOrder) (delta fam : Z)
      (tags tags' : list Tag) (g : list byte) :
  decodeEntry s o delta fam tags g = Ok tags' ->
  exists raw,
    let t := mkTag (descId o g) (descType o g) (descCount o g)
                   (add32 (descValue o g) delta) raw fam (Some o) in
    tags' = tags ++ [t] /\
    (tags = [] \/ Id (last tags zeroTag) < descId o g) /\
    descCount o g <> 0xFFFFFFFF /\
    (if 4 <? descSize o g
     then SectionReadFull s (add32 (descValue o g) delta) (descSize o g) = Ok raw
     else raw = PutUint32 o (add32 (descValue o g) delta)).
Proof.
  unfold decodeEntry, descSize, descId, descType, descCount, descValue.
  intros H.
  assert (Hsorted : tags = [] \/ Id (last tags zeroTag) < get_uint o (slice g 0 2)).
  { destruct tags as [|t0 tags]; [left; reflexivity|].
    destruct (Z.leb_spec (get_uint o (slice g 0 2)) (Id (last (t0 :: tags) zeroTag)));
      [discriminate | right; lia]. }
  destruct (match tags with [] => false | _ :: _ => _ end); [discriminate|].
  destruct (Z.eqb_spec (get_uint o (slice g 4 4)) (2 ^ 32 - 1)) as [E|E];
    [discriminate|].
  destruct (4 <? Format.Size (get_uint o (slice g 2 2)) * get_uint o (slice g 4 4)).
  - destruct (SectionReadFull s _ _) as [raw| |] eqn:Er; cbn [rbind] in H;
      try discriminate.
    exists raw. injection H as <-. repeat split; auto.
  - exists (PutUint32 o (add32 (get_uint o (slice g 8 4)) delta)).
    injection H as <-. repeat split; auto.
Qed.

Lemma SectionReadFull_Ok (s : list byte) (off n : Z) (raw : list byte) :
  0 <= off -> 0 < n ->
  SectionReadFull s off n = Ok raw ->
  off + n <= len s /\ raw = slice s off n /\ len raw = n.
Proof.
  intros Ho Hn. unfold SectionReadFull.
  destruct (Z.leb_spec n 0); [lia|].
  destruct (Z.leb_spec (len s) off); [discriminate|].
  destruct (Z.ltb_spec (len s - off) n); [discriminate|].
  intros [= <-]. repeat split; [lia|]. apply slice_length; lia.
Qed.

Lemma SectionReadFull_present (s : list byte) (off n : Z) :
  0 <= off -> 0 < n -> off + n <= len s ->
  SectionReadFull s off n = Ok (slice s off n).
Proof.
  intros Ho Hn Hlen. unfold SectionReadFull.
  destruct (Z.leb_spec n 0); [lia|].
  destruct (Z.leb_spec (len s) off); [lia|].
  destruct (Z.ltb_spec (len s - off) n); [lia|]. reflexivity.
Qed.

Lemma SectionReadFull_cases (s : list byte) (off n : Z) :
  (exists raw, SectionReadFull s off n = Ok raw) \/
  SectionReadFull s off n = Err EOF \/
  SectionReadFull s off n = Err ErrUnexpectedEOF.
Proof.
  unfold SectionReadFull.
  destruct (n <=? 0); [left; eauto|].
  destruct (len s <=? off); [right; left; reflexivity|].
  destruct (len s - off <? n); [right; right; reflexivity | left; eauto].
Qed.

Lemma add32_range (a b : Z) : 0 <= add32 a b < 2 ^ 32.
Proof. unfold add32. apply Z.mod_pos_bound. lia. Qed.

Lemma decodeEntry_directory_ok (s : list byte) (o : ByteOrder) (delta fam : Z)
      (tags tags' : list Tag) (g : list byte) :
  directory_ok tags -> decodeEntry s o delta fam tags g = Ok tags' ->
  directory_ok tags'.
Proof.
  intros [Hs Hc] H. apply decodeEntry_Ok in H.
  destruct H as (raw & -> & Hlast & Hcount & _). split.
  - apply ascending_snoc; assumption.
  - apply Forall_app. split; [exact Hc|]. constructor; [exact Hcount | constructor].
Qed.

Lemma readEntries_directory_ok (n : nat) (o : ByteOrder) (delta fam : Z)
      (tags tags' : list Tag) (r r' : Reader) :
  directory_ok tags ->
  readEntries n o delta fam tags r = (Ok tags', r') ->
  directory_ok tags'.
Proof.
  revert tags r; induction n as [|n IH]; intros tags r Hok H.
  - cbn in H. unfold ret in H. injection H as <- _. exact Hok.
  - cbn [readEntries] in H. unfold bind at 1 in H.
    unfold readEntry at 1 in H. unfold bind at 1 in H.
    destruct (ReadFull 12 r) as [[g| |] r1]; try discriminate.
    destruct (decodeEntry (buf r1) o delta fam tags g) as [tags1| |] eqn:E;
      try discriminate.
    eapply IH; [|exact H]. eapply decodeEntry_directory_ok; eauto.
Qed.

Lemma readTags_directory_ok (o : ByteOrder) (at_ delta fam : Z)
      (tags : list Tag) (r r' : Reader) :
  readTags o at_ delta fam r = (Ok tags, r') -> directory_ok tags.
Proof.
  unfold readTags. unfold bind at 1. cbn [SeekStart]. unfold bind at 1.
  destruct (binary_Read 2 o _) as [[count| |] r1]; try discriminate.
  apply readEntries_directory_ok. split; [reflexivity | constructor].
Qed.

(* ------------------------------------------------------------------ *)
(** ** readTags: directories that are refused *)

Lemma decodeEntry_eq (s : list byte) (o : ByteOrder) (delta fam : Z)
      (tags : list Tag) (g : list byte) :
  decodeEntry s o delta fam tags g =
  if match lastId tags with Some p => descId o g <=? p | None => false end
  then Err ErrNotSorted
  else if descCount o g =? 0xFFFFFFFF then Err ErrInvalidCount
  else if 4 <? descSize o g then
    let? raw := SectionReadFull s (add32 (descValue o g) delta) (descSize o g) in
    Ok (tags ++ [mkTag (descId o g) (descType o g) (descCount o g)
                       (add32 (descValue o g) delta) raw fam (Some o)])
  else
    Ok (tags ++ [mkTag (descId o g) (descType o g) (descCount o g)
                       (add32 (descValue o g) delta)
                       (PutUint32 o (add32 (descValue o g) delta)) fam (Some o)]).
Proof. destruct tags; reflexivity. Qed.

Lemma lastId_snoc (tags : list Tag) (t : Tag) : lastId (tags ++ [t]) = Some (Id t).
Proof.
  unfold lastId. rewrite last_last. destruct tags; reflexivity.
Qed.

Lemma zseq_succ (i : Z) (n : nat) : zseq (i + 1) n = map Z.succ (zseq i n).
Proof.
  revert i; induction n as [|n IH]; intros i; [reflexivity|].
  cbn [zseq map]. rewrite IH. reflexivity.
Qed.

(** With its descriptors in the buffer, the loop of [readTags] is the pure
    loop over them. *)
Lemma readEntries_descriptors (s : list byte) (o : ByteOrder) (delta fam : Z)
      (p0 : Z) (n : nat) (i : Z) (tags : list Tag) :
  0 <= p0 -> 0 <= i -> p0 + 12 * (i + Z.of_nat n) <= len s ->
  fst (readEntries n o delta fam tags (mkReader s (p0 + 12 * i)))
  = decodeEntries s o delta fam
      (map (fun k => slice s (p0 + 12 * k) 12) (zseq i n)) tags.
Proof.
  revert i tags; induction n as [|n IH]; intros i tags Hp Hi Hlen.
  - reflexivity.
  - cbn [readEntries zseq map decodeEntries]. unfold bind at 1.
    unfold readEntry at 1. unfold bind at 1.
    rewrite ReadFull_ok by lia. cbn [buf].
    destruct (decodeEntry s o delta fam tags (slice s (p0 + 12 * i) 12))
      as [tags1| |]; cbn [rbind fst]; try reflexivity.
    replace (p0 + 12 * i + 12) with (p0 + 12 * (i + 1)) by lia.
    apply IH; lia.
Qed.

Lemma binary_Read_ok (o : ByteOrder) (s : list byte) (p w : Z) :
  0 < w -> 0 <= p -> p + w <= len s ->
  binary_Read w o (mkReader s p) = (Ok (get_uint o (slice s p w)), mkReader s (p + w)).
Proof.
  intros. unfold binary_Read. rewrite ReadFull_ok by assumption. reflexivity.
Qed.

Lemma readTags_descriptors (o : ByteOrder) (at_ delta fam : Z) (r : Reader) :
  let n := get_uint o (slice (buf r) at_ 2) in
  0 <= at_ -> at_ + 2 + 12 * n <= len (buf r) ->
  fst (readTags o at_ delta fam r)
  = decodeEntries (buf r) o delta fam
      (descriptors (buf r) (at_ + 2) (Z.to_nat n)) [].
Proof.
  intros n Hat Hlen.
  assert (Hn : 0 <= n) by apply get_uint_range.
  unfold readTags. unfold bind at 1. cbn [SeekStart]. unfold bind at 1.
  rewrite binary_Read_ok by lia. fold n.
  pose proof (@readEntries_descriptors (buf r) o delta fam (at_ + 2) (Z.to_nat n) 0 [])
    as H.
  rewrite Z.mul_0_r, Z.add_0_r in H. apply H; lia.
Qed.

Lemma firstViolation_violates (o : ByteOrder) (prev : option Z) (ds : list (list byte)) :
  violates o prev ds = true <-> exists k, firstViolation o prev ds = Some k.
Proof.
  revert prev; induction ds as [|g ds IH]; intros prev; cbn [violates firstViolation].
  - split; [discriminate | intros [k Hk]; discriminate].
  - destruct (match prev with Some p => descId o g <=? p | None => false end
              || (descCount o g =? 0xFFFFFFFF)) eqn:E.
    + cbn [orb]. split; eauto.
    + cbn [orb]. rewrite IH. split; intros [k Hk].
      * rewrite Hk. eexists; reflexivity.
      * destruct (firstViolation o (Some (descId o g)) ds) as [k'|]; [eauto | discriminate].
Qed.

(** The first violation is a violation, and no descriptor before it is
    one. *)
Lemma firstViolation_first (o : ByteOrder) (prev : option Z) (ds : list (list byte))
      (k : nat) :
  firstViolation o prev ds = Some k ->
  (k < List.length ds)%nat /\
  violates o prev (firstn k ds) = false /\
  violates o prev (firstn (S k) ds) = true.
Proof.
  revert prev k; induction ds as [|g ds IH]; intros prev k; cbn [firstViolation];
    [discriminate|].
  destruct (match prev with Some p => descId o g <=? p | None => false end
            || (descCount o g =? 0xFFFFFFFF)) eqn:E.
  - intros [= <-]. cbn [firstn violates List.length]. rewrite E. cbn [orb].
    repeat split; lia.
  - destruct (firstViolation o (Some (descId o g)) ds) as [k'|] eqn:Ek; [|discriminate].
    intros [= <-]. destruct (IH _ _ Ek) as (Hl & Hn & Hv).
    cbn [List.length]. split; [lia|].
    rewrite !firstn_cons. cbn [violates]. rewrite E, Hn, Hv. cbn [orb].
    split; reflexivity.
Qed.

Lemma ReadFull_short (s : list byte) (p w : Z) :
  0 < w -> 0 <= p -> len s < p + w ->
  exists e r', ReadFull w (mkReader s p) = (Err e, r') /\ kind e = Truncated.
Proof.
  intros Hw Hp Hlen. unfold ReadFull. cbn [buf pos].
  destruct (Z.leb_spec w 0); [lia|].
  destruct (Z.leb_spec (len s) p); [eexists; eexists; split; reflexivity|].
  destruct (Z.ltb_spec (len s - p) w); [|lia].
  eexists; eexists; split; reflexivity.
Qed.

(** The loop of [readTags] on a directory with a descriptor out of order,
    or with the sentinel count: it stops at the first such descriptor with
    the error of a corrupt directory, unless a descriptor up to this one or
    a payload before it is not in the buffer, which stops it earlier with
    the error of a short read. *)
Lemma readEntries_violation (s : list byte) (o : ByteOrder) (delta fam : Z)
      (p0 : Z) (n : nat) (i : Z) (tags : list Tag) (k : nat) :
  0 <= p0 -> 0 <= i ->
  firstViolation o (lastId tags)
    (map (fun j => slice s (p0 + 12 * j) 12) (zseq i n)) = Some k ->
  exists e,
    fst (readEntries n o delta fam tags (mkReader s (p0 + 12 * i))) = Err e /\
    (kind e = DirectoryCorrupt \/ kind e = Truncated) /\
    (kind e = DirectoryCorrupt <->
     p0 + 12 * (i + Z.of_nat k + 1) <= len s /\
     payloads_present s o delta
       (firstn k (map (fun j => slice s (p0 + 12 * j) 12) (zseq i n))) = true).
Proof.
  revert i tags k; induction n as [|n IH]; intros i tags k Hp Hi Hk; [discriminate|].
  cbn [zseq map firstViolation] in Hk.
  cbn [readEntries zseq map]. unfold bind at 1. unfold readEntry at 1. unfold bind at 1.
  destruct (Z.le_gt_cases (p0 + 12 * i + 12) (len s)) as [Hin|Hout].
  - rewrite ReadFull_ok by lia. cbn [buf]. rewrite decodeEntry_eq.
    set (g := slice s (p0 + 12 * i) 12) in *.
    destruct (match lastId tags with Some p => descId o g <=? p | None => false end) eqn:Eid.
    { cbn [orb] in Hk. injection Hk as <-. exists ErrNotSorted.
      split; [reflexivity|]. split; [left; reflexivity|].
      split; [intros _; split; [lia | reflexivity] | reflexivity]. }
    destruct (descCount o g =? 0xFFFFFFFF) eqn:Ecnt.
    { cbn [orb] in Hk. injection Hk as <-. exists ErrInvalidCount.
      split; [reflexivity|]. split; [left; reflexivity|].
      split; [intros _; split; [lia | reflexivity] | reflexivity]. }
    cbn [orb] in Hk.
    destruct (firstViolation o (Some (descId o g)) _) as [k'|] eqn:Ek; [|discriminate].
    injection Hk as <-.
    rewrite firstn_cons. unfold payloads_present. cbn [forallb].
    fold (payloads_present s o delta).
    pose proof (add32_range (descValue o g) delta) as Hoff.
    destruct (Z.ltb_spec 4 (descSize o g)) as [Hz|Hz].
    + destruct (Z.leb_spec (descSize o g) 4) as [?|_]; [lia|]. cbn [orb].
      destruct (Z.leb_spec (add32 (descValue o g) delta + descSize o g) (len s))
        as [Hpay|Hpay].
      * rewrite SectionReadFull_present by lia. cbn [rbind andb].
        replace (p0 + 12 * i + 12) with (p0 + 12 * (i + 1)) by lia.
        destruct (IH (i + 1)
                    (tags ++ [mkTag (descId o g) (descType o g) (descCount o g)
                                    (add32 (descValue o g) delta)
                                    (slice s (add32 (descValue o g) delta) (descSize o g))
                                    fam (Some o)]) k' Hp ltac:(lia))
          as (e & He & Hkind & Hiff).
        { rewrite lastId_snoc. exact Ek. }
        exists e. split; [exact He|]. split; [exact Hkind|].
        rewrite Hiff.
        replace (i + 1 + Z.of_nat k' + 1) with (i + Z.of_nat (S k') + 1) by lia.
        reflexivity.
      * cbn [andb].
        destruct (SectionReadFull_cases s (add32 (descValue o g) delta) (descSize o g))
          as [(raw & E)|[E|E]].
        { apply SectionReadFull_Ok in E; lia. }
        { rewrite E. exists EOF. split; [reflexivity|]. split; [right; reflexivity|].
          split; [discriminate | intros [_ ?]; discriminate]. }
        { rewrite E. exists ErrUnexpectedEOF. split; [reflexivity|].
          split; [right; reflexivity|].
          split; [discriminate | intros [_ ?]; discriminate]. }
    + destruct (Z.leb_spec (descSize o g) 4) as [_|?]; [|lia]. cbn [orb andb rbind].
      replace (p0 + 12 * i + 12) with (p0 + 12 * (i + 1)) by lia.
      destruct (IH (i + 1)
                  (tags ++ [mkTag (descId o g) (descType o g) (descCount o g)
                                  (add32 (descValue o g) delta)
                                  (PutUint32 o (add32 (descValue o g) delta))
                                  fam (Some o)]) k' Hp ltac:(lia))
        as (e & He & Hkind & Hiff).
      { rewrite lastId_snoc. exact Ek. }
      exists e. split; [exact He|]. split; [exact Hkind|].
      rewrite Hiff.
      replace (i + 1 + Z.of_nat k' + 1) with (i + Z.of_nat (S k') + 1) by lia.
      reflexivity.
  - destruct (@ReadFull_short s (p0 + 12 * i) 12) as (e & r' & E & Hkind); try lia.
    rewrite E. exists e. split; [reflexivity|]. split; [right; exact Hkind|].
    split.
    + intros Hc. rewrite Hkind in Hc. discriminate.
    + intros [Hl _]. lia.
Qed.

(** C2, as the code has it.  A directory that [readTags] decodes has its
    tag ids strictly increasing in file order and no count 0xFFFFFFFF.  When
    the count of a directory is in the buffer and one of its descriptors has
    an id not above the id before it, or the sentinel count, [readTags]
    fails: with DirectoryCorrupt exactly when the descriptors up to the
    first such one, and the payloads of the descriptors before it, are in
    the buffer, and with Truncated otherwise. *)
Theorem readTags_increasing_or_refused (o : ByteOrder) (at_ delta fam : Z)
        (r : Reader) :
  (forall tags r',
      readTags o at_ delta fam r = (Ok tags, r') ->
      ascending tags /\ Forall (fun t => Count t <> 0xFFFFFFFF) tags) /\
  (let n := get_uint o (slice (buf r) at_ 2) in
   let ds := descriptors (buf r) (at_ + 2) (Z.to_nat n) in
   0 <= at_ -> at_ + 2 <= len (buf r) ->
   violates o None ds = true ->
   exists k e,
     firstViolation o None ds = Some k /\
     fst (readTags o at_ delta fam r) = Err e /\
     (kind e = DirectoryCorrupt \/ kind e = Truncated) /\
     (kind e = DirectoryCorrupt <->
      at_ + 2 + 12 * (Z.of_nat k + 1) <= len (buf r) /\
      payloads_present (buf r) o delta (firstn k ds) = true)).
Proof.
  split.
  - intros tags r' H. exact (readTags_directory_ok _ _ _ _ _ H).
  - intros n ds Hat Hlen Hv.
    apply firstViolation_violates in Hv. destruct Hv as [k Hk].
    exists k.
    pose proof (@readEntries_violation (buf r) o delta fam (at_ + 2) (Z.to_nat n) 0 [] k
                  ltac:(lia) ltac:(lia)) as H.
    rewrite Z.mul_0_r, Z.add_0_r in H. cbn [lastId] in H.
    destruct (H Hk) as (e & He & Hkind & Hiff).
    exists e. split; [exact Hk|].
    split.
    + unfold readTags. unfold bind at 1. cbn [SeekStart]. unfold bind at 1.
      rewrite binary_Read_ok by lia. exact He.
    + split; [exact Hkind|]. rewrite Hiff.
      replace (0 + Z.of_nat k + 1) with (Z.of_nat k + 1) by lia. reflexivity.
Qed.

Lemma readTags_increasing_or_refused_witness :
  (exists tags r',
      readTags LittleEndian 8 0 Tiff (mkReader both_file 0) = (Ok tags, r') /\
      map Id tags = [0x101; 0x111; 0x116; 0x117; 0x201; 0x202] /\
      ascending tags /\ Forall (fun t => Count t <> 0xFFFFFFFF) tags) /\
  (exists e,
      fst (readTags BigEndian 8 0 Tiff (mkReader (unsorted_file BigEndian) 0)) = Err e /\
      kind e = DirectoryCorrupt) /\
  (exists e,
      fst (readTags BigEndian 8 0 Tiff (mkReader (unsorted_tail_file BigEndian) 0)) = Err e /\
      kind e = DirectoryCorrupt) /\
  (exists e,
      fst (readTags BigEndian 8 0 Tiff (mkReader (unsorted_cut_file BigEndian) 0)) = Err e /\
      kind e = DirectoryCorrupt) /\
  (exists e,
      fst (readTags LittleEndian 8 0 Tiff (mkReader (unsorted_short_file LittleEndian) 0))
      = Err e /\
      kind e = Truncated).
Proof.
  split; [|split; [|split; [|split]]].
  - destruct (readTags LittleEndian 8 0 Tiff (mkReader both_file 0)) as [res r'] eqn:E.
    destruct res as [tags| |]; try (vm_compute in E; discriminate).
    exists tags, r'. split; [reflexivity|]. split.
    + vm_compute in E. injection E as <- _. reflexivity.
    + exact (proj1 (readTags_increasing_or_refused LittleEndian 8 0 Tiff
                      (mkReader both_file 0)) tags r' E).
  - destruct (proj2 (readTags_increasing_or_refused BigEndian 8 0 Tiff
                       (mkReader (unsorted_file BigEndian) 0)))
      as (k & e & Hk & He & _ & Hiff).
    + vm_compute. congruence.
    + vm_compute. congruence.
    + vm_compute. reflexivity.
    + exists e. split; [exact He|]. apply Hiff.
      vm_compute in Hk. injection Hk as <-. vm_compute. split; congruence.
  - destruct (proj2 (readTags_increasing_or_refused BigEndian 8 0 Tiff
                       (mkReader (unsorted_tail_file BigEndian) 0)))
      as (k & e & Hk & He & _ & Hiff).
    + vm_compute. congruence.
    + vm_compute. congruence.
    + vm_compute. reflexivity.
    + exists e. split; [exact He|]. apply Hiff.
      vm_compute in Hk. injection Hk as <-. vm_compute. split; congruence.
  - destruct (proj2 (readTags_increasing_or_refused BigEndian 8 0 Tiff
                       (mkReader (unsorted_cut_file BigEndian) 0)))
      as (k & e & Hk & He & _ & Hiff).
    + vm_compute. congruence.
    + vm_compute. congruence.
    + vm_compute. reflexivity.
    + exists e. split; [exact He|]. apply Hiff.
      vm_compute in Hk. injection Hk as <-. vm_compute. split; congruence.
  - destruct (proj2 (readTags_increasing_or_refused LittleEndian 8 0 Tiff
                       (mkReader (unsorted_short_file LittleEndian) 0)))
      as (k & e & Hk & He & [Hc|Ht] & Hiff).
    + vm_compute. congruence.
    + vm_compute. congruence.
    + vm_compute. reflexivity.
    + exfalso. apply Hiff in Hc. destruct Hc as [_ Hc].
      vm_compute in Hk. injection Hk as <-. vm_compute in Hc. discriminate.
    + exists e. split; [exact He | exact Ht].
Defined.

(** C2, as stated, fails: in [unsorted_short_file] the ids are 5, 2, 9, but
    the payload of the first tag is beyond the end of the buffer; the read
    of that payload fails first, and the directory is refused as truncated,
    not as corrupt. *)
Lemma unsorted_directory_refused_as_truncated :
  map (descId LittleEndian) (descriptors (unsorted_short_file LittleEndian) 10 3)
  = [5; 2; 9] /\
  fst (readTags LittleEndian 8 0 Tiff (mkReader (unsorted_short_file LittleEndian) 0))
  = Err EOF /\
  Decode 8 (unsorted_short_file LittleEndian) = Some (Err EOF) /\
  kind EOF <> DirectoryCorrupt.
Proof. vm_compute. repeat split; congruence. Qed.

(* ------------------------------------------------------------------ *)
(** ** readTags: where the raw bytes of a tag come from *)

(** The raw bytes of the tag that one round adds: for a payload of up to
    four bytes the rebased value field, written back in the order of the
    directory; for a larger payload the bytes at the rebased offset. *)
Lemma decodeEntry_raw (s : list byte) (o : ByteOrder) (delta fam : Z)
      (tags tags' : list Tag) (g : list byte) :
  decodeEntry s o delta fam tags g = Ok tags' ->
  exists t,
    tags' = tags ++ [t] /\ Offset t = add32 (descValue o g) delta /\
    TagM.Size t = descSize o g /\
    (TagM.Size t <= 4 -> Raw t = PutUint32 o (add32 (descValue o g) delta)) /\
    (4 < TagM.Size t ->
     Raw t = slice s (add32 (descValue o g) delta) (TagM.Size t) /\
     add32 (descValue o g) delta + TagM.Size t <= len s).
Proof.
  intros H. apply decodeEntry_Ok in H. destruct H as (raw & -> & _ & _ & Hraw).
  eexists. split; [reflexivity|]. cbn [Offset Raw]. unfold TagM.Size. cbn [Typ Count].
  fold (descSize o g). split; [reflexivity|]. split; [reflexivity|].
  destruct (Z.ltb_spec 4 (descSize o g)) as [Hz|Hz]; split; intros Hsz; try lia.
  - pose proof (add32_range (descValue o g) delta).
    apply SectionReadFull_Ok in Hraw; try lia. destruct Hraw as (Hl & -> & _).
    split; [reflexivity | exact Hl].
  - exact Hraw.
Qed.

(** Without a rebase the raw bytes of an inline tag are the four bytes of
    the value field of its descriptor. *)
Lemma inline_raw_no_rebase (o : ByteOrder) (g : list byte) :
  len g = 12 -> PutUint32 o (add32 (descValue o g) 0) = slice g 8 4.
Proof.
  intros Hg. unfold PutUint32, add32, descValue.
  assert (Hl : len (slice g 8 4) = 4) by (apply slice_length; lia).
  pose proof (get_uint_range o (slice g 8 4)) as Hr. rewrite Hl in Hr.
  rewrite Z.add_0_r, Z.mod_small by (change (256 ^ 4) with (2 ^ 32) in Hr; lia).
  replace 4%nat with (List.length (slice g 8 4)) at 1 by (unfold len in Hl; lia).
  apply put_get_uint.
Qed.

(** The raw bytes of an inline tag are the value field plus the rebase,
    written back in the order of the directory: they are the value field
    itself only without a rebase. *)
Lemma inline_raw_rebased (s : list byte) (o : ByteOrder) (delta fam : Z)
      (tags tags' : list Tag) (g : list byte) :
  decodeEntry s o delta fam tags g = Ok tags' ->
  descSize o g <= 4 ->
  Raw (last tags' zeroTag) = PutUint32 o (add32 (descValue o g) delta).
Proof.
  intros H Hsz.
  apply decodeEntry_raw in H. destruct H as (t & -> & _ & Hs & Hin & _).
  rewrite last_last. apply Hin. lia.
Qed.

(** C1 on the code.  In [note_file] the MakerNote directory is read with
    the rebase 54; its Short tag 0x0002 has the value field 05 00 00 00 in
    its descriptor (bytes 64 to 75), the tag gets the raw bytes 3b 00 00 00,
    the value field plus 54, and its value reads 59 instead of 5.  In the
    big-endian file the same tag gets the raw bytes 00 05 00 36. *)
Theorem inline_value_is_rebased :
  exists f t t',
    decoded (note_file LittleEndian) = [f] /\ notes f = [t] /\
    Id t = 2 /\ TagM.Size t = 2 /\
    slice (note_file LittleEndian) 64 12
    = entry LittleEndian 2 Format.Short 1 [x05; x00; x00; x00] /\
    Raw t = [x3b; x00; x00; x00] /\
    Raw t <> [x05; x00; x00; x00] /\
    Values noFloat noFloat t = Ok ["59"%string] /\
    map notes (decoded (note_file BigEndian)) = [[t']] /\
    slice (note_file BigEndian) 72 4 = [x00; x05; x00; x00] /\
    Raw t' = [x00; x05; x00; x36].
Proof.
  eexists. eexists. eexists. split; [vm_compute; reflexivity|].
  split; [vm_compute; reflexivity|].
  do 6 (split; [vm_compute; congruence|]).
  split; [vm_compute; reflexivity|].
  vm_compute. split; reflexivity.
Qed.

(* ------------------------------------------------------------------ *)
(** ** processRaw *)

Lemma blockCount_ceil (a b : Z) :
  0 <= a -> 0 < b -> FileM.blockCount a b = ceilDiv a b.
Proof.
  intros Ha Hb. unfold FileM.blockCount, ceilDiv.
  pose proof (Z.div_mod a b ltac:(lia)) as Hdm.
  pose proof (Z.mod_pos_bound a b Hb) as Hm.
  destruct (Z.eqb_spec (a mod b) 0) as [E|E].
  - apply Z.div_unique with (r := b - 1); lia.
  - apply Z.div_unique with (r := a mod b - 1); lia.
Qed.

Lemma blockCount_covers (a b : Z) :
  0 <= a -> 0 < b ->
  a <= FileM.blockCount a b * b /\ (FileM.blockCount a b - 1) * b < a + (if a =? 0 then 1 else 0).
Proof.
  intros Ha Hb. unfold FileM.blockCount.
  pose proof (Z.div_mod a b ltac:(lia)) as Hdm.
  pose proof (Z.mod_pos_bound a b Hb) as Hm.
  destruct (Z.eqb_spec (a mod b) 0) as [E|E]; destruct (Z.eqb_spec a 0); nia.
Qed.

Lemma binary_Read_opt_ok (o : ByteOrder) (s : list byte) (p w : Z) :
  0 < w -> 0 <= p -> p + w <= len s ->
  binary_Read_opt w (Some o) (mkReader s p)
  = (Ok (get_uint o (slice s p w)), mkReader s (p + w)).
Proof.
  intros. unfold binary_Read_opt. rewrite ReadFull_ok by assumption. reflexivity.
Qed.

(** The loop of [processRaw], when the two arrays hold the entries it
    asks for: the strips are appended in the order of their index. *)
Lemma strips_run (s : list byte) (op oc : ByteOrder) (offsets counts : list byte)
      (n : nat) (i : Z) (img : list byte) :
  0 <= i ->
  4 * (i + Z.of_nat n) <= len offsets -> 4 * (i + Z.of_nat n) <= len counts ->
  FileM.strips n s (Some op) (Some oc)
               (mkReader offsets (4 * i)) (mkReader counts (4 * i)) img
  = Ok (img ++ List.concat (map (stripBytes s op oc offsets counts) (zseq i n))).
Proof.
  revert i img; induction n as [|n IH]; intros i img Hi Ho Hc.
  - cbn [FileM.strips zseq map List.concat]. rewrite app_nil_r. reflexivity.
  - cbn [FileM.strips zseq map List.concat].
    rewrite !binary_Read_opt_ok by lia.
    unfold SectionReadAll. cbn [rbind].
    replace (4 * i + 4) with (4 * (i + 1)) by lia.
    rewrite IH by lia. rewrite <- app_assoc. reflexivity.
Qed.

Lemma u32At_nonneg (o : ByteOrder) (raw : list byte) (i : Z) : 0 <= u32At o raw i.
Proof. unfold u32At. apply get_uint_range. Qed.

Lemma zseq_In (i : Z) (n : nat) (k : Z) :
  In k (zseq i n) -> i <= k < i + Z.of_nat n.
Proof.
  revert i; induction n as [|n IH]; intros i H; [destruct H|].
  cbn [zseq] in H. destruct H as [<-|H]; [lia|]. apply IH in H. lia.
Qed.

Lemma len_concat_strips (s : list byte) (op oc : ByteOrder)
      (offsets counts : list byte) (l : list Z) :
  (forall i, In i l -> u32At op offsets i + u32At oc counts i <= len s) ->
  len (List.concat (map (stripBytes s op oc offsets counts) l))
  = sumZ (map (u32At oc counts) l).
Proof.
  induction l as [|i l IH]; intros H; [reflexivity|].
  cbn [map List.concat sumZ fold_right]. rewrite len_app.
  fold (sumZ (map (u32At oc counts) l)). rewrite IH by (intros; apply H; right; assumption).
  unfold stripBytes. rewrite slice_length; [reflexivity | apply u32At_nonneg
    | apply u32At_nonneg | apply H; left; reflexivity].
Qed.

(** [processRaw] on the fields it reads.  The rows of the image and the
    rows of a strip are taken from the value fields of the tags 0x101 and
    0x116.  When the second one is not zero and the two arrays hold the
    entries of all strips, [processRaw] takes as many strips as these two
    numbers need, rounded up, and returns the strips of the indices 0, 1,
    ... in this order, each the section of the buffer that the two arrays
    give for its index; with every strip inside the buffer the length of
    the result is the sum of the byte counts. *)
Lemma processRaw_concatenates_strips (f : File) (op oc : ByteOrder) :
  let strip := FileM.get_ f RowsPerStrip in
  let offset := FileM.get_ f StripOffsets in
  let count := FileM.get_ f StripByteCounts in
  let length := FileM.get_ f ImageLength in
  let block := FileM.blockCount (Offset length) (Offset strip) in
  let blocks := zseq 0 (Z.to_nat block) in
  FileM.IsRaw f = true ->
  0 < Offset strip -> 0 <= Offset length ->
  order offset = Some op -> order count = Some oc ->
  4 * block <= len (Raw offset) -> 4 * block <= len (Raw count) ->
  block = ceilDiv (Offset length) (Offset strip) /\
  FileM.blockCount 5 2 = 3 /\
  FileM.processRaw f
  = Ok (List.concat (map (stripBytes (reader f) op oc (Raw offset) (Raw count)) blocks)) /\
  (FileM.IsJpeg f = false -> FileM.Bytes f = FileM.processRaw f) /\
  ((forall i, 0 <= i < block ->
      u32At op (Raw offset) i + u32At oc (Raw count) i <= len (reader f)) ->
   exists img,
     FileM.processRaw f = Ok img /\
     len img = sumZ (map (u32At oc (Raw count)) blocks)).
Proof.
  intros strip offset count length block blocks Hraw Hs Hl Hop Hoc Ho Hc.
  assert (Hb : 0 <= block).
  { unfold block. rewrite blockCount_ceil by lia. unfold ceilDiv.
    apply Z.div_pos; lia. }
  assert (Hrun : FileM.processRaw f
                 = Ok (List.concat (map (stripBytes (reader f) op oc (Raw offset) (Raw count))
                                   blocks))).
  { unfold FileM.processRaw. fold strip offset count length.
    destruct (Z.eqb_spec (Offset strip) 0); [lia|]. fold block.
    rewrite Hop, Hoc.
    pose proof (@strips_run (reader f) op oc (Raw offset) (Raw count)
                  (Z.to_nat block) 0 []) as H.
    rewrite Z.mul_0_r in H. rewrite H by lia. reflexivity. }
  split; [apply blockCount_ceil; lia|].
  split; [reflexivity|].
  split; [exact Hrun|].
  split.
  - intros Hj. unfold FileM.Bytes. rewrite Hj, Hraw. reflexivity.
  - intros Hin. eexists. split; [exact Hrun|].
    apply len_concat_strips. intros i Hi. apply zseq_In in Hi. apply Hin. lia.
Qed.

Example processRaw_strips_sample :
  FileM.blockCount (Offset (FileM.get_ strips_sample ImageLength))
                   (Offset (FileM.get_ strips_sample RowsPerStrip)) = 3 /\
  FileM.processRaw strips_sample
  = Ok ([x61; x62; x63] ++ [x64; x65; x66; x67] ++ [x68; x69]) /\
  FileM.Bytes strips_sample = FileM.processRaw strips_sample /\
  (exists img, FileM.processRaw strips_sample = Ok img /\ len img = 3 + 4 + 2).
Proof.
  destruct (@processRaw_concatenates_strips strips_sample LittleEndian LittleEndian)
    as (H1 & _ & H3 & H4 & H5); try (vm_compute; congruence).
  split; [vm_compute; reflexivity|].
  split; [rewrite H3; vm_compute; reflexivity|].
  split; [apply H4; vm_compute; reflexivity|].
  destruct H5 as (img & Himg & Hlen).
  - intros i Hi.
    assert (Hb : FileM.blockCount (Offset (FileM.get_ strips_sample ImageLength))
                   (Offset (FileM.get_ strips_sample RowsPerStrip)) = 3)
      by (vm_compute; reflexivity).
    rewrite Hb in Hi.
    assert (Hcases : i = 0 \/ i = 1 \/ i = 2) by lia.
    destruct Hcases as [ -> | [ -> | -> ] ]; vm_compute; congruence.
  - exists img. split; [exact Himg|]. rewrite Hlen. vm_compute. reflexivity.
Qed.

(** A value field of zero for the rows of a strip stops [processRaw] with
    a division by zero. *)
Lemma processRaw_no_rows (f : File) :
  Offset (FileM.get_ f RowsPerStrip) = 0 -> FileM.processRaw f = Panic.
Proof. intros H. unfold FileM.processRaw. rewrite H. reflexivity. Qed.

(** C3 on the code.  [processRaw] divides the value fields of the tags
    ImageLength and RowsPerStrip, whatever their types; [Tag.Uint] and
    [Tag.Values] read a Short from the first two bytes of the field.  In
    [short_rows_file BigEndian] the image has 5 rows and a strip has 2, a
    Short whose value field 00 02 00 00 is the number 131072: [processRaw]
    takes one strip and returns its three bytes, not the three strips that
    5 rows in strips of 2 make.  The little-endian file of the same content,
    whose value field 02 00 00 00 is the number 2, gives the three strips.
    In [no_rows_file] a strip has no row: the File is raw-striped and
    supported, and the byte accessor panics on the division. *)
Theorem processRaw_divides_value_fields :
  (exists f,
      decoded (short_rows_file BigEndian) = [f] /\
      FileM.IsRaw f = true /\ FileM.IsJpeg f = false /\
      TagM.Uint (FileM.get_ f ImageLength) = Ok 5 /\
      TagM.Uint (FileM.get_ f RowsPerStrip) = Ok 2 /\
      Values noFloat noFloat (FileM.get_ f RowsPerStrip) = Ok ["2"%string] /\
      slice (short_rows_file BigEndian) 42 4 = [x00; x02; x00; x00] /\
      Offset (FileM.get_ f RowsPerStrip) = 131072 /\
      FileM.blockCount (Offset (FileM.get_ f ImageLength))
                       (Offset (FileM.get_ f RowsPerStrip)) = 1 /\
      ceilDiv 5 2 = 3 /\
      FileM.Bytes f = Ok [x61; x62; x63]) /\
  (exists f,
      decoded (short_rows_file LittleEndian) = [f] /\
      TagM.Uint (FileM.get_ f ImageLength) = Ok 5 /\
      TagM.Uint (FileM.get_ f RowsPerStrip) = Ok 2 /\
      Offset (FileM.get_ f RowsPerStrip) = 2 /\
      FileM.Bytes f = Ok ([x61; x62; x63] ++ [x64; x65; x66; x67] ++ [x68; x69])) /\
  (exists f,
      decoded no_rows_file = [f] /\
      FileM.IsRaw f = true /\ FileM.IsJpeg f = false /\
      FileM.IsSupported f = Ok true /\
      TagM.Uint (FileM.get_ f RowsPerStrip) = Ok 0 /\
      FileM.Bytes f = Panic).
Proof.
  split; [|split]; eexists; (split; [vm_compute; reflexivity|]); vm_compute;
    repeat split; congruence.
Qed.

(** C4 on the code.  A strip that reaches beyond the end of the buffer is
    cut at the end of the buffer, and [processRaw] goes on: in
    [cut_strips_file] the last strip has two bytes at 93 and the buffer has
    94 bytes; the byte accessor returns the eight bytes that are there, with
    no error.  The embedded-JPEG path reads its section with [io.ReadFull]
    and does fail, with a Truncated error, on [cut_jpeg_file]. *)
Theorem short_strip_is_not_refused :
  (exists f,
      decoded cut_strips_file = [f] /\
      FileM.IsRaw f = true /\ FileM.IsJpeg f = false /\
      len (reader f) = 94 /\
      u32At LittleEndian (Raw (FileM.get_ f StripOffsets)) 2 = 93 /\
      u32At LittleEndian (Raw (FileM.get_ f StripByteCounts)) 2 = 2 /\
      FileM.Bytes f = Ok [x61; x62; x63; x64; x65; x66; x67; x68]) /\
  (exists f,
      decoded cut_jpeg_file = [f] /\ FileM.IsJpeg f = true /\
      FileM.Bytes f = Err ErrUnexpectedEOF /\ kind ErrUnexpectedEOF = Truncated).
Proof.
  split; eexists; (split; [vm_compute; reflexivity|]); vm_compute;
    repeat split; congruence.
Qed.

(* ------------------------------------------------------------------ *)
(** ** Payloads as sequences of numbers *)

Lemma from_app_r {A} (a b : list A) (off : Z) :
  0 <= off -> from (len a + off) (a ++ b) = from off b.
Proof.
  intros Ho. unfold from, len.
  replace (Z.to_nat (Z.of_nat (List.length a) + off))
    with (List.length a + Z.to_nat off)%nat by lia.
  rewrite skipn_app, skipn_all2 by lia.
  replace (List.length a + Z.to_nat off - List.length a)%nat with (Z.to_nat off) by lia.
  reflexivity.
Qed.

Lemma slice_app_r {A} (a b : list A) (off n : Z) :
  0 <= off -> slice (a ++ b) (len a + off) n = slice b off n.
Proof. intros Ho. unfold slice. rewrite from_app_r by assumption. reflexivity. Qed.

Lemma slice_app_l {A} (a b : list A) : slice (a ++ b) 0 (len a) = a.
Proof.
  unfold slice, from, len. cbn [Z.to_nat skipn]. rewrite Nat2Z.id.
  rewrite firstn_app, firstn_all, Nat.sub_diag. cbn [firstn]. apply app_nil_r.
Qed.

Lemma put_uint_len (o : ByteOrder) (w : Z) (v : Z) :
  0 <= w -> len (put_uint o (Z.to_nat w) v) = w.
Proof. intros Hw. unfold len. rewrite put_uint_length. lia. Qed.

Lemma put_uint_1 (o : ByteOrder) (v : Z) : put_uint o 1 v = [byte_of v].
Proof. destruct o; reflexivity. Qed.

Lemma encodeUnits_1 (o : ByteOrder) (units : list Z) :
  encodeUnits o 1 units = encodeUnits LittleEndian 1 units.
Proof.
  unfold encodeUnits. f_equal. apply map_ext. intros v.
  change (Z.to_nat 1) with 1%nat. rewrite !put_uint_1. reflexivity.
Qed.

Lemma len_encodeUnits (o : ByteOrder) (w : Z) (units : list Z) :
  0 <= w -> len (encodeUnits o w units) = w * len units.
Proof.
  intros Hw. unfold encodeUnits. induction units as [|u units IH].
  - cbn. unfold len. cbn. lia.
  - cbn [map List.concat]. rewrite len_app, IH, put_uint_len, len_cons by lia. lia.
Qed.

Lemma slice_encodeUnits (o : ByteOrder) (w : Z) (units : list Z) (k : Z) :
  0 < w -> 0 <= k < len units ->
  slice (encodeUnits o w units) (w * k) w
  = put_uint o (Z.to_nat w) (nth (Z.to_nat k) units 0).
Proof.
  intros Hw. revert k. induction units as [|u units IH]; intros k Hk.
  - unfold len in Hk. cbn in Hk. lia.
  - unfold encodeUnits. cbn [map List.concat]. fold (encodeUnits o w units).
    rewrite len_cons in Hk.
    destruct (Z.eq_dec k 0) as [ -> | Hne].
    + rewrite Z.mul_0_r. cbn [Z.to_nat nth].
      rewrite <- (put_uint_len o u (w := w)) at 3 by lia.
      apply slice_app_l.
    + replace (w * k) with (len (put_uint o (Z.to_nat w) u) + w * (k - 1))
        by (rewrite put_uint_len by lia; lia).
      rewrite slice_app_r by nia. rewrite IH by lia.
      replace (Z.to_nat k) with (S (Z.to_nat (k - 1))) by lia. reflexivity.
Qed.

Lemma get_unit (o : ByteOrder) (w : Z) (units : list Z) (k : Z) :
  0 < w -> 0 <= k < len units ->
  get_uint o (slice (encodeUnits o w units) (w * k) w) = unitAt w units k.
Proof.
  intros Hw Hk. rewrite slice_encodeUnits by assumption.
  rewrite get_put_uint. unfold unitAt. rewrite Z2Nat.id by lia. reflexivity.
Qed.

Lemma unitAt_beyond (w : Z) (units : list Z) (k : Z) :
  0 <= w -> len units <= k -> unitAt w units k = 0.
Proof.
  intros Hw Hk. unfold unitAt. rewrite nth_overflow by (unfold len in Hk; lia).
  apply Z.mod_0_l. apply Z.pow_nonzero; lia.
Qed.

Lemma len_from {A} (l : list A) (p : Z) :
  0 <= p -> len (from p l) = Z.max 0 (len l - p).
Proof. intros Hp. unfold len, from. rewrite length_skipn. lia. Qed.

Lemma slice_from {A} (l : list A) (p w : Z) : slice (from p l) 0 w = slice l p w.
Proof. reflexivity. Qed.

Lemma each_ext {A} (n : nat) (f g : Z -> result A) (i : Z) :
  (forall k, i <= k -> f k = g k) -> each n f i = each n g i.
Proof.
  revert i; induction n as [|n IH]; intros i H; [reflexivity|].
  cbn [each]. rewrite (H i) by lia. rewrite (IH (i + 1)) by (intros; apply H; lia).
  reflexivity.
Qed.

(** A loop whose body moves through a family of reader states [st] in
    steps of [c] and yields [h k] in the state [st k]. *)
Lemma times_stepped {A} (st : Z -> Reader) (body : M A) (h : Z -> A) (c : Z) :
  0 <= c ->
  (forall k, 0 <= k -> body (st k) = (Ok (h k), st (k + c))) ->
  forall n k, 0 <= k ->
    times n body (st k)
    = (Ok (map (fun j => h (k + c * j)) (zseq 0 n)), st (k + c * Z.of_nat n)).
Proof.
  intros Hc Hbody. induction n as [|n IH]; intros k Hk.
  - cbn [times zseq map]. unfold ret. rewrite Z.mul_0_r, Z.add_0_r. reflexivity.
  - cbn [times zseq map]. unfold bind at 1. rewrite Hbody by assumption.
    unfold bind at 1. rewrite IH by lia. unfold ret.
    rewrite Z.mul_0_r, Z.add_0_r. f_equal.
    + f_equal. f_equal. rewrite (zseq_succ 0 n), map_map.
      apply map_ext. intros j. f_equal. lia.
    + f_equal. lia.
Qed.

Section EncodedPayload.
Variable o : ByteOrder.
Variable w : Z.
Variable units : list Z.
Hypothesis w_pos : 0 < w.


Lemma UintN_encode (i : Z) :
  0 <= i ->
  UintN w (Some o) (from (i * w) (encodeUnits o w units))
  = if i <? len units then Ok (unitAt w units i) else Panic.
Proof.
  intros Hi. unfold UintN.
  rewrite len_from, len_encodeUnits by nia.
  pose proof (len_nonneg units) as HL.
  destruct (Z.ltb_spec i (len units)) as [Hlt|Hge].
  - destruct (Z.ltb_spec (Z.max 0 (w * len units - i * w)) w) as [H|H]; [nia|].
    rewrite slice_from, (Z.mul_comm i w), get_unit by lia. reflexivity.
  - destruct (Z.ltb_spec (Z.max 0 (w * len units - i * w)) w) as [H|H]; [reflexivity|nia].
Qed.

(** Read number [k] of a payload is its [k]-th number; beyond the end the
    read fails, the error is dropped, and the target stays zero. *)
Lemma read_sync (k : Z) :
  0 <= k ->
  or_zero (binary_Read_opt w (Some o)) (afterReads o w units k)
  = (Ok (unitAt w units k), afterReads o w units (k + 1)).
Proof.
  intros Hk. unfold afterReads.
  pose proof (len_nonneg units) as HL.
  destruct (Z.lt_ge_cases k (len units)) as [Hlt|Hge].
  - rewrite !Z.min_l by lia.
    rewrite read_elem; [| lia | nia | rewrite len_encodeUnits by lia; nia].
    rewrite get_unit by lia. do 2 f_equal. lia.
  - rewrite !Z.min_r by lia. rewrite unitAt_beyond by lia.
    unfold or_zero, binary_Read_opt, ReadFull. cbn [buf pos].
    destruct (Z.leb_spec w 0); [lia|].
    rewrite len_encodeUnits by lia.
    destruct (Z.leb_spec (w * len units) (w * len units)); [reflexivity | lia].
Qed.

Lemma afterReads_0 : afterReads o w units 0 = mkReader (encodeUnits o w units) 0.
Proof.
  unfold afterReads. pose proof (len_nonneg units).
  rewrite Z.min_l by lia. rewrite Z.mul_0_r. reflexivity.
Qed.

(** A loop that prints one number per round. *)
Lemma times_one {A} (f : Z -> A) (n : nat) :
  fst (times n (bind (or_zero (binary_Read_opt w (Some o))) (fun v => ret (f v)))
             (mkReader (encodeUnits o w units) 0))
  = Ok (map (fun j => f (unitAt w units (0 + 1 * j))) (zseq 0 n)).
Proof.
  rewrite <- afterReads_0.
  rewrite (@times_stepped A (afterReads o w units) _ (fun k => f (unitAt w units k)) 1); try lia.
  - reflexivity.
  - intros k Hk. unfold bind. rewrite read_sync by assumption. reflexivity.
Qed.

(** A loop that prints two numbers per round. *)
Lemma times_two {A} (f : Z -> Z -> A) (n : nat) :
  fst (times n (bind (or_zero (binary_Read_opt w (Some o))) (fun a =>
                bind (or_zero (binary_Read_opt w (Some o))) (fun d =>
                ret (f a d))))
             (mkReader (encodeUnits o w units) 0))
  = Ok (map (fun j => f (unitAt w units (0 + 2 * j)) (unitAt w units (0 + 2 * j + 1)))
            (zseq 0 n)).
Proof.
  rewrite <- afterReads_0.
  rewrite (@times_stepped A (afterReads o w units) _
             (fun k => f (unitAt w units k) (unitAt w units (k + 1))) 2); try lia.
  - reflexivity.
  - intros k Hk. unfold bind at 1. rewrite read_sync by assumption.
    unfold bind at 1. rewrite read_sync by lia. unfold ret.
    do 2 f_equal. lia.
Qed.
End EncodedPayload.

(* ------------------------------------------------------------------ *)
(** ** The values of a tag do not depend on the byte order of its file *)

Lemma item_ok_facts (it : Item) :
  item_ok it = true ->
  0 <= itemId it < 2 ^ 16 /\ 0 <= itemType it < 2 ^ 16 /\
  0 <= itemCount it < 2 ^ 32 /\
  itemWidth it * len (itemUnits it) = (if itemSize it <=? 4 then 4 else itemSize it).
Proof.
  unfold item_ok. intros H.
  repeat (apply andb_true_iff in H; destruct H as [H ?]).
  repeat match goal with
         | H : (_ <=? _) = true |- _ => apply Z.leb_le in H
         | H : (_ <? _) = true |- _ => apply Z.ltb_lt in H
         | H : (_ =? _) = true |- _ => apply Z.eqb_eq in H
         end.
  repeat split; assumption.
Qed.

Lemma itemWidth_of_type (it : Item) (ty w : Z) :
  itemType it = ty -> unitWidth ty = w -> w <= 4 -> itemWidth it = w.
Proof.
  intros <- Hw Hle. unfold itemWidth. rewrite Hw.
  destruct (itemSize it <=? 4); [apply Z.min_l; lia | reflexivity].
Qed.

Lemma payload_bytes (o : ByteOrder) (it : Item) :
  itemWidth it = 1 -> payload o it = payload LittleEndian it.
Proof. intros H. unfold payload. rewrite H. apply encodeUnits_1. Qed.

Section ValuesOfContent.
Variable FormatFloat32 FormatFloat64 : Z -> string.
Variable fam : Z.

Lemma Values_tagOfItem (o : ByteOrder) (p p' : Item -> Z) (it : Item) :
  item_ok it = true -> text_is_bytes it = true ->
  Values FormatFloat32 FormatFloat64 (tagOfItem o fam p it)
  = Values FormatFloat32 FormatFloat64 (tagOfItem LittleEndian fam p' it).
Proof.
  intros Hok Htext. apply item_ok_facts in Hok. destruct Hok as (_ & _ & Hcount & Hunits).
  unfold Values, tagOfItem. cbn [Id Typ Raw].
  destruct ((itemId it =? Xmp) || (itemId it =? Comment)) eqn:Ebypass.
  { unfold text_is_bytes in Htext. rewrite Ebypass in Htext. cbn [negb orb] in Htext.
    apply Z.eqb_eq in Htext. rewrite (@payload_bytes o it Htext). reflexivity. }
  clear Htext Ebypass.
  destruct (Z.eqb_spec (itemType it) Format.String) as [E|_].
  { assert (Hw : itemWidth it = 1) by (apply (@itemWidth_of_type it _ 1 E); [reflexivity | lia]).
    rewrite (@payload_bytes o it Hw). reflexivity. }
  destruct (Z.eqb_spec (itemType it) Format.Long) as [E|_].
  { unfold decodeLong, count_of, Uint32, payload. cbn [Raw order Count].
    rewrite (@itemWidth_of_type it _ 4 E) by (reflexivity || lia).
    apply each_ext. intros k Hk. rewrite !UintN_encode by lia. reflexivity. }
  destruct (Z.eqb_spec (itemType it) Format.SLong) as [E|_].
  { unfold decodeSignedLong, count_of, tagReader, payload. cbn [Raw order Count].
    rewrite (@itemWidth_of_type it _ 4 E) by (reflexivity || lia).
    rewrite !times_one by lia. reflexivity. }
  destruct (Z.eqb_spec (itemType it) Format.Short) as [E|_].
  { unfold decodeShort, count_of, Uint16, payload. cbn [Raw order Count].
    rewrite (@itemWidth_of_type it _ 2 E) by (reflexivity || lia).
    apply each_ext. intros k Hk. rewrite !UintN_encode by lia. reflexivity. }
  destruct (Z.eqb_spec (itemType it) Format.SShort) as [E|_].
  { unfold decodeSignedShort, count_of, tagReader, payload. cbn [Raw order Count].
    rewrite (@itemWidth_of_type it _ 2 E) by (reflexivity || lia).
    rewrite !times_one by lia. reflexivity. }
  destruct (Z.eqb_spec (itemType it) Format.Byte) as [E|_].
  { assert (Hw : itemWidth it = 1) by (apply (@itemWidth_of_type it _ 1 E); [reflexivity | lia]).
    rewrite (@payload_bytes o it Hw). reflexivity. }
  destruct (Z.eqb_spec (itemType it) Format.SByte) as [E|_]; [reflexivity|].
  destruct (Z.eqb_spec (itemType it) Format.Undef) as [E|_]; [reflexivity|].
  destruct (Z.eqb_spec (itemType it) Format.Rational) as [E|_].
  { unfold decodeRational, count_of, tagReader, payload. cbn [Raw order Count].
    rewrite (@itemWidth_of_type it _ 4 E) by (reflexivity || lia).
    rewrite !times_two by lia. reflexivity. }
  destruct (Z.eqb_spec (itemType it) Format.SRational) as [E|_].
  { unfold decodeSignedRational, count_of, tagReader, payload. cbn [Raw order Count].
    rewrite (@itemWidth_of_type it _ 4 E) by (reflexivity || lia).
    rewrite !times_two by lia. reflexivity. }
  destruct (Z.eqb_spec (itemType it) Format.Float) as [E|_].
  { unfold decodeFloat, count_of, tagReader, payload. cbn [Raw order Count].
    rewrite (@itemWidth_of_type it _ 4 E) by (reflexivity || lia).
    rewrite !times_one by lia. reflexivity. }
  destruct (Z.eqb_spec (itemType it) Format.Double) as [E|_]; [|reflexivity].
  unfold decodeDouble, count_of, tagReader, payload. cbn [Raw order Count].
  unfold itemWidth, itemSize in *. rewrite E in *.
  change (Format.Size Format.Double) with 8 in *.
  change (unitWidth Format.Double) with 8 in *.
  destruct (Z.leb_spec (8 * itemCount it) 4) as [Hs|Hs].
  - replace (itemCount it) with 0 by lia. reflexivity.
  - rewrite !times_one by lia. reflexivity.
Qed.
End ValuesOfContent.

(* ------------------------------------------------------------------ *)
(** ** Reading a directory that holds a given content *)

Lemma bytes_eqb_eq (a b : list byte) : bytes_eqb a b = true -> a = b.
Proof.
  unfold bytes_eqb. destruct (list_eq_dec Byte.byte_eq_dec a b); [auto | discriminate].
Qed.

Lemma slice_app_l' {A} (a b : list A) (n : Z) :
  len a = n -> slice (a ++ b) 0 n = a.
Proof. intros <-. apply slice_app_l. Qed.

Lemma slice_app_r' {A} (a b : list A) (k off n : Z) :
  len a = k -> 0 <= off -> slice (a ++ b) (k + off) n = slice b off n.
Proof. intros <- Ho. apply slice_app_r. exact Ho. Qed.

Lemma get_u16 (o : ByteOrder) (v : Z) : 0 <= v < 2 ^ 16 -> get_uint o (u16 o v) = v.
Proof.
  intros Hv. unfold u16. rewrite get_put_uint.
  change (256 ^ Z.of_nat 2) with (2 ^ 16). apply Z.mod_small. exact Hv.
Qed.

Lemma get_u32 (o : ByteOrder) (v : Z) : 0 <= v < 2 ^ 32 -> get_uint o (u32 o v) = v.
Proof.
  intros Hv. unfold u32. rewrite get_put_uint.
  change (256 ^ Z.of_nat 4) with (2 ^ 32). apply Z.mod_small. exact Hv.
Qed.

Lemma len_u16 (o : ByteOrder) (v : Z) : len (u16 o v) = 2.
Proof. unfold u16, len. rewrite put_uint_length. reflexivity. Qed.

Lemma len_u32 (o : ByteOrder) (v : Z) : len (u32 o v) = 4.
Proof. unfold u32, len. rewrite put_uint_length. reflexivity. Qed.

(** The fields of a descriptor read back. *)
Lemma entry_fields (o : ByteOrder) (id ty cnt : Z) (val : list byte) :
  0 <= id < 2 ^ 16 -> 0 <= ty < 2 ^ 16 -> 0 <= cnt < 2 ^ 32 -> len val = 4 ->
  let g := entry o id ty cnt val in
  descId o g = id /\ descType o g = ty /\ descCount o g = cnt /\
  slice g 8 4 = val /\ len g = 12.
Proof.
  intros Hid Hty Hcnt Hval g. unfold g, entry, descId, descType, descCount.
  repeat split.
  - rewrite (@slice_app_l' _ _ _ 2 (len_u16 o id)). apply get_u16. exact Hid.
  - rewrite (@slice_app_r' _ _ _ 2 0 2 (len_u16 o id)) by lia.
    rewrite (@slice_app_l' _ _ _ 2 (len_u16 o ty)). apply get_u16. exact Hty.
  - rewrite (@slice_app_r' _ _ _ 2 2 4 (len_u16 o id)) by lia.
    rewrite (@slice_app_r' _ _ _ 2 0 4 (len_u16 o ty)) by lia.
    rewrite (@slice_app_l' _ _ _ 4 (len_u32 o cnt)). apply get_u32. exact Hcnt.
  - rewrite (@slice_app_r' _ _ _ 2 6 4 (len_u16 o id)) by lia.
    rewrite (@slice_app_r' _ _ _ 2 4 4 (len_u16 o ty)) by lia.
    rewrite (@slice_app_r' _ _ _ 4 0 4 (len_u32 o cnt)) by lia.
    rewrite <- Hval. apply slice_all.
  - rewrite !len_app, !len_u16, len_u32, Hval. reflexivity.
Qed.

Lemma itemWidth_pos (it : Item) : 0 < itemWidth it.
Proof.
  assert (H : forall ty, 1 <= unitWidth ty).
  { intros ty. unfold unitWidth.
    repeat match goal with
           | |- context [match ?x with _ => _ end] => destruct x
           end; lia. }
  unfold itemWidth. specialize (H (itemType it)).
  destruct (itemSize it <=? 4); lia.
Qed.

Lemma len_payload (o : ByteOrder) (it : Item) :
  item_ok it = true ->
  len (payload o it) = (if itemSize it <=? 4 then 4 else itemSize it).
Proof.
  intros Hok. apply item_ok_facts in Hok. destruct Hok as (_ & _ & _ & Hu).
  unfold payload. pose proof (itemWidth_pos it).
  rewrite len_encodeUnits by lia. exact Hu.
Qed.

(** One round of the loop of [readTags] on the descriptor of an item. *)
Lemma decodeEntry_item (s : list byte) (o : ByteOrder) (fam : Z)
      (place : Item -> Z) (tags : list Tag) (it : Item) :
  item_held o s place it ->
  decodeEntry s o 0 fam tags (descriptor o place it)
  = if match lastId tags with Some p => itemId it <=? p | None => false end
    then Err ErrNotSorted
    else if itemCount it =? 0xFFFFFFFF then Err ErrInvalidCount
    else Ok (tags ++ [tagOfItem o fam place it]).
Proof.
  intros [Hok Hext]. pose proof (@item_ok_facts it Hok) as (Hid & Hty & Hcnt & _).
  pose proof (@len_payload o it Hok) as Hlen.
  assert (Hval : len (if itemSize it <=? 4 then payload o it else u32 o (place it)) = 4).
  { destruct (itemSize it <=? 4); [exact Hlen | apply len_u32]. }
  pose proof (@entry_fields o (itemId it) (itemType it) (itemCount it) _
                Hid Hty Hcnt Hval) as (Fid & Fty & Fcnt & Fval & Flen).
  fold (descriptor o place it) in Fid, Fty, Fcnt, Fval, Flen.
  rewrite decodeEntry_eq. unfold descSize, descValue.
  rewrite Fid, Fty, Fcnt, Fval. fold (itemSize it).
  destruct (match lastId tags with Some p => itemId it <=? p | None => false end);
    [reflexivity|].
  destruct (itemCount it =? 0xFFFFFFFF); [reflexivity|].
  unfold tagOfItem.
  destruct (Z.ltb_spec 4 (itemSize it)) as [Hs|Hs];
    destruct (Z.leb_spec (itemSize it) 4) as [Hs'|Hs']; try lia.
  - destruct (Hext Hs) as (Hp & Hfit & Hpay).
    unfold add32. rewrite get_u32 by exact Hp.
    rewrite Z.add_0_r, Z.mod_small by exact Hp.
    rewrite SectionReadFull_present by lia. rewrite Hpay. reflexivity.
  - pose proof (get_uint_range o (payload o it)) as Hr. rewrite Hlen in Hr.
    change (256 ^ 4) with (2 ^ 32) in Hr.
    unfold add32. rewrite Z.add_0_r, Z.mod_small by exact Hr.
    unfold PutUint32.
    replace 4%nat with (List.length (payload o it)) by (unfold len in Hlen; lia).
    rewrite put_get_uint. reflexivity.
Qed.

Lemma decodeEntries_items (s : list byte) (o : ByteOrder) (fam : Z)
      (place : Item -> Z) (items : list Item) (tags : list Tag) :
  Forall (item_held o s place) items ->
  decodeEntries s o 0 fam (map (descriptor o place) items) tags
  = decodeItems o fam place items tags.
Proof.
  intros H. revert tags. induction H as [|it items Hit _ IH]; intros tags;
    [reflexivity|].
  cbn [map decodeEntries decodeItems]. rewrite (@decodeEntry_item s o fam place tags it Hit).
  destruct (match lastId tags with Some p => itemId it <=? p | None => false end);
    [reflexivity|].
  destruct (itemCount it =? 0xFFFFFFFF); [reflexivity|].
  cbn [rbind]. apply IH.
Qed.

Lemma held_items (o : ByteOrder) (s : list byte) (at_ : Z) (place : Item -> Z)
      (items : list Item) (k0 : Z) :
  forallb
    (fun ki =>
       let it := snd ki in
       item_ok it
       && bytes_eqb (slice s (at_ + 2 + 12 * fst ki) 12) (descriptor o place it)
       && ((itemSize it <=? 4)
           || ((0 <=? place it) && (place it <? 2 ^ 32)
               && (place it + itemSize it <=? len s)
               && bytes_eqb (slice s (place it) (itemSize it)) (payload o it))))
    (indexed k0 items) = true ->
  Forall (item_held o s place) items /\
  map (fun i => slice s (at_ + 2 + 12 * i) 12) (zseq k0 (List.length items))
  = map (descriptor o place) items.
Proof.
  revert k0; induction items as [|it items IH]; intros k0 H.
  - split; [constructor | reflexivity].
  - cbn [indexed forallb fst snd] in H. apply andb_true_iff in H.
    destruct H as [Hit Hrest]. apply IH in Hrest. destruct Hrest as [HF Hmap].
    cbv zeta in Hit. apply andb_true_iff in Hit. destruct Hit as [Hit Hpay].
    apply andb_true_iff in Hit. destruct Hit as [Hok Hdesc].
    apply bytes_eqb_eq in Hdesc. split.
    + constructor; [|exact HF]. split; [exact Hok|]. intros Hbig.
      apply orb_true_iff in Hpay. destruct Hpay as [Hs|Hp]; [apply Z.leb_le in Hs; lia|].
      repeat (apply andb_true_iff in Hp; destruct Hp as [Hp ?]).
      apply Z.leb_le in Hp. apply bytes_eqb_eq in H.
      repeat match goal with
             | H : (_ <=? _) = true |- _ => apply Z.leb_le in H
             | H : (_ <? _) = true |- _ => apply Z.ltb_lt in H
             end.
      repeat split; assumption.
    + cbn [List.length zseq map]. rewrite Hdesc, Hmap. reflexivity.
Qed.

Lemma holds_facts (o : ByteOrder) (s : list byte) (at_ : Z) (place : Item -> Z)
      (items : list Item) :
  holds o s at_ place items = true ->
  0 <= at_ /\ len items < 2 ^ 16 /\ at_ + 2 + 12 * len items <= len s /\
  slice s at_ 2 = u16 o (len items) /\
  Forall (item_held o s place) items /\
  descriptors s (at_ + 2) (List.length items) = map (descriptor o place) items.
Proof.
  unfold holds. intros H.
  apply andb_true_iff in H. destruct H as [H Hall].
  apply andb_true_iff in H. destruct H as [H Hcount].
  apply andb_true_iff in H. destruct H as [H Hfit].
  apply andb_true_iff in H. destruct H as [Hat Hn].
  apply Z.leb_le in Hat. apply Z.ltb_lt in Hn. apply Z.leb_le in Hfit.
  apply bytes_eqb_eq in Hcount.
  apply held_items in Hall. destruct Hall as [HF Hmap].
  repeat split; assumption.
Qed.

Lemma len_slice_le {A} (s : list A) (off n : Z) : len (slice s off n) <= len s.
Proof.
  unfold len, slice, from. rewrite length_firstn, length_skipn. lia.
Qed.

Lemma readOrder_header (o : ByteOrder) (s : list byte) :
  has_header o s = true -> readOrder (mkReader s 0) = (Ok o, mkReader s 4).
Proof.
  intros H. apply bytes_eqb_eq in H.
  assert (Hlen : 4 <= len s).
  { pose proof (len_slice_le s 0 4) as Hle. rewrite H in Hle.
    destruct o; exact Hle. }
  unfold readOrder, bind. rewrite ReadFull_ok by lia. rewrite H.
  destruct o; reflexivity.
Qed.

(** On a buffer that holds a content, [readOrder] and [readTags] run the
    loop of [readTags] on the items. *)
Lemma readRoot_holds (o : ByteOrder) (s : list byte) (at_ fam : Z)
      (place : Item -> Z) (items : list Item) :
  has_header o s = true -> holds o s at_ place items = true ->
  fst (readRoot at_ fam (mkReader s 0)) = decodeItems o fam place items [].
Proof.
  intros Hh Hholds. apply holds_facts in Hholds.
  destruct Hholds as (Hat & Hn & Hfit & Hcount & HF & Hdesc).
  unfold readRoot. unfold bind at 1. rewrite (@readOrder_header o s Hh).
  assert (Hc : get_uint o (slice (buf (mkReader s 4)) at_ 2) = len items).
  { cbn [buf]. rewrite Hcount. apply get_u16. pose proof (len_nonneg items). lia. }
  rewrite readTags_descriptors;
    [ | exact Hat | cbv zeta; rewrite Hc; cbn [buf]; exact Hfit ].
  rewrite Hc. cbn [buf]. unfold len at 1. rewrite Nat2Z.id, Hdesc.
  apply decodeEntries_items. exact HF.
Qed.

Lemma increasingb_cons (a : Z) (l : list Z) :
  increasingb (a :: l) = true ->
  increasingb l = true /\ match l with [] => True | b :: _ => a < b end.
Proof.
  destruct l as [|b l]; [auto|]. cbn [increasingb]. intros H.
  apply andb_true_iff in H. destruct H as [H1 H2]. apply Z.ltb_lt in H1. auto.
Qed.

Lemma decodeItems_Ok (fam : Z) (o : ByteOrder) (place : Item -> Z)
      (items : list Item) (tags : list Tag) :
  increasingb (idsFrom (lastId tags) items) = true ->
  forallb (fun it => negb (itemCount it =? 0xFFFFFFFF)) items = true ->
  decodeItems o fam place items tags = Ok (tags ++ map (tagOfItem o fam place) items).
Proof.
  revert tags; induction items as [|it items IH]; intros tags Hs Hc.
  - cbn. rewrite app_nil_r. reflexivity.
  - cbn [forallb] in Hc. apply andb_true_iff in Hc. destruct Hc as [Hc1 Hc].
    apply negb_true_iff in Hc1. cbn [decodeItems]. rewrite Hc1.
    assert (Hnext : increasingb (itemId it :: map itemId items) = true).
    { destruct (lastId tags); cbn [idsFrom map] in Hs; [|exact Hs].
      apply increasingb_cons in Hs. tauto. }
    assert (Hfirst : match lastId tags with
                     | Some p => itemId it <=? p
                     | None => false
                     end = false).
    { destruct (lastId tags) as [p|]; [|reflexivity].
      cbn [idsFrom map] in Hs. apply increasingb_cons in Hs.
      destruct Hs as [_ Hs]. apply Z.leb_gt. exact Hs. }
    rewrite Hfirst. rewrite IH; [| rewrite lastId_snoc; exact Hnext | exact Hc].
    cbn [map]. rewrite <- app_assoc. reflexivity.
Qed.
Section OrderIndependence.
Variable FormatFloat32 FormatFloat64 : Z -> string.
Variable fam : Z.

Lemma decodeItems_logical (o1 o2 : ByteOrder) (p1 p2 : Item -> Z)
      (items : list Item) (tags1 tags2 : list Tag) :
  Forall (fun it => item_ok it = true) items ->
  forallb text_is_bytes items = true ->
  lastId tags1 = lastId tags2 ->
  map (logical FormatFloat32 FormatFloat64) tags1
  = map (logical FormatFloat32 FormatFloat64) tags2 ->
  rmap (map (logical FormatFloat32 FormatFloat64)) (decodeItems o1 fam p1 items tags1)
  = rmap (map (logical FormatFloat32 FormatFloat64)) (decodeItems o2 fam p2 items tags2).
Proof.
  intros Hok. revert tags1 tags2.
  induction Hok as [|it items Hit _ IH]; intros tags1 tags2 Htext Hlast Hlog.
  - cbn [decodeItems rmap rbind]. rewrite Hlog. reflexivity.
  - cbn [forallb] in Htext. apply andb_true_iff in Htext. destruct Htext as [Ht Htext].
    cbn [decodeItems]. rewrite Hlast.
    destruct (match lastId tags2 with Some p => itemId it <=? p | None => false end);
      [reflexivity|].
    destruct (itemCount it =? 0xFFFFFFFF); [reflexivity|].
    apply IH; [exact Htext | rewrite !lastId_snoc; reflexivity |].
    rewrite !map_app, Hlog. f_equal. cbn [map]. f_equal.
    unfold logical. cbn [tagOfItem Id Typ Count].
    rewrite (@Values_tagOfItem FormatFloat32 FormatFloat64 fam o1 p1 p1 it Hit Ht).
    rewrite (@Values_tagOfItem FormatFloat32 FormatFloat64 fam o2 p2 p1 it Hit Ht).
    reflexivity.
Qed.

End OrderIndependence.

Lemma held_item_ok (o : ByteOrder) (s : list byte) (place : Item -> Z)
      (items : list Item) :
  Forall (item_held o s place) items -> Forall (fun it => item_ok it = true) items.
Proof. apply Forall_impl. intros it [H _]. exact H. Qed.

Section ByteOrderIndependence.
Variable FormatFloat32 FormatFloat64 : Z -> string.

(** C6, as the code has it.  Let a content be held once by a buffer with a
    little-endian header and once by a buffer with a big-endian header,
    anywhere in the two buffers, and let the payloads of the tags with the
    bypass ids 0x2bc and 0x9286 be made of single bytes.  Then [readOrder]
    and [readTags] (without a rebase) give the same logical values on the
    two buffers: the same ids, types, counts and printed values, or the same
    error.  With increasing ids and no sentinel count both succeed, and the
    ids, types and counts are those of the content. *)
Theorem byte_order_independent (items : list Item) (s1 s2 : list byte)
        (at1 at2 fam : Z) (p1 p2 : Item -> Z) :
  has_header LittleEndian s1 = true ->
  holds LittleEndian s1 at1 p1 items = true ->
  has_header BigEndian s2 = true ->
  holds BigEndian s2 at2 p2 items = true ->
  forallb text_is_bytes items = true ->
  rmap (map (logical FormatFloat32 FormatFloat64))
       (fst (readRoot at1 fam (mkReader s1 0)))
  = rmap (map (logical FormatFloat32 FormatFloat64))
         (fst (readRoot at2 fam (mkReader s2 0))) /\
  (increasingb (map itemId items) = true ->
   forallb (fun it => negb (itemCount it =? 0xFFFFFFFF)) items = true ->
   exists tags1 tags2,
     fst (readRoot at1 fam (mkReader s1 0)) = Ok tags1 /\
     fst (readRoot at2 fam (mkReader s2 0)) = Ok tags2 /\
     map (logical FormatFloat32 FormatFloat64) tags1
     = map (logical FormatFloat32 FormatFloat64) tags2 /\
     map Id tags1 = map itemId items /\
     map Typ tags1 = map itemType items /\
     map Count tags1 = map itemCount items).
Proof.
  intros Hh1 Hholds1 Hh2 Hholds2 Htext.
  rewrite (@readRoot_holds LittleEndian s1 at1 fam p1 items Hh1 Hholds1).
  rewrite (@readRoot_holds BigEndian s2 at2 fam p2 items Hh2 Hholds2).
  apply holds_facts in Hholds1. destruct Hholds1 as (_ & _ & _ & _ & HF1 & _).
  assert (Hsame : rmap (map (logical FormatFloat32 FormatFloat64))
                       (decodeItems LittleEndian fam p1 items [])
                  = rmap (map (logical FormatFloat32 FormatFloat64))
                         (decodeItems BigEndian fam p2 items [])).
  { apply decodeItems_logical; auto. eapply held_item_ok. exact HF1. }
  split; [exact Hsame|].
  intros Hs Hc.
  rewrite (@decodeItems_Ok fam LittleEndian p1 items [] Hs Hc) in Hsame |- *.
  rewrite (@decodeItems_Ok fam BigEndian p2 items [] Hs Hc) in Hsame |- *.
  cbn [app rmap rbind] in Hsame. injection Hsame as Hsame.
  eexists. eexists. split; [reflexivity|]. split; [reflexivity|].
  split; [exact Hsame|].
  cbn [app]. rewrite !map_map. repeat split; apply map_ext; reflexivity.
Qed.
End ByteOrderIndependence.

Lemma byte_order_independent_witness :
  fst (readRoot 8 Tiff (mkReader (sample_buffer LittleEndian) 0))
  <> fst (readRoot 8 Tiff (mkReader (sample_buffer BigEndian) 0)) /\
  rmap (map (logical noFloat noFloat))
       (fst (readRoot 8 Tiff (mkReader (sample_buffer LittleEndian) 0)))
  = rmap (map (logical noFloat noFloat))
         (fst (readRoot 8 Tiff (mkReader (sample_buffer BigEndian) 0))) /\
  rmap (map (logical noFloat noFloat))
       (fst (readRoot 8 Tiff (mkReader (sample_buffer BigEndian) 0)))
  = Ok [ (0x100, Format.Short, 1, Ok ["640"%string]);
         (0x111, Format.Long, 2, Ok ["16909060"%string; "7"%string]);
         (0x131, Format.String, 3, Ok ["NEF"%string]);
         (0x829a, Format.Rational, 1, Ok ["1/3"%string]) ].
Proof.
  split; [vm_compute; congruence|].
  split; [|vm_compute; reflexivity].
  apply (@byte_order_independent noFloat noFloat sample_items
           (sample_buffer LittleEndian) (sample_buffer BigEndian) 8 8 Tiff
           sample_place sample_place); vm_compute; reflexivity.
Defined.

(** C6, as stated, fails: the bypass ids print the raw bytes of the
    payload.  A UserComment (0x9286) that holds the Long 0x41424344 reads
    "DCBA" in the little-endian file and "ABCD" in the big-endian file. *)
Lemma comment_depends_on_byte_order :
  has_header LittleEndian (comment_buffer LittleEndian) = true /\
  holds LittleEndian (comment_buffer LittleEndian) 8 sample_place comment_items = true /\
  has_header BigEndian (comment_buffer BigEndian) = true /\
  holds BigEndian (comment_buffer BigEndian) 8 sample_place comment_items = true /\
  rmap (map (logical noFloat noFloat))
       (fst (readRoot 8 Tiff (mkReader (comment_buffer LittleEndian) 0)))
  = Ok [(Comment, Format.Long, 1, Ok ["DCBA"%string])] /\
  rmap (map (logical noFloat noFloat))
       (fst (readRoot 8 Tiff (mkReader (comment_buffer BigEndian) 0)))
  = Ok [(Comment, Format.Long, 1, Ok ["ABCD"%string])] /\
  map (fun f => map (logical noFloat noFloat) (tiff f))
      (decoded (comment_buffer LittleEndian))
  <> map (fun f => map (logical noFloat noFloat) (tiff f))
         (decoded (comment_buffer BigEndian)).
Proof. vm_compute. repeat split; congruence. Qed.

(* ------------------------------------------------------------------ *)
(** ** Every decoded File has vectors with increasing ids *)

Lemma bind_Ok {A B} (m : M A) (k : A -> M B) (r r' : Reader) (b : B) :
  bind m k r = (Ok b, r') ->
  exists a r1, m r = (Ok a, r1) /\ k a r1 = (Ok b, r').
Proof.
  unfold bind. destruct (m r) as [[a| |] r1]; try discriminate. eauto.
Qed.

Lemma deferSeek_Ok {A} (offset : Z) (body : M A) (r r' : Reader) (a : A) :
  deferSeek offset body r = (Ok a, r') -> exists r1, body r = (Ok a, r1).
Proof.
  unfold deferSeek. destruct (body r) as [res r1]. intros [= -> _]. eauto.
Qed.

Lemma readTags_ascending (o : ByteOrder) (at_ delta fam : Z) (tags : list Tag)
      (r r' : Reader) :
  readTags o at_ delta fam r = (Ok tags, r') -> ascending tags.
Proof. intros H. apply readTags_directory_ok in H. apply H. Qed.

Lemma exifTags_ascending (o : ByteOrder) (tags res : list Tag) (r r' : Reader) :
  exifTags o tags r = (Ok res, r') -> ascending res.
Proof.
  unfold exifTags. destruct (find tags Exif).
  - apply readTags_ascending.
  - unfold ret. intros [= <- _]. reflexivity.
Qed.

Lemma gpsTags_ascending (o : ByteOrder) (tags res : list Tag) (r r' : Reader) :
  gpsTags o tags r = (Ok res, r') -> ascending res.
Proof.
  unfold gpsTags. destruct (find tags Gps).
  - apply readTags_ascending.
  - unfold ret. intros [= <- _]. reflexivity.
Qed.

Lemma notesTags_ascending (tags res : list Tag) (r r' : Reader) :
  notesTags tags r = (Ok res, r') -> ascending res.
Proof.
  unfold notesTags. destruct (find tags Note) as [t|].
  - intros H. apply bind_Ok in H. destruct H as (_ & r1 & _ & H).
    apply bind_Ok in H. destruct H as (preamble & r2 & _ & H).
    destruct (negb (bytes_eqb (slice preamble 0 6) nikon)).
    + unfold ret in H. injection H as <- _. reflexivity.
    + apply bind_Ok in H. destruct H as (o & r3 & _ & H).
      apply bind_Ok in H. destruct H as (offset & r4 & _ & H).
      apply readTags_ascending in H. exact H.
  - unfold ret. intros [= <- _]. reflexivity.
Qed.

Lemma forEach_Forall {A B} (f : A -> M B) (P : B -> Prop) (l : list A) :
  (forall a r r' b, f a r = (Ok b, r') -> P b) ->
  forall r r' bs, forEach f l r = (Ok bs, r') -> Forall P bs.
Proof.
  intros Hf. induction l as [|a l IH]; intros r r' bs H.
  - cbn in H. unfold ret in H. injection H as <- _. constructor.
  - cbn [forEach] in H. apply bind_Ok in H. destruct H as (b & r1 & Hb & H).
    apply bind_Ok in H. destruct H as (bs' & r2 & Hbs & H).
    unfold ret in H. injection H as <- _.
    constructor; [eapply Hf; exact Hb | eapply IH; exact Hbs].
Qed.

Lemma subTags_ascending (o : ByteOrder) (tags : list Tag) (data : list (list Tag))
      (r r' : Reader) :
  subTags o tags r = (Ok data, r') -> Forall ascending data.
Proof.
  unfold subTags. destruct (find tags Nef) as [t|].
  - intros H. apply bind_Ok in H. destruct H as (_ & r1 & _ & H).
    apply bind_Ok in H. destruct H as (pos & r2 & _ & H).
    revert H. apply forEach_Forall. intros p ra rb ts. apply readTags_ascending.
  - unfold ret. intros [= <- _]. constructor.
Qed.

Lemma buildFile_ok (b : list byte) (o : ByteOrder) (index : Z)
      (tags fexif fgps fnotes : list Tag) (data : list (list Tag)) :
  ascending tags -> ascending fexif -> ascending fgps -> ascending fnotes ->
  Forall ascending data ->
  file_ok (buildFile b o index tags fexif fgps fnotes data).
Proof.
  intros Ht He Hg Hn Hd. unfold file_ok, vectors_ascending, buildFile.
  cbn [tiff exif notes gps Files]. repeat split; try assumption.
  generalize 0 as k. induction Hd as [|ts data Hts _ IH]; intros k; cbn [indexed map].
  - constructor.
  - constructor; [|apply IH]. cbn [tiff exif notes gps snd]. repeat split; assumption.
Qed.

Lemma readDirectory_ok (o : ByteOrder) (at_ index : Z) (f : File) (r r' : Reader) :
  readDirectory o at_ index r = (Ok f, r') -> file_ok f.
Proof.
  unfold readDirectory. intros H.
  apply bind_Ok in H. destruct H as (tags & r1 & Htags & H).
  apply bind_Ok in H. destruct H as (offset & r2 & _ & H).
  apply deferSeek_Ok in H. destruct H as (r3 & H).
  apply bind_Ok in H. destruct H as (fexif & r4 & Hexif & H).
  apply bind_Ok in H. destruct H as (fgps & r5 & Hgps & H).
  apply bind_Ok in H. destruct H as (fnotes & r6 & Hnotes & H).
  apply bind_Ok in H. destruct H as (data & r7 & Hdata & H).
  injection H as <- _.
  apply buildFile_ok.
  - eapply readTags_ascending; exact Htags.
  - eapply exifTags_ascending; exact Hexif.
  - eapply gpsTags_ascending; exact Hgps.
  - eapply notesTags_ascending; exact Hnotes.
  - eapply subTags_ascending; exact Hdata.
Qed.

Lemma decodeLoop_ok (fuel : nat) (o : ByteOrder) (offset i : Z)
      (files res : list File) (r : Reader) :
  Forall file_ok files ->
  decodeLoop fuel o offset i files r = Some (Ok res) -> Forall file_ok res.
Proof.
  revert offset i files r; induction fuel as [|fuel IH]; intros offset i files r Hf H.
  - cbn [decodeLoop] in H. destruct (offset =? 0); [|discriminate].
    injection H as <-. exact Hf.
  - cbn [decodeLoop] in H. destruct (offset =? 0).
    { injection H as <-. exact Hf. }
    destruct (readDirectory o offset i r) as [[f| |] r1] eqn:Ed; try discriminate.
    assert (Hf' : Forall file_ok (files ++ [f])).
    { apply Forall_app. split; [exact Hf|]. constructor; [|constructor].
      eapply readDirectory_ok; exact Ed. }
    destruct (binary_Read 4 o r1) as [[offset'|e|] r2].
    + eapply IH; [exact Hf' | exact H].
    + destruct e; try discriminate. injection H as <-. exact Hf'.
    + discriminate.
Qed.

(** The Files that [Decode] returns, and their children, have vectors with
    strictly increasing ids: the binary searches of the accessors are on
    sorted vectors. *)
Lemma Decode_ok (fuel : nat) (b : list byte) (files : list File) :
  Decode fuel b = Some (Ok files) -> Forall file_ok files.
Proof.
  unfold Decode.
  destruct (readOrder (mkReader b 0)) as [[o| |] r]; try discriminate.
  destruct (binary_Read 4 o r) as [[offset| |] r1]; try discriminate.
  apply decodeLoop_ok. constructor.
Qed.

(** A property of the tags read so far that every round keeps is a property
    of the directory. *)
Lemma readEntries_invariant (P : list Tag -> Prop) (o : ByteOrder) (delta fam : Z) :
  (forall s tags g tags',
      P tags -> decodeEntry s o delta fam tags g = Ok tags' -> P tags') ->
  forall n tags r tags' r',
    P tags -> readEntries n o delta fam tags r = (Ok tags', r') -> P tags'.
Proof.
  intros Hstep. induction n as [|n IH]; intros tags r tags' r' H0 H.
  - cbn in H. unfold ret in H. injection H as <- _. exact H0.
  - cbn [readEntries] in H. apply bind_Ok in H. destruct H as (tags1 & r1 & H1 & H).
    eapply IH; [|exact H].
    unfold readEntry in H1. apply bind_Ok in H1. destruct H1 as (g & r2 & _ & H1).
    destruct (decodeEntry (buf r2) o delta fam tags g) as [tags2| |] eqn:E;
      try discriminate.
    injection H1 as <- _. eapply Hstep; [exact H0 | exact E].
Qed.

(** The raw bytes of a tag that [readTags] builds: four bytes for a payload
    of up to four bytes, the payload otherwise; and its order is the order
    of the directory. *)
Lemma readTags_raw_len (o : ByteOrder) (at_ delta fam : Z) (tags : list Tag)
      (r r' : Reader) :
  readTags o at_ delta fam r = (Ok tags, r') ->
  Forall (fun t => len (Raw t) = Z.max 4 (TagM.Size t) /\ order t = Some o) tags.
Proof.
  unfold readTags. intros H.
  apply bind_Ok in H. destruct H as (_ & r1 & _ & H).
  apply bind_Ok in H. destruct H as (count & r2 & _ & H).
  revert H. apply readEntries_invariant; [|constructor].
  intros s tags0 g tags1 Hall E. apply decodeEntry_Ok in E.
  destruct E as (raw & -> & _ & _ & Hraw).
  apply Forall_app. split; [exact Hall|]. constructor; [|constructor].
  cbn [Raw order]. split; [|reflexivity].
  unfold TagM.Size. cbn [Typ Count]. fold (descSize o g).
  destruct (Z.ltb_spec 4 (descSize o g)) as [Hz|Hz].
  - pose proof (add32_range (descValue o g) delta).
    apply SectionReadFull_Ok in Hraw; lia.
  - subst raw. unfold PutUint32, len. rewrite put_uint_length. lia.
Qed.

(** A Rational tag that [readTags] builds holds all its elements. *)
Lemma readTags_Rational_complete (o : ByteOrder) (at_ delta fam : Z)
      (tags : list Tag) (r r' : Reader) (t : Tag) :
  readTags o at_ delta fam r = (Ok tags, r') -> In t tags ->
  Typ t = Format.Rational -> 8 * Count t <= len (Raw t).
Proof.
  intros H Hin Hty. apply readTags_raw_len in H.
  rewrite Forall_forall in H. destruct (H t Hin) as [Hl _].
  unfold TagM.Size in Hl. rewrite Hty in Hl.
  change (Format.Size Format.Rational) with 8 in Hl. lia.
Qed.

(** The value of a Long tag of count 1 is its [Offset] field: the raw bytes
    of an inline tag are written from that field. *)
Lemma Long_value_is_Offset (o : ByteOrder) (at_ delta fam : Z)
      (tags : list Tag) (r r' : Reader) (t : Tag) :
  readTags o at_ delta fam r = (Ok tags, r') -> In t tags ->
  Typ t = Format.Long -> Count t <= 1 -> TagM.Uint t = Ok (Offset t).
Proof.
  unfold readTags. intros H.
  apply bind_Ok in H. destruct H as (_ & r1 & _ & H).
  apply bind_Ok in H. destruct H as (count & r2 & _ & H).
  assert (HF : Forall (fun t => Typ t = Format.Long -> Count t <= 1 ->
                               TagM.Uint t = Ok (Offset t)) tags).
  { revert H. apply readEntries_invariant; [|constructor].
    intros s tags0 g tags1 Hall E. apply decodeEntry_Ok in E.
    destruct E as (raw & -> & _ & _ & Hraw).
    apply Forall_app. split; [exact Hall|]. constructor; [|constructor].
    cbn [Typ Count Offset]. intros Hty Hc.
    unfold descSize in Hraw. rewrite Hty in Hraw.
    change (Format.Size Format.Long) with 4 in Hraw.
    destruct (Z.ltb_spec 4 (4 * descCount o g)); [lia|]. subst raw.
    unfold TagM.Uint. cbn [Typ Raw order]. rewrite Hty. cbn [Z.eqb Format.Long Format.Byte Format.Short].
    unfold Uint32, UintN, PutUint32.
    replace (len (put_uint o 4 (add32 (descValue o g) delta))) with 4
      by (unfold len; rewrite put_uint_length; reflexivity).
    cbn [Z.ltb Z.compare Pos.compare Pos.compare_cont].
    replace (slice (put_uint o 4 (add32 (descValue o g) delta)) 0 4)
      with (put_uint o 4 (add32 (descValue o g) delta)).
    - rewrite get_put_uint. change (256 ^ Z.of_nat 4) with (2 ^ 32).
      rewrite Z.mod_small by apply add32_range. reflexivity.
    - symmetry. rewrite <- (slice_all (put_uint o 4 (add32 (descValue o g) delta))) at 2.
      unfold len. rewrite put_uint_length. reflexivity. }
  intros Hin. rewrite Forall_forall in HF. exact (HF t Hin).
Qed.

(** The two sample buffers decode alike through [Decode] as well. *)
Lemma sample_decodes_alike :
  map (fun f => map (logical noFloat noFloat) (tiff f))
      (decoded (sample_buffer LittleEndian))
  = map (fun f => map (logical noFloat noFloat) (tiff f))
        (decoded (sample_buffer BigEndian)) /\
  List.length (decoded (sample_buffer LittleEndian)) = 1%nat.
Proof. vm_compute. split; reflexivity. Qed.

(* ================================================================== *)
(** * Further properties of the package *)

(* ------------------------------------------------------------------ *)
(** ** readOrder *)

Lemma bytes_eqb_iff (a b : list byte) : bytes_eqb a b = true <-> a = b.
Proof.
  unfold bytes_eqb. destruct (list_eq_dec Byte.byte_eq_dec a b); split; intros H;
    congruence.
Qed.

Lemma readOrder_long (b0 b1 b2 b3 : byte) (rest : list byte) :
  readOrder (mkReader (b0 :: b1 :: b2 :: b3 :: rest) 0)
  = ((if bytes_eqb [b0; b1] little then
        if bytes_eqb [b2; b3] magicle then Ok LittleEndian else Err ErrMagic
      else if bytes_eqb [b0; b1] big then
        if bytes_eqb [b2; b3] magicbe then Ok BigEndian else Err ErrMagic
      else Err ErrByteOrder),
     mkReader (b0 :: b1 :: b2 :: b3 :: rest) 4).
Proof.
  unfold readOrder, bind.
  rewrite ReadFull_ok; [| lia | lia | rewrite !len_cons; pose proof (len_nonneg rest); lia].
  change (slice (b0 :: b1 :: b2 :: b3 :: rest) 0 4) with [b0; b1; b2; b3].
  change (slice [b0; b1; b2; b3] 0 2) with [b0; b1].
  change (from 2 [b0; b1; b2; b3]) with [b2; b3].
  destruct (bytes_eqb [b0; b1] little).
  - destruct (bytes_eqb [b2; b3] magicle); reflexivity.
  - destruct (bytes_eqb [b0; b1] big); [|reflexivity].
    destruct (bytes_eqb [b2; b3] magicbe); reflexivity.
Qed.

(** X1.  [readOrder] accepts exactly the two headers, "II" with the magic number
    in little-endian order and "MM" with it in big-endian order, and then
    leaves the reader behind the header; with fewer than four bytes it fails
    as truncated, on any other four bytes as an invalid header. *)
Theorem readOrder_accepts_two_headers (s : list byte) (o : ByteOrder) :
  (fst (readOrder (mkReader s 0)) = Ok o <-> slice s 0 4 = header o) /\
  (slice s 0 4 = header o -> snd (readOrder (mkReader s 0)) = mkReader s 4) /\
  (len s < 4 ->
   exists e, fst (readOrder (mkReader s 0)) = Err e /\ kind e = Truncated) /\
  (4 <= len s ->
   slice s 0 4 <> header LittleEndian -> slice s 0 4 <> header BigEndian ->
   exists e, fst (readOrder (mkReader s 0)) = Err e /\ kind e = HeaderInvalid).
Proof.
  destruct s as [|b0 [|b1 [|b2 [|b3 rest]]]];
    try (repeat split;
         [ intros H; vm_compute in H; discriminate
         | intros H; destruct o; vm_compute in H; discriminate
         | intros H; destruct o; vm_compute in H; discriminate
         | intros _; eexists; split; vm_compute; reflexivity
         | intros H; vm_compute in H; exfalso; apply H; reflexivity ]).
  rewrite readOrder_long. cbn [fst snd].
  change (slice (b0 :: b1 :: b2 :: b3 :: rest) 0 4) with [b0; b1; b2; b3].
  assert (Hsplit : forall x y z w : byte,
             [b0; b1; b2; b3] = [x; y; z; w] <-> [b0; b1] = [x; y] /\ [b2; b3] = [z; w]).
  { intros x y z w. split; [intros [= -> -> -> ->]; auto | intros [[= -> ->] [= -> ->]]; auto]. }
  assert (Hne1 : little <> big) by discriminate.
  repeat split.
  - destruct (bytes_eqb [b0; b1] little) eqn:E1.
    + apply bytes_eqb_iff in E1.
      destruct (bytes_eqb [b2; b3] magicle) eqn:E2; [|discriminate].
      apply bytes_eqb_iff in E2. intros [= <-]. apply Hsplit. auto.
    + destruct (bytes_eqb [b0; b1] big) eqn:E3; [|discriminate].
      apply bytes_eqb_iff in E3.
      destruct (bytes_eqb [b2; b3] magicbe) eqn:E4; [|discriminate].
      apply bytes_eqb_iff in E4. intros [= <-]. apply Hsplit. auto.
  - intros H. destruct o; apply Hsplit in H; destruct H as [H1 H2].
    + assert (E1 : bytes_eqb [b0; b1] little = true) by (apply bytes_eqb_iff; exact H1).
      assert (E2 : bytes_eqb [b2; b3] magicle = true) by (apply bytes_eqb_iff; exact H2).
      rewrite E1, E2. reflexivity.
    + destruct (bytes_eqb [b0; b1] little) eqn:E1.
      { apply bytes_eqb_iff in E1. rewrite E1 in H1. discriminate. }
      assert (E3 : bytes_eqb [b0; b1] big = true) by (apply bytes_eqb_iff; exact H1).
      assert (E4 : bytes_eqb [b2; b3] magicbe = true) by (apply bytes_eqb_iff; exact H2).
      rewrite E3, E4. reflexivity.
  - rewrite !len_cons. pose proof (len_nonneg rest). lia.
  - intros _ Hle Hbe.
    destruct (bytes_eqb [b0; b1] little) eqn:E1.
    + destruct (bytes_eqb [b2; b3] magicle) eqn:E2.
      * exfalso. apply Hle. apply Hsplit. split; apply bytes_eqb_iff; assumption.
      * exists ErrMagic. split; reflexivity.
    + destruct (bytes_eqb [b0; b1] big) eqn:E3.
      * destruct (bytes_eqb [b2; b3] magicbe) eqn:E4.
        -- exfalso. apply Hbe. apply Hsplit. split; apply bytes_eqb_iff; assumption.
        -- exists ErrMagic. split; reflexivity.
      * exists ErrByteOrder. split; reflexivity.
Qed.

(* ------------------------------------------------------------------ *)
(** ** readTags: the directory it returns *)

Lemma ReadFull_Ok_inv (s : list byte) (p w : Z) (bs : list byte) (r' : Reader) :
  0 < w -> ReadFull w (mkReader s p) = (Ok bs, r') ->
  p + w <= len s /\ bs = slice s p w /\ r' = mkReader s (p + w).
Proof.
  intros Hw. unfold ReadFull. cbn [buf pos].
  destruct (Z.leb_spec w 0); [lia|].
  destruct (Z.leb_spec (len s) p); [discriminate|].
  destruct (Z.ltb_spec (len s - p) w); [discriminate|].
  intros [= <- <-]. repeat split. lia.
Qed.

Lemma decodeEntry_tagOf (s : list byte) (o : ByteOrder) (delta fam : Z)
      (tags tags' : list Tag) (g : list byte) :
  decodeEntry s o delta fam tags g = Ok tags' ->
  tags' = tags ++ [tagOf s o delta fam g].
Proof.
  intros H. apply decodeEntry_Ok in H. destruct H as (raw & -> & _ & _ & Hraw).
  unfold tagOf. do 3 f_equal.
  destruct (Z.ltb_spec 4 (descSize o g)) as [Hz|Hz]; [|exact Hraw].
  pose proof (add32_range (descValue o g) delta).
  apply SectionReadFull_Ok in Hraw; try lia. tauto.
Qed.

Lemma readEntries_Ok_inv (s : list byte) (o : ByteOrder) (delta fam : Z)
      (n : nat) (tags0 tags : list Tag) (p : Z) (r' : Reader) :
  p <= len s ->
  readEntries n o delta fam tags0 (mkReader s p) = (Ok tags, r') ->
  p + 12 * Z.of_nat n <= len s /\
  tags = tags0 ++ map (tagOf s o delta fam)
                      (map (fun k => slice s (p + 12 * k) 12) (zseq 0 n)) /\
  r' = mkReader s (p + 12 * Z.of_nat n).
Proof.
  revert tags0 p; induction n as [|n IH]; intros tags0 p Hp H.
  - cbn in H. unfold ret in H. injection H as <- <-.
    cbn [zseq map]. rewrite app_nil_r, Z.mul_0_r, Z.add_0_r. auto.
  - cbn [readEntries] in H. apply bind_Ok in H. destruct H as (tags1 & r1 & H1 & H).
    unfold readEntry in H1. apply bind_Ok in H1. destruct H1 as (g & r2 & Hg & H1).
    apply ReadFull_Ok_inv in Hg; [|lia]. destruct Hg as (Hfit & -> & ->).
    cbn [buf] in H1.
    destruct (decodeEntry s o delta fam tags0 (slice s p 12)) as [tags2| |] eqn:E;
      try discriminate.
    injection H1 as <- <-. apply decodeEntry_tagOf in E. subst tags2.
    apply IH in H; [|lia]. destruct H as (Hfit' & -> & ->).
    split; [lia|]. split.
    + cbn [zseq map]. rewrite Z.mul_0_r, Z.add_0_r, <- app_assoc. cbn [app].
      do 2 f_equal. rewrite (zseq_succ 0 n), !map_map. apply map_ext.
      intros k. do 2 f_equal. lia.
    + f_equal. lia.
Qed.

(** X2.  A directory that [readTags] decodes, at an offset [at_] that is not
    negative: all the descriptors that its count announces are in the
    buffer, there is one tag per descriptor, in the order of the file, with
    the fields of the descriptor, the rebased offset and the raw bytes of
    [tagOf]; the reader is left behind the last descriptor, where the offset
    of the next directory is. *)
Theorem readTags_decoded (o : ByteOrder) (at_ delta fam : Z) (r r' : Reader)
        (tags : list Tag) :
  0 <= at_ ->
  readTags o at_ delta fam r = (Ok tags, r') ->
  let n := get_uint o (slice (buf r) at_ 2) in
  at_ + 2 + 12 * n <= len (buf r) /\
  tags = map (tagOf (buf r) o delta fam) (descriptors (buf r) (at_ + 2) (Z.to_nat n)) /\
  len tags = n /\
  r' = mkReader (buf r) (at_ + 2 + 12 * n).
Proof.
  intros Hat H n. unfold readTags in H.
  apply bind_Ok in H. destruct H as (u & r1 & Hseek & H).
  cbn [SeekStart] in Hseek. injection Hseek as _ <-.
  apply bind_Ok in H. destruct H as (count & r2 & Hcount & H).
  unfold binary_Read in Hcount.
  destruct (ReadFull 2 (mkReader (buf r) at_)) as [[bs| |] r3] eqn:E; try discriminate.
  injection Hcount as <- <-.
  apply ReadFull_Ok_inv in E; [|lia]. destruct E as (Hfit & -> & ->).
  fold n in H. assert (Hn : 0 <= n) by apply get_uint_range.
  apply readEntries_Ok_inv in H; [|lia]. rewrite Z2Nat.id in H by lia.
  destruct H as (Hfit' & -> & ->). cbn [app].
  split; [lia|]. split; [reflexivity|]. split.
  - unfold len, descriptors. rewrite !length_map, zseq_length. lia.
  - f_equal; lia.
Qed.

Lemma readTags_decoded_witness :
  exists tags,
    fst (readTags LittleEndian 8 0 Tiff (mkReader strips_file 0)) = Ok tags /\
    len tags = 4 /\
    snd (readTags LittleEndian 8 0 Tiff (mkReader strips_file 0))
    = mkReader strips_file 58.
Proof.
  destruct (readTags LittleEndian 8 0 Tiff (mkReader strips_file 0)) as [res r'] eqn:E.
  destruct res as [tags| |]; try (vm_compute in E; discriminate).
  destruct (@readTags_decoded LittleEndian 8 0 Tiff (mkReader strips_file 0) r' tags
              ltac:(lia) E) as (_ & _ & Hlen & Hr).
  exists tags. split; [reflexivity|]. split; [rewrite Hlen; vm_compute; reflexivity|].
  rewrite Hr. vm_compute. reflexivity.
Defined.

(* ------------------------------------------------------------------ *)
(** ** The errors of the directory reader *)

Lemma only_kinds_incl {A} (ks ks' : list ErrorKind) (x : result A) :
  incl ks ks' -> only_kinds ks x -> only_kinds ks' x.
Proof. intros Hi. destruct x; cbn; auto. Qed.

Lemma bind_kinds {A B} (ks : list ErrorKind) (m : M A) (k : A -> M B) :
  (forall r, only_kinds ks (fst (m r))) ->
  (forall a r, only_kinds ks (fst (k a r))) ->
  forall r, only_kinds ks (fst (bind m k r)).
Proof.
  intros Hm Hk r. unfold bind. specialize (Hm r).
  destruct (m r) as [[a|e|] r1]; cbn [fst] in *; [apply Hk | exact Hm | exact Hm].
Qed.

Lemma ReadFull_kinds (w : Z) (r : Reader) : only_kinds [Truncated] (fst (ReadFull w r)).
Proof.
  unfold ReadFull.
  destruct (w <=? 0); [exact I|].
  destruct (len (buf r) <=? pos r); [left; reflexivity|].
  destruct (len (buf r) - pos r <? w); [left; reflexivity | exact I].
Qed.

Lemma binary_Read_kinds (w : Z) (o : ByteOrder) (r : Reader) :
  only_kinds [Truncated] (fst (binary_Read w o r)).
Proof.
  unfold binary_Read. pose proof (ReadFull_kinds w r) as H.
  destruct (ReadFull w r) as [[bs|e|] r1]; exact H.
Qed.

Lemma decodeEntry_kinds (s : list byte) (o : ByteOrder) (delta fam : Z)
      (tags : list Tag) (g : list byte) :
  only_kinds [Truncated; DirectoryCorrupt] (decodeEntry s o delta fam tags g).
Proof.
  rewrite decodeEntry_eq.
  destruct (match lastId tags with Some p => descId o g <=? p | None => false end);
    [right; left; reflexivity|].
  destruct (descCount o g =? 0xFFFFFFFF); [right; left; reflexivity|].
  destruct (4 <? descSize o g); [|exact I].
  destruct (SectionReadFull_cases s (add32 (descValue o g) delta) (descSize o g))
    as [(raw & E)|[E|E]]; rewrite E; cbn; auto.
Qed.

Lemma readEntries_kinds (n : nat) (o : ByteOrder) (delta fam : Z)
      (tags : list Tag) (r : Reader) :
  only_kinds [Truncated; DirectoryCorrupt] (fst (readEntries n o delta fam tags r)).
Proof.
  revert tags r; induction n as [|n IH]; intros tags r; [exact I|].
  cbn [readEntries]. apply bind_kinds; [|intros; apply IH].
  intros r0. unfold readEntry. apply bind_kinds.
  - intros r1. eapply only_kinds_incl; [|apply ReadFull_kinds].
    intros k [<-|[]]. left. reflexivity.
  - intros g r1. cbn [fst]. apply decodeEntry_kinds.
Qed.

Lemma readTags_kinds (o : ByteOrder) (at_ delta fam : Z) (r : Reader) :
  only_kinds [Truncated; DirectoryCorrupt] (fst (readTags o at_ delta fam r)).
Proof.
  unfold readTags. apply bind_kinds; [intros; exact I|]. intros _ r1.
  apply bind_kinds; [|intros; apply readEntries_kinds].
  intros r2. eapply only_kinds_incl; [|apply binary_Read_kinds].
  intros k [<-|[]]. left. reflexivity.
Qed.

Lemma readOrder_kinds (r : Reader) :
  only_kinds [HeaderInvalid; Truncated] (fst (readOrder r)).
Proof.
  unfold readOrder. apply bind_kinds.
  - intros r1. eapply only_kinds_incl; [|apply ReadFull_kinds].
    intros k [<-|[]]. right. left. reflexivity.
  - intros intro r1.
    destruct (bytes_eqb (slice intro 0 2) little).
    { destruct (bytes_eqb (from 2 intro) magicle); cbn; auto. }
    destruct (bytes_eqb (slice intro 0 2) big); [|cbn; auto].
    destruct (bytes_eqb (from 2 intro) magicbe); cbn; auto.
Qed.

Lemma times_or_zero_kinds (ks : list ErrorKind) (n : nat) (w : Z) (o : ByteOrder)
      (r : Reader) :
  only_kinds ks (fst (times n (or_zero (binary_Read w o)) r)).
Proof.
  revert r; induction n as [|n IH]; intros r; [exact I|].
  cbn [times]. apply bind_kinds.
  - intros r1. unfold or_zero. pose proof (binary_Read_kinds w o r1) as H.
    destruct (binary_Read w o r1) as [[v|e|] r2]; cbn in *; auto.
  - intros v r1. apply bind_kinds; [apply IH | intros; exact I].
Qed.

Lemma forEach_kinds {A B} (ks : list ErrorKind) (f : A -> M B) (l : list A) :
  (forall a r, only_kinds ks (fst (f a r))) ->
  forall r, only_kinds ks (fst (forEach f l r)).
Proof.
  intros Hf. induction l as [|a l IH]; intros r; [exact I|].
  cbn [forEach]. apply bind_kinds; [apply Hf|]. intros b r1.
  apply bind_kinds; [apply IH | intros; exact I].
Qed.

Lemma readTags_kinds3 (o : ByteOrder) (at_ delta fam : Z) (r : Reader) :
  only_kinds [HeaderInvalid; Truncated; DirectoryCorrupt]
             (fst (readTags o at_ delta fam r)).
Proof.
  eapply only_kinds_incl; [|apply readTags_kinds].
  intros k [<-|[<-|[]]]; cbn; auto.
Qed.

Lemma readDirectory_kinds (o : ByteOrder) (at_ index : Z) (r : Reader) :
  only_kinds [HeaderInvalid; Truncated; DirectoryCorrupt]
             (fst (readDirectory o at_ index r)).
Proof.
  unfold readDirectory. apply bind_kinds; [intros; apply readTags_kinds3|].
  intros tags r1. apply bind_kinds; [intros; exact I|]. intros offset r2.
  unfold deferSeek.
  match goal with |- context [let (_, _) := ?b r2 in _] =>
    assert (H : only_kinds [HeaderInvalid; Truncated; DirectoryCorrupt] (fst (b r2)));
      [| destruct (b r2); exact H]
  end.
  apply bind_kinds.
  { intros r3. unfold exifTags. destruct (find tags Exif);
      [apply readTags_kinds3 | exact I]. }
  intros fexif r3. apply bind_kinds.
  { intros r4. unfold gpsTags. destruct (find tags Gps);
      [apply readTags_kinds3 | exact I]. }
  intros fgps r4. apply bind_kinds.
  { intros r5. unfold notesTags. destruct (find fexif Note) as [t|]; [|exact I].
    apply bind_kinds; [intros; exact I|]. intros _ r6.
    apply bind_kinds.
    { intros r7. eapply only_kinds_incl; [|apply ReadFull_kinds].
      intros k [<-|[]]. cbn; auto. }
    intros preamble r7.
    destruct (negb (bytes_eqb (slice preamble 0 6) nikon)); [exact I|].
    apply bind_kinds.
    { intros r8. eapply only_kinds_incl; [|apply readOrder_kinds].
      intros k [<-|[<-|[]]]; cbn; auto. }
    intros o' r8. apply bind_kinds; [|intros; apply readTags_kinds3].
    intros r9. eapply only_kinds_incl; [|apply binary_Read_kinds].
    intros k [<-|[]]. cbn; auto. }
  intros fnotes r5. apply bind_kinds; [|intros; exact I].
  intros r6. unfold subTags. destruct (find tags Nef) as [t|]; [|exact I].
  apply bind_kinds; [intros; exact I|]. intros _ r7.
  apply bind_kinds; [intros; apply times_or_zero_kinds|].
  intros pos r8. apply forEach_kinds. intros p r9. apply readTags_kinds3.
Qed.

Lemma decodeLoop_kinds (fuel : nat) (o : ByteOrder) (offset i : Z)
      (files : list File) (r : Reader) (x : result (list File)) :
  decodeLoop fuel o offset i files r = Some x ->
  only_kinds [HeaderInvalid; Truncated; DirectoryCorrupt] x.
Proof.
  revert offset i files r; induction fuel as [|fuel IH]; intros offset i files r H;
    cbn [decodeLoop] in H.
  - destruct (offset =? 0); [|discriminate]. injection H as <-. exact I.
  - destruct (offset =? 0); [injection H as <-; exact I|].
    pose proof (readDirectory_kinds o offset i r) as Hd.
    destruct (readDirectory o offset i r) as [[f|e|] r1]; cbn [fst] in Hd;
      [| injection H as <-; exact Hd | destruct Hd].
    pose proof (binary_Read_kinds 4 o r1) as Hb.
    destruct (binary_Read 4 o r1) as [[offset'|e|] r2]; cbn [fst] in Hb.
    + eapply IH; exact H.
    + destruct e; injection H as <-; try exact I; cbn in Hb |- *;
        destruct Hb as [Hb|[]]; try discriminate; auto.
    + destruct Hb.
Qed.

(** X3.  [Decode] returns a forest or fails with an invalid header, a truncated
    read or a corrupt directory: it has no other error, and no panic. *)
Theorem Decode_fails_structurally (fuel : nat) (b : list byte)
        (x : result (list File)) :
  Decode fuel b = Some x ->
  only_kinds [HeaderInvalid; Truncated; DirectoryCorrupt] x.
Proof.
  unfold Decode. intros H.
  pose proof (readOrder_kinds (mkReader b 0)) as Ho.
  destruct (readOrder (mkReader b 0)) as [[o|e|] r]; cbn [fst] in Ho.
  - pose proof (binary_Read_kinds 4 o r) as Hb.
    destruct (binary_Read 4 o r) as [[offset|e|] r1]; cbn [fst] in Hb.
    + eapply decodeLoop_kinds; exact H.
    + injection H as <-. cbn in Hb |- *. destruct Hb as [Hb|[]]. auto.
    + destruct Hb.
  - injection H as <-. cbn in Ho |- *. destruct Ho as [Ho|[Ho|[]]]; auto.
  - destruct Ho.
Qed.

Lemma Decode_fails_structurally_witness :
  only_kinds [HeaderInvalid; Truncated; DirectoryCorrupt]
             (Err EOF : result (list File)) /\
  Decode 8 (unsorted_file BigEndian) = Some (Err ErrNotSorted).
Proof.
  split; [|vm_compute; reflexivity].
  apply (@Decode_fails_structurally 8 (unsorted_short_file LittleEndian)).
  vm_compute. reflexivity.
Defined.

(* ------------------------------------------------------------------ *)
(** ** What holds of every directory holds of every File of the forest *)

Section ForestInvariant.
Variable Q : Z -> list Tag -> Prop.
Hypothesis Q_nil : forall fam, Q fam [].
Hypothesis Q_readTags :
  forall o at_ delta fam r tags r',
    readTags o at_ delta fam r = (Ok tags, r') -> Q fam tags.

Lemma readDirectory_sat (o : ByteOrder) (at_ index : Z) (f : File) (r r' : Reader) :
  readDirectory o at_ index r = (Ok f, r') ->
  vectors_sat Q f /\ Forall (vectors_sat Q) (Files f).
Proof.
  unfold readDirectory. intros H.
  apply bind_Ok in H. destruct H as (tags & r1 & Htags & H).
  apply bind_Ok in H. destruct H as (offset & r2 & _ & H).
  apply deferSeek_Ok in H. destruct H as (r3 & H).
  apply bind_Ok in H. destruct H as (fexif & r4 & Hexif & H).
  apply bind_Ok in H. destruct H as (fgps & r5 & Hgps & H).
  apply bind_Ok in H. destruct H as (fnotes & r6 & Hnotes & H).
  apply bind_Ok in H. destruct H as (data & r7 & Hdata & H).
  injection H as <- _.
  assert (Ht : Q Tiff tags) by (eapply Q_readTags; exact Htags).
  assert (He : Q Exif fexif).
  { unfold exifTags in Hexif. destruct (find tags Exif).
    - eapply Q_readTags; exact Hexif.
    - unfold ret in Hexif. injection Hexif as <- _. apply Q_nil. }
  assert (Hg : Q Gps fgps).
  { unfold gpsTags in Hgps. destruct (find tags Gps).
    - eapply Q_readTags; exact Hgps.
    - unfold ret in Hgps. injection Hgps as <- _. apply Q_nil. }
  assert (Hn : Q Note fnotes).
  { unfold notesTags in Hnotes. destruct (find fexif Note) as [t|].
    - apply bind_Ok in Hnotes. destruct Hnotes as (_ & ra & _ & Hnotes).
      apply bind_Ok in Hnotes. destruct Hnotes as (preamble & rb & _ & Hnotes).
      destruct (negb (bytes_eqb (slice preamble 0 6) nikon)).
      + unfold ret in Hnotes. injection Hnotes as <- _. apply Q_nil.
      + apply bind_Ok in Hnotes. destruct Hnotes as (o' & rc & _ & Hnotes).
        apply bind_Ok in Hnotes. destruct Hnotes as (off & rd & _ & Hnotes).
        eapply Q_readTags; exact Hnotes.
    - unfold ret in Hnotes. injection Hnotes as <- _. apply Q_nil. }
  assert (Hd : Forall (Q Tiff) data).
  { unfold subTags in Hdata. destruct (find tags Nef) as [t|].
    - apply bind_Ok in Hdata. destruct Hdata as (_ & ra & _ & Hdata).
      apply bind_Ok in Hdata. destruct Hdata as (pos & rb & _ & Hdata).
      revert Hdata. apply forEach_Forall. intros p rc rd ts. apply Q_readTags.
    - unfold ret in Hdata. injection Hdata as <- _. constructor. }
  unfold vectors_sat, buildFile. cbn [tiff exif notes gps Files].
  split; [repeat split; assumption|]. clear Hdata.
  generalize 0 as k. induction Hd as [|ts data Hts _ IH]; intros k; cbn [indexed map].
  - constructor.
  - constructor; [|apply IH]. cbn [tiff exif notes gps snd].
    repeat split; try assumption. apply Q_nil.
Qed.

Lemma decodeLoop_sat (fuel : nat) (o : ByteOrder) (offset i : Z)
      (files res : list File) (r : Reader) :
  Forall (fun f => vectors_sat Q f /\ Forall (vectors_sat Q) (Files f)) files ->
  decodeLoop fuel o offset i files r = Some (Ok res) ->
  Forall (fun f => vectors_sat Q f /\ Forall (vectors_sat Q) (Files f)) res.
Proof.
  revert offset i files r; induction fuel as [|fuel IH]; intros offset i files r Hf H;
    cbn [decodeLoop] in H.
  - destruct (offset =? 0); [|discriminate]. injection H as <-. exact Hf.
  - destruct (offset =? 0); [injection H as <-; exact Hf|].
    destruct (readDirectory o offset i r) as [[f| |] r1] eqn:Ed; try discriminate.
    assert (Hf' : Forall (fun f => vectors_sat Q f /\ Forall (vectors_sat Q) (Files f))
                         (files ++ [f])).
    { apply Forall_app. split; [exact Hf|]. constructor; [|constructor].
      eapply readDirectory_sat; exact Ed. }
    destruct (binary_Read 4 o r1) as [[offset'|e|] r2].
    + eapply IH; [exact Hf' | exact H].
    + destruct e; try discriminate. injection H as <-. exact Hf'.
    + discriminate.
Qed.

Lemma Decode_sat (fuel : nat) (b : list byte) (files : list File) :
  Decode fuel b = Some (Ok files) ->
  Forall (fun f => vectors_sat Q f /\ Forall (vectors_sat Q) (Files f)) files.
Proof.
  unfold Decode.
  destruct (readOrder (mkReader b 0)) as [[o| |] r]; try discriminate.
  destruct (binary_Read 4 o r) as [[offset| |] r1]; try discriminate.
  apply decodeLoop_sat. constructor.
Qed.
End ForestInvariant.

(* ------------------------------------------------------------------ *)
(** ** The tags of a directory are well formed *)

Lemma len_slice_bound {A} (s : list A) (off n : Z) :
  0 <= n -> len (slice s off n) <= n.
Proof.
  intros Hn. unfold len, slice. rewrite length_firstn. lia.
Qed.

Lemma get_uint_slice_range (o : ByteOrder) (s : list byte) (off n : Z) :
  0 <= n -> 0 <= get_uint o (slice s off n) < 256 ^ n.
Proof.
  intros Hn. pose proof (get_uint_range o (slice s off n)) as H.
  pose proof (len_slice_bound s off Hn) as Hl.
  pose proof (len_nonneg (slice s off n)) as H0.
  assert (256 ^ len (slice s off n) <= 256 ^ n) by (apply Z.pow_le_mono_r; lia).
  lia.
Qed.

Lemma tagOf_wf (s : list byte) (o : ByteOrder) (delta fam : Z) (g : list byte) :
  descCount o g <> 0xFFFFFFFF ->
  (4 < descSize o g -> add32 (descValue o g) delta + descSize o g <= len s) ->
  tag_wf (tagOf s o delta fam g).
Proof.
  intros Hc Hfit. unfold tag_wf, tagOf, TagM.Size. cbn [Id Typ Count Offset order Raw].
  fold (descSize o g).
  pose proof (get_uint_slice_range o g 0 (n := 2) ltac:(lia)) as Hid.
  pose proof (get_uint_slice_range o g 2 (n := 2) ltac:(lia)) as Hty.
  pose proof (get_uint_slice_range o g 4 (n := 4) ltac:(lia)) as Hcnt.
  pose proof (add32_range (descValue o g) delta) as Hoff.
  change (256 ^ 2) with (2 ^ 16) in *. change (256 ^ 4) with (2 ^ 32) in *.
  unfold descId, descType, descCount in *.
  repeat split; try lia; [eexists; reflexivity|].
  destruct (Z.ltb_spec 4 (descSize o g)) as [Hz|Hz].
  - rewrite slice_length; lia.
  - unfold PutUint32, len. rewrite put_uint_length. lia.
Qed.

(** Every tag of a directory that [readTags] decodes is well formed, of the
    family asked for, and in the order of the directory. *)
Lemma readTags_wf (o : ByteOrder) (at_ delta fam : Z) (tags : list Tag)
      (r r' : Reader) :
  readTags o at_ delta fam r = (Ok tags, r') ->
  Forall (fun t => tag_wf t /\ family t = fam /\ order t = Some o) tags.
Proof.
  unfold readTags. intros H.
  apply bind_Ok in H. destruct H as (_ & r1 & _ & H).
  apply bind_Ok in H. destruct H as (count & r2 & _ & H).
  revert H. apply readEntries_invariant; [|constructor].
  intros s tags0 g tags1 Hall E.
  pose proof (@decodeEntry_tagOf s o delta fam tags0 tags1 g E) as Et.
  apply decodeEntry_Ok in E. destruct E as (raw & _ & _ & Hc & Hraw).
  subst tags1. apply Forall_app. split; [exact Hall|]. constructor; [|constructor].
  split; [|split; reflexivity]. apply tagOf_wf; [exact Hc|].
  intros Hz. destruct (Z.ltb_spec 4 (descSize o g)); [|lia].
  pose proof (add32_range (descValue o g) delta).
  apply SectionReadFull_Ok in Hraw; [tauto | lia | lia].
Qed.

(* ------------------------------------------------------------------ *)
(** ** Values and Uint on well-formed tags *)

Lemma each_total {A} (n : nat) (f : Z -> result A) (i : Z) :
  (forall k, i <= k < i + Z.of_nat n -> exists x, f k = Ok x) ->
  exists l, each n f i = Ok l /\ List.length l = n.
Proof.
  revert i; induction n as [|n IH]; intros i H.
  - exists []. split; reflexivity.
  - destruct (H i ltac:(lia)) as (x & Hx).
    destruct (IH (i + 1)) as (l & Hl & Hn); [intros k Hk; apply H; lia|].
    exists (x :: l). cbn [each]. rewrite Hx. cbn [rbind]. rewrite Hl. cbn [rbind].
    split; [reflexivity | cbn; lia].
Qed.

Lemma times_total {A} (body : M A) :
  (forall r, exists a r', body r = (Ok a, r')) ->
  forall n r, exists l r', times n body r = (Ok l, r') /\ List.length l = n.
Proof.
  intros Hb. induction n as [|n IH]; intros r.
  - exists [], r. split; reflexivity.
  - destruct (Hb r) as (a & r1 & Ha). destruct (IH r1) as (l & r2 & Hl & Hn).
    exists (a :: l), r2. cbn [times]. unfold bind at 1. rewrite Ha.
    unfold bind at 1. rewrite Hl. split; [reflexivity | cbn; lia].
Qed.

Lemma read_total (w : Z) (o : ByteOrder) (r : Reader) :
  exists v r', or_zero (binary_Read_opt w (Some o)) r = (Ok v, r').
Proof.
  unfold or_zero, binary_Read_opt.
  pose proof (ReadFull_kinds w r) as H.
  destruct (ReadFull w r) as [[bs|e|] r1]; cbn [fst] in H; [eauto | eauto | destruct H].
Qed.

Lemma times_read_total {A} (w : Z) (o : ByteOrder) (f : Z -> A) (n : nat) (r : Reader) :
  exists l,
    fst (times n (bind (or_zero (binary_Read_opt w (Some o))) (fun v => ret (f v))) r)
    = Ok l /\ List.length l = n.
Proof.
  destruct (@times_total A (bind (or_zero (binary_Read_opt w (Some o)))
                                (fun v => ret (f v)))) with (n := n) (r := r)
    as (l & r' & Hl & Hn).
  - intros r0. destruct (read_total w o r0) as (v & r1 & Hv).
    exists (f v), r1. unfold bind. rewrite Hv. reflexivity.
  - exists l. rewrite Hl. auto.
Qed.

Lemma times_read2_total {A} (w : Z) (o : ByteOrder) (f : Z -> Z -> A) (n : nat)
      (r : Reader) :
  exists l,
    fst (times n (bind (or_zero (binary_Read_opt w (Some o))) (fun a =>
                  bind (or_zero (binary_Read_opt w (Some o))) (fun d =>
                  ret (f a d)))) r)
    = Ok l /\ List.length l = n.
Proof.
  destruct (@times_total A (bind (or_zero (binary_Read_opt w (Some o))) (fun a =>
                            bind (or_zero (binary_Read_opt w (Some o))) (fun d =>
                            ret (f a d))))) with (n := n) (r := r)
    as (l & r' & Hl & Hn).
  - intros r0. destruct (read_total w o r0) as (a & r1 & Ha).
    destruct (read_total w o r1) as (d & r2 & Hd).
    exists (f a d), r2. unfold bind. rewrite Ha, Hd. reflexivity.
  - exists l. rewrite Hl. auto.
Qed.

Lemma UintN_total (w : Z) (o : ByteOrder) (raw : list byte) (p : Z) :
  0 <= p -> p + w <= len raw ->
  UintN w (Some o) (from p raw) = Ok (get_uint o (slice raw p w)).
Proof.
  intros Hp Hfit. unfold UintN. rewrite len_from by lia.
  destruct (Z.ltb_spec (Z.max 0 (len raw - p)) w); [lia|]. reflexivity.
Qed.

Lemma from_cons {A} (l : list A) (k : Z) :
  0 <= k < len l -> exists b rest, from k l = b :: rest.
Proof.
  intros Hk. unfold from. destruct (skipn (Z.to_nat k) l) as [|b rest] eqn:E.
  - apply (f_equal (@List.length A)) in E. rewrite length_skipn in E.
    unfold len in Hk. cbn in E. lia.
  - eauto.
Qed.

Section ValuesTotal.
Variable FormatFloat32 FormatFloat64 : Z -> string.

(** X4.  On a well-formed tag [Values] does not panic.  For a bypass id or one
    of the twelve formats it returns values: one text for the bypass ids and
    for String, none for SByte and Undefined, and as many values as the
    count says for the numeric formats; for any other type code it fails
    with the unknown-format error. *)
Theorem Values_total (t : Tag) :
  tag_wf t ->
  if ((Id t =? Xmp) || (Id t =? Comment)) || ((1 <=? Typ t) && (Typ t <=? 12))
  then exists vs, Values FormatFloat32 FormatFloat64 t = Ok vs /\
                  len vs = valueCount t
  else Values FormatFloat32 FormatFloat64 t = Err ErrFormat.
Proof.
  intros (Hid & Hty & Hcnt & Hoff & (o & Ho) & Hraw).
  unfold Values, valueCount.
  destruct ((Id t =? Xmp) || (Id t =? Comment)); cbn [orb].
  { eexists. split; reflexivity. }
  unfold TagM.Size in Hraw.
  assert (Hlen : forall l : list string, List.length l = count_of t -> len l = Count t).
  { intros l Hl. unfold len, count_of in *. rewrite Hl. lia. }
  destruct (Z.eqb_spec (Typ t) Format.String) as [E|N2].
  { rewrite E. eexists. split; reflexivity. }
  destruct (Z.eqb_spec (Typ t) Format.Long) as [E|N4].
  { rewrite E in *. cbn [andb Z.leb Z.compare Format.Long Pos.compare Pos.compare_cont].
    change (Format.Size Format.Long) with 4 in Hraw.
    unfold decodeLong. rewrite Ho.
    destruct (@each_total string (count_of t)
                (fun i => let? x := Uint32 (Some o) (from (i * 4) (Raw t)) in
                          Ok (FormatUint x)) 0) as (l & Hl & Hn).
    - intros k Hk. unfold count_of in Hk. unfold Uint32.
      rewrite UintN_total by lia. eexists. reflexivity.
    - exists l. split; [exact Hl|]. cbn. apply Hlen. exact Hn. }
  destruct (Z.eqb_spec (Typ t) Format.SLong) as [E|N9].
  { rewrite E in *. cbn. unfold decodeSignedLong. rewrite Ho.
    destruct (times_read_total 4 o (fun s => FormatInt (signed 32 s)) (count_of t)
                               (tagReader t)) as (l & Hl & Hn).
    exists l. split; [exact Hl | apply Hlen; exact Hn]. }
  destruct (Z.eqb_spec (Typ t) Format.Short) as [E|N3].
  { rewrite E in *. cbn [andb Z.leb Z.compare Format.Short Pos.compare Pos.compare_cont].
    change (Format.Size Format.Short) with 2 in Hraw.
    unfold decodeShort. rewrite Ho.
    destruct (@each_total string (count_of t)
                (fun i => let? x := Uint16 (Some o) (from (i * 2) (Raw t)) in
                          Ok (FormatUint x)) 0) as (l & Hl & Hn).
    - intros k Hk. unfold count_of in Hk. unfold Uint16.
      rewrite UintN_total by lia. eexists. reflexivity.
    - exists l. split; [exact Hl|]. cbn. apply Hlen. exact Hn. }
  destruct (Z.eqb_spec (Typ t) Format.SShort) as [E|N8].
  { rewrite E in *. cbn. unfold decodeSignedShort. rewrite Ho.
    destruct (times_read_total 2 o (fun s => FormatInt (signed 16 s)) (count_of t)
                               (tagReader t)) as (l & Hl & Hn).
    exists l. split; [exact Hl | apply Hlen; exact Hn]. }
  destruct (Z.eqb_spec (Typ t) Format.Byte) as [E|N1].
  { rewrite E in *. cbn [andb Z.leb Z.compare Format.Byte Pos.compare Pos.compare_cont].
    change (Format.Size Format.Byte) with 1 in Hraw.
    unfold decodeByte.
    destruct (@each_total string (count_of t)
                (fun i => match from i (Raw t) with
                          | b :: _ => Ok (FormatUint (byte_val b))
                          | [] => Panic
                          end) 0) as (l & Hl & Hn).
    - intros k Hk. unfold count_of in Hk.
      destruct (@from_cons byte (Raw t) k ltac:(lia)) as (b & rest & Eb).
      rewrite Eb. eexists. reflexivity.
    - exists l. split; [exact Hl|]. cbn. apply Hlen. exact Hn. }
  destruct (Z.eqb_spec (Typ t) Format.SByte) as [E|N6].
  { rewrite E. eexists. split; reflexivity. }
  destruct (Z.eqb_spec (Typ t) Format.Undef) as [E|N7].
  { rewrite E. eexists. split; reflexivity. }
  destruct (Z.eqb_spec (Typ t) Format.Rational) as [E|N5].
  { rewrite E in *. cbn. unfold decodeRational. rewrite Ho.
    destruct (times_read2_total 4 o
                (fun n d => (FormatUint n ++ "/" ++ FormatUint d)%string)
                (count_of t) (tagReader t)) as (l & Hl & Hn).
    exists l. split; [exact Hl | apply Hlen; exact Hn]. }
  destruct (Z.eqb_spec (Typ t) Format.SRational) as [E|N10].
  { rewrite E in *. cbn. unfold decodeSignedRational. rewrite Ho.
    destruct (times_read2_total 4 o
                (fun n d => (FormatInt (signed 32 n) ++ "/" ++ FormatInt (signed 32 d))%string)
                (count_of t) (tagReader t)) as (l & Hl & Hn).
    exists l. split; [exact Hl | apply Hlen; exact Hn]. }
  destruct (Z.eqb_spec (Typ t) Format.Float) as [E|N11].
  { rewrite E in *. cbn. unfold decodeFloat. rewrite Ho.
    destruct (times_read_total 4 o FormatFloat32 (count_of t) (tagReader t))
      as (l & Hl & Hn).
    exists l. split; [exact Hl | apply Hlen; exact Hn]. }
  destruct (Z.eqb_spec (Typ t) Format.Double) as [E|N12].
  { rewrite E in *. cbn. unfold decodeDouble. rewrite Ho.
    destruct (times_read_total 8 o FormatFloat64 (count_of t) (tagReader t))
      as (l & Hl & Hn).
    exists l. split; [exact Hl | apply Hlen; exact Hn]. }
  unfold Format.String, Format.Long, Format.SLong, Format.Short, Format.SShort,
    Format.Byte, Format.SByte, Format.Undef, Format.Rational, Format.SRational,
    Format.Float, Format.Double in *.
  destruct (Z.leb_spec 1 (Typ t)); [|reflexivity].
  destruct (Z.leb_spec (Typ t) 12); [lia | reflexivity].
Qed.
End ValuesTotal.

Lemma Values_total_witness :
  exists vs, Values noFloat noFloat (exposure BigEndian 1 3 2 4) = Ok vs /\ len vs = 2.
Proof.
  pose proof (@Values_total noFloat noFloat (exposure BigEndian 1 3 2 4)) as H.
  apply H. unfold tag_wf. vm_compute.
  repeat split; try congruence. eexists. reflexivity.
Defined.

(* ------------------------------------------------------------------ *)
(** ** The reader keeps its buffer *)

Lemma keeps_bind {A B} (m : M A) (k : A -> M B) :
  keeps_buf m -> (forall a, keeps_buf (k a)) -> keeps_buf (bind m k).
Proof.
  intros Hm Hk r. unfold bind. specialize (Hm r).
  destruct (m r) as [[a|e|] r1]; cbn [snd] in *; [|exact Hm|exact Hm].
  rewrite (Hk a r1). exact Hm.
Qed.

Lemma keeps_ret {A} (a : A) : keeps_buf (ret a).
Proof. intros r. reflexivity. Qed.

Lemma keeps_fail {A} (e : error) : keeps_buf (@fail A e).
Proof. intros r. reflexivity. Qed.

Lemma keeps_ReadFull (w : Z) : keeps_buf (ReadFull w).
Proof.
  intros r. unfold ReadFull.
  destruct (w <=? 0); [reflexivity|].
  destruct (len (buf r) <=? pos r); [reflexivity|].
  destruct (len (buf r) - pos r <? w); reflexivity.
Qed.

Lemma keeps_binary_Read (w : Z) (o : ByteOrder) : keeps_buf (binary_Read w o).
Proof.
  intros r. unfold binary_Read. pose proof (keeps_ReadFull w r) as H.
  destruct (ReadFull w r) as [[bs|e|] r1]; exact H.
Qed.

Lemma keeps_or_zero (m : M Z) : keeps_buf m -> keeps_buf (or_zero m).
Proof.
  intros Hm r. unfold or_zero. specialize (Hm r).
  destruct (m r) as [[v|e|] r1]; exact Hm.
Qed.

Lemma keeps_times {A} (n : nat) (body : M A) : keeps_buf body -> keeps_buf (times n body).
Proof.
  intros Hb. induction n as [|n IH]; [apply keeps_ret|].
  cbn [times]. apply keeps_bind; [exact Hb|]. intros x.
  apply keeps_bind; [exact IH|]. intros xs. apply keeps_ret.
Qed.

Lemma keeps_forEach {A B} (f : A -> M B) (l : list A) :
  (forall a, keeps_buf (f a)) -> keeps_buf (forEach f l).
Proof.
  intros Hf. induction l as [|a l IH]; [apply keeps_ret|].
  cbn [forEach]. apply keeps_bind; [apply Hf|]. intros b.
  apply keeps_bind; [exact IH|]. intros bs. apply keeps_ret.
Qed.

Lemma keeps_readEntries (n : nat) (o : ByteOrder) (delta fam : Z) (tags : list Tag) :
  keeps_buf (readEntries n o delta fam tags).
Proof.
  revert tags; induction n as [|n IH]; intros tags; [apply keeps_ret|].
  cbn [readEntries]. apply keeps_bind; [|intros; apply IH].
  unfold readEntry. apply keeps_bind; [apply keeps_ReadFull|].
  intros g r. reflexivity.
Qed.

Lemma keeps_readTags (o : ByteOrder) (at_ delta fam : Z) :
  keeps_buf (readTags o at_ delta fam).
Proof.
  unfold readTags. apply keeps_bind; [intros r; reflexivity|]. intros _.
  apply keeps_bind; [apply keeps_binary_Read|]. intros count.
  apply keeps_readEntries.
Qed.

Lemma keeps_readOrder : keeps_buf readOrder.
Proof.
  unfold readOrder. apply keeps_bind; [apply keeps_ReadFull|]. intros intro.
  destruct (bytes_eqb (slice intro 0 2) little).
  { destruct (bytes_eqb (from 2 intro) magicle); [apply keeps_ret | apply keeps_fail]. }
  destruct (bytes_eqb (slice intro 0 2) big); [|apply keeps_fail].
  destruct (bytes_eqb (from 2 intro) magicbe); [apply keeps_ret | apply keeps_fail].
Qed.

Lemma keeps_exifTags (o : ByteOrder) (tags : list Tag) : keeps_buf (exifTags o tags).
Proof.
  unfold exifTags. destruct (find tags Exif); [apply keeps_readTags | apply keeps_ret].
Qed.

Lemma keeps_gpsTags (o : ByteOrder) (tags : list Tag) : keeps_buf (gpsTags o tags).
Proof.
  unfold gpsTags. destruct (find tags Gps); [apply keeps_readTags | apply keeps_ret].
Qed.

Lemma keeps_notesTags (tags : list Tag) : keeps_buf (notesTags tags).
Proof.
  unfold notesTags. destruct (find tags Note) as [t|]; [|apply keeps_ret].
  apply keeps_bind; [intros r; reflexivity|]. intros _.
  apply keeps_bind; [apply keeps_ReadFull|]. intros preamble.
  destruct (negb (bytes_eqb (slice preamble 0 6) nikon)); [apply keeps_ret|].
  apply keeps_bind; [apply keeps_readOrder|]. intros o.
  apply keeps_bind; [apply keeps_binary_Read|]. intros offset.
  apply keeps_readTags.
Qed.

Lemma keeps_subTags (o : ByteOrder) (tags : list Tag) : keeps_buf (subTags o tags).
Proof.
  unfold subTags. destruct (find tags Nef) as [t|]; [|apply keeps_ret].
  apply keeps_bind; [intros r; reflexivity|]. intros _.
  apply keeps_bind; [apply keeps_times, keeps_or_zero, keeps_binary_Read|].
  intros pos. apply keeps_forEach. intros p. apply keeps_readTags.
Qed.

Lemma keeps_deferSeek {A} (offset : Z) (body : M A) :
  keeps_buf body -> keeps_buf (deferSeek offset body).
Proof.
  intros Hb r. unfold deferSeek. specialize (Hb r).
  destruct (body r) as [res r1]. exact Hb.
Qed.

Lemma keeps_readDirectory (o : ByteOrder) (at_ index : Z) :
  keeps_buf (readDirectory o at_ index).
Proof.
  unfold readDirectory. apply keeps_bind; [apply keeps_readTags|]. intros tags.
  apply keeps_bind; [intros r; reflexivity|]. intros offset.
  apply keeps_deferSeek.
  apply keeps_bind; [apply keeps_exifTags|]. intros fexif.
  apply keeps_bind; [apply keeps_gpsTags|]. intros fgps.
  apply keeps_bind; [apply keeps_notesTags|]. intros fnotes.
  apply keeps_bind; [apply keeps_subTags|]. intros data r. reflexivity.
Qed.

Lemma bind_Ok_buf {A B} (m : M A) (k : A -> M B) (r r' : Reader) (b : B) :
  keeps_buf m ->
  bind m k r = (Ok b, r') ->
  exists a r1, m r = (Ok a, r1) /\ buf r1 = buf r /\ k a r1 = (Ok b, r').
Proof.
  intros Hm H. apply bind_Ok in H. destruct H as (a & r1 & Ha & H).
  exists a, r1. specialize (Hm r). rewrite Ha in Hm. auto.
Qed.

(* ------------------------------------------------------------------ *)
(** ** The shape of the forest *)

Lemma children_built (p : File) (b : list byte) (o : ByteOrder) (index : Z)
      (fexif fnotes : list Tag) (data : list (list Tag)) (k : Z) :
  exif p = fexif -> notes p = fnotes -> reader p = b -> forder p = o ->
  children_from p index k
    (map (fun c => mkFile b o (snd c) fexif fnotes [] [index; fst c] [])
         (indexed k data)).
Proof.
  intros He Hn Hr Ho. revert k; induction data as [|ts data IH]; intros k;
    cbn [indexed map children_from].
  - exact I.
  - split; [|apply IH]. unfold child_of. cbn. repeat split; congruence.
Qed.

Lemma buildFile_children (b : list byte) (o : ByteOrder) (index : Z)
      (tags fexif fgps fnotes : list Tag) (data : list (list Tag)) :
  root_shape b index (buildFile b o index tags fexif fgps fnotes data) /\
  map tiff (Files (buildFile b o index tags fexif fgps fnotes data)) = data.
Proof.
  unfold root_shape. split; [split; [reflexivity | split; [reflexivity|]] |].
  - unfold buildFile at 2. cbn [Files]. apply children_built; reflexivity.
  - unfold buildFile. cbn [Files].
    generalize 0 as k. induction data as [|ts data IH]; intros k; cbn [indexed map].
    + reflexivity.
    + cbn [tiff snd]. f_equal. apply IH.
Qed.

Lemma readDirectory_shape (o : ByteOrder) (at_ index : Z) (f : File) (r r' : Reader) :
  readDirectory o at_ index r = (Ok f, r') ->
  root_shape (buf r) index f /\ forder f = o.
Proof.
  unfold readDirectory. intros H.
  apply bind_Ok_buf in H; [|apply keeps_readTags].
  destruct H as (tags & r1 & _ & B1 & H).
  apply bind_Ok_buf in H; [|intros ?; reflexivity].
  destruct H as (offset & r2 & _ & B2 & H).
  apply deferSeek_Ok in H. destruct H as (r3 & H).
  apply bind_Ok_buf in H; [|apply keeps_exifTags].
  destruct H as (fexif & r4 & _ & B4 & H).
  apply bind_Ok_buf in H; [|apply keeps_gpsTags].
  destruct H as (fgps & r5 & _ & B5 & H).
  apply bind_Ok_buf in H; [|apply keeps_notesTags].
  destruct H as (fnotes & r6 & _ & B6 & H).
  apply bind_Ok_buf in H; [|apply keeps_subTags].
  destruct H as (data & r7 & _ & B7 & H).
  injection H as <- _.
  replace (buf r7) with (buf r) by congruence.
  split; [apply buildFile_children | reflexivity].
Qed.

Lemma roots_from_snoc (b : list byte) (i : Z) (files : list File) (f : File) :
  roots_from b i files -> root_shape b (i + len files) f ->
  roots_from b i (files ++ [f]).
Proof.
  revert i; induction files as [|g files IH]; intros i Hr Hf.
  - cbn in *. rewrite Z.add_0_r in Hf. auto.
  - cbn [roots_from app] in *. destruct Hr as [Hg Hr]. split; [exact Hg|].
    apply IH; [exact Hr|]. rewrite len_cons in Hf.
    replace (i + 1 + len files) with (i + (1 + len files)) by lia. exact Hf.
Qed.

Lemma decodeLoop_shape (fuel : nat) (o : ByteOrder) (offset : Z)
      (files res : list File) (r : Reader) :
  roots_from (buf r) 0 files ->
  decodeLoop fuel o offset (len files) files r = Some (Ok res) ->
  roots_from (buf r) 0 res.
Proof.
  revert offset files r; induction fuel as [|fuel IH]; intros offset files r Hf H;
    cbn [decodeLoop] in H.
  - destruct (offset =? 0); [|discriminate]. injection H as <-. exact Hf.
  - destruct (offset =? 0); [injection H as <-; exact Hf|].
    destruct (readDirectory o offset (len files) r) as [[f| |] r1] eqn:Ed;
      try discriminate.
    pose proof (keeps_readDirectory o offset (len files) r) as B1.
    rewrite Ed in B1. cbn [snd] in B1.
    apply readDirectory_shape in Ed. destruct Ed as [Ed _].
    assert (Hf' : roots_from (buf r) 0 (files ++ [f])).
    { apply roots_from_snoc; [exact Hf | exact Ed]. }
    pose proof (keeps_binary_Read 4 o r1) as B2.
    destruct (binary_Read 4 o r1) as [[offset'|e|] r2]; cbn [snd] in B2.
    + rewrite <- B1, <- B2. apply (IH offset' (files ++ [f]) r2).
      * rewrite B2, B1. exact Hf'.
      * rewrite len_app. change (len [f]) with 1. exact H.
    + destruct e; try discriminate. injection H as <-. exact Hf'.
    + discriminate.
Qed.

Lemma Decode_shape (fuel : nat) (b : list byte) (files : list File) :
  Decode fuel b = Some (Ok files) -> roots_from b 0 files.
Proof.
  unfold Decode.
  pose proof (keeps_readOrder (mkReader b 0)) as B1.
  destruct (readOrder (mkReader b 0)) as [[o| |] r]; try discriminate.
  pose proof (keeps_binary_Read 4 o r) as B2.
  destruct (binary_Read 4 o r) as [[offset| |] r1]; try discriminate.
  cbn [snd buf] in B1, B2. intros H.
  replace b with (buf r1) by congruence.
  eapply (@decodeLoop_shape fuel o offset []); [exact I | exact H].
Qed.

Lemma roots_from_nth (b : list byte) (i : Z) (files : list File) (j : nat) (f : File) :
  roots_from b i files -> nth_error files j = Some f ->
  root_shape b (i + Z.of_nat j) f.
Proof.
  revert i j; induction files as [|g files IH]; intros i j Hr Hn.
  - destruct j; discriminate.
  - destruct Hr as [Hg Hr]. destruct j as [|j].
    + injection Hn as <-. rewrite Z.add_0_r. exact Hg.
    + cbn [nth_error] in Hn. specialize (IH (i + 1) j Hr Hn).
      replace (i + Z.of_nat (S j)) with (i + 1 + Z.of_nat j) by lia. exact IH.
Qed.

Lemma children_from_nth (f : File) (i k : Z) (cs : list File) (j : nat) (c : File) :
  children_from f i k cs -> nth_error cs j = Some c ->
  child_of f i (k + Z.of_nat j) c.
Proof.
  revert k j; induction cs as [|d cs IH]; intros k j Hc Hn.
  - destruct j; discriminate.
  - destruct Hc as [Hd Hc]. destruct j as [|j].
    + injection Hn as <-. rewrite Z.add_0_r. exact Hd.
    + cbn [nth_error] in Hn. specialize (IH (k + 1) j Hc Hn).
      replace (k + Z.of_nat (S j)) with (k + 1 + Z.of_nat j) by lia. exact IH.
Qed.

(** X5.  The forest that [Decode] returns: root number [j] has the index path
    [j], is a main directory named "M-IFD#j", and reads the buffer that was
    decoded; its child number [k] has the index path [j, k], is a
    sub-directory named "S-IFD#k", shares the EXIF and MakerNote vectors of
    the root, and has no GPS vector and no children of its own. *)
Theorem Decode_index_paths (fuel : nat) (b : list byte) (files : list File)
        (j : nat) (f : File) :
  Decode fuel b = Some (Ok files) -> nth_error files j = Some f ->
  Index f = [Z.of_nat j] /\ reader f = b /\
  IsMainDir f = true /\ IsSubDir f = false /\
  Directory f = ("M-IFD#" ++ FormatInt (Z.of_nat j))%string /\
  Filename f = ("M-" ++ pad2 (Z.of_nat j))%string /\
  forall k c, nth_error (Files f) k = Some c ->
    Index c = [Z.of_nat j; Z.of_nat k] /\ reader c = b /\
    IsMainDir c = false /\ IsSubDir c = true /\
    Directory c = ("S-IFD#" ++ FormatInt (Z.of_nat k))%string /\
    Filename c = ("S-" ++ pad2 (Z.of_nat j) ++ "-" ++ pad2 (Z.of_nat k))%string /\
    exif c = exif f /\ notes c = notes f /\ gps c = [] /\ Files c = [].
Proof.
  intros Hd Hn. apply Decode_shape in Hd.
  pose proof (@roots_from_nth b 0 files j f Hd Hn) as (Hi & Hr & Hc).
  rewrite Z.add_0_l in Hi, Hc.
  split; [exact Hi|]. split; [exact Hr|].
  unfold Filename, Directory, IsMainDir, IsSubDir. rewrite Hi.
  do 4 (split; [reflexivity|]).
  intros k c Hk.
  pose proof (@children_from_nth f (Z.of_nat j) 0 (Files f) k c Hc Hk)
    as (Ci & Ce & Cn & Cg & Cf & Cr & _).
  rewrite Z.add_0_l in Ci.
  split; [exact Ci|]. split; [congruence|]. rewrite Ci.
  do 4 (split; [reflexivity|]). repeat split; assumption.
Qed.

Lemma Decode_index_paths_witness :
  exists f,
    nth_error (decoded sample_buffer_le) 0 = Some f /\
    Directory f = "M-IFD#0"%string /\ Filename f = "M-00"%string.
Proof.
  destruct (decoded sample_buffer_le) as [|f fs] eqn:E; [vm_compute in E; discriminate|].
  exists f. split; [reflexivity|].
  assert (Hd : Decode 8 sample_buffer_le = Some (Ok (f :: fs))).
  { revert E. unfold decoded. destruct (Decode 8 sample_buffer_le) as [[l|e|]|]; congruence. }
  destruct (@Decode_index_paths 8 sample_buffer_le (f :: fs) 0 f Hd eq_refl)
    as (_ & _ & _ & _ & H5 & H6 & _).
  rewrite H5, H6. split; reflexivity.
Defined.

(* ------------------------------------------------------------------ *)
(** ** The tags of the forest *)

Lemma in_forest_sat (P : File -> Prop) (files : list File) (g : File) :
  Forall (fun f => P f /\ Forall P (Files f)) files -> in_forest files g -> P g.
Proof.
  intros HF (f & Hin & Hg). rewrite Forall_forall in HF.
  destruct (HF f Hin) as [Hf Hc]. destruct Hg as [ -> | Hg]; [exact Hf|].
  rewrite Forall_forall in Hc. apply Hc. exact Hg.
Qed.

Lemma Decode_family_wf (fuel : nat) (b : list byte) (files : list File) :
  Decode fuel b = Some (Ok files) ->
  Forall (fun f => vectors_sat family_wf f /\
                   Forall (vectors_sat family_wf) (Files f)) files.
Proof.
  apply Decode_sat.
  - intros fam. constructor.
  - intros o at_ delta fam r tags r' H. apply readTags_wf in H.
    unfold family_wf. rewrite Forall_forall in *. intros t Ht.
    destruct (H t Ht) as (Hw & Hf & _). auto.
Qed.

(** X6.  Every tag of every File that [Decode] returns, of the roots and of
    their children, is well formed, and its origin is the vector it is in:
    "tiff", "exif", "note" or "gps"; so [Origin] answers "unknown" for no
    tag that [Tags] returns. *)
Theorem Decode_tags_wf (fuel : nat) (b : list byte) (files : list File) (g : File) :
  Decode fuel b = Some (Ok files) -> in_forest files g ->
  (forall t, In t (tiff g) -> tag_wf t /\ Origin t = "tiff"%string) /\
  (forall t, In t (exif g) -> tag_wf t /\ Origin t = "exif"%string) /\
  (forall t, In t (notes g) -> tag_wf t /\ Origin t = "note"%string) /\
  (forall t, In t (gps g) -> tag_wf t /\ Origin t = "gps"%string) /\
  (forall t, In t (FileTags g) -> tag_wf t /\ Origin t <> "unknown"%string).
Proof.
  intros Hd Hg. pose proof (@Decode_family_wf fuel b files Hd) as HF.
  pose proof (@in_forest_sat (vectors_sat family_wf) files g HF Hg) as (Ht & He & Hn & Hp).
  unfold family_wf in *. rewrite Forall_forall in Ht, He, Hn, Hp.
  assert (H1 : forall t, In t (tiff g) -> tag_wf t /\ Origin t = "tiff"%string).
  { intros t Hin. apply Ht in Hin. destruct Hin as [Hw Hf]. split; [exact Hw|].
    unfold Origin. rewrite Hf. reflexivity. }
  assert (H2 : forall t, In t (exif g) -> tag_wf t /\ Origin t = "exif"%string).
  { intros t Hin. apply He in Hin. destruct Hin as [Hw Hf]. split; [exact Hw|].
    unfold Origin. rewrite Hf. reflexivity. }
  assert (H3 : forall t, In t (notes g) -> tag_wf t /\ Origin t = "note"%string).
  { intros t Hin. apply Hn in Hin. destruct Hin as [Hw Hf]. split; [exact Hw|].
    unfold Origin. rewrite Hf. reflexivity. }
  assert (H4 : forall t, In t (gps g) -> tag_wf t /\ Origin t = "gps"%string).
  { intros t Hin. apply Hp in Hin. destruct Hin as [Hw Hf]. split; [exact Hw|].
    unfold Origin. rewrite Hf. reflexivity. }
  split; [exact H1|]. split; [exact H2|]. split; [exact H3|]. split; [exact H4|].
  intros t Hin. unfold FileTags in Hin.
  apply in_app_or in Hin. destruct Hin as [Hin|Hin];
    [destruct (H1 t Hin) as [Hw Ho]; split; [exact Hw | rewrite Ho; discriminate]|].
  apply in_app_or in Hin. destruct Hin as [Hin|Hin];
    [destruct (H2 t Hin) as [Hw Ho]; split; [exact Hw | rewrite Ho; discriminate]|].
  apply in_app_or in Hin. destruct Hin as [Hin|Hin];
    [destruct (H3 t Hin) as [Hw Ho]; split; [exact Hw | rewrite Ho; discriminate]|].
  destruct (H4 t Hin) as [Hw Ho]. split; [exact Hw | rewrite Ho; discriminate].
Qed.

Lemma Decode_tags_wf_witness :
  Forall (fun t => tag_wf t /\ Origin t = "tiff"%string) (tiff strips_sample).
Proof.
  assert (Hd : Decode 8 strips_file = Some (Ok [strips_sample])) by (vm_compute; reflexivity).
  assert (Hg : in_forest [strips_sample] strips_sample).
  { exists strips_sample. split; [left; reflexivity | left; reflexivity]. }
  apply Forall_forall.
  exact (proj1 (@Decode_tags_wf 8 strips_file [strips_sample] strips_sample Hd Hg)).
Defined.

(* ------------------------------------------------------------------ *)
(** ** Uint, IsSupported and ImageType on well-formed tags *)

Lemma raw_cons (t : Tag) :
  tag_wf t -> exists b rest, Raw t = b :: rest.
Proof.
  intros (_ & _ & _ & _ & _ & Hraw).
  destruct (Raw t) as [|b rest]; [|eauto].
  change (len (@nil byte)) with 0 in Hraw. lia.
Qed.

Lemma Uint_wf (t : Tag) :
  tag_wf t -> exists u, TagM.Uint t = Ok u /\ 0 <= u < 2 ^ 32.
Proof.
  intros Hwf. destruct (raw_cons Hwf) as (b & rest & Eb).
  destruct Hwf as (_ & _ & _ & _ & (o & Ho) & Hraw).
  assert (H4 : 4 <= len (Raw t)) by lia.
  unfold TagM.Uint. rewrite Ho, Eb.
  destruct (Typ t =? Format.Byte).
  { exists (byte_val b). pose proof (byte_val_range b). split; [reflexivity | lia]. }
  rewrite <- Eb.
  destruct (Typ t =? Format.Short).
  { unfold Uint16, UintN. destruct (Z.ltb_spec (len (Raw t)) 2); [lia|].
    eexists. split; [reflexivity|].
    pose proof (@get_uint_slice_range o (Raw t) 0 2 ltac:(lia)).
    change (256 ^ 2) with 65536 in *. lia. }
  destruct (Typ t =? Format.Long).
  { unfold Uint32, UintN. destruct (Z.ltb_spec (len (Raw t)) 4); [lia|].
    eexists. split; [reflexivity|].
    pose proof (@get_uint_slice_range o (Raw t) 0 4 ltac:(lia)).
    change (256 ^ 4) with (2 ^ 32) in *. lia. }
  exists 0. split; [reflexivity | lia].
Qed.

Section UintValues.
Variable FormatFloat32 FormatFloat64 : Z -> string.

(** X7.  On a well-formed tag [Uint] does not panic and returns a 32-bit number;
    for a Byte, Short or Long tag with at least one element that is not a
    bypass id, this number is the first value that [Values] prints. *)
Theorem Uint_is_first_value (t : Tag) :
  tag_wf t ->
  exists u, TagM.Uint t = Ok u /\ 0 <= u < 2 ^ 32 /\
    (Id t <> Xmp -> Id t <> Comment -> 1 <= Count t ->
     Typ t = Format.Byte \/ Typ t = Format.Short \/ Typ t = Format.Long ->
     exists vs, Values FormatFloat32 FormatFloat64 t = Ok (FormatUint u :: vs) /\
                len vs = Count t - 1).
Proof.
  intros Hwf. destruct (Uint_wf Hwf) as (u & Hu & Hr).
  exists u. split; [exact Hu|]. split; [exact Hr|].
  intros Hx Hc Hcnt Hty.
  destruct (raw_cons Hwf) as (b & rest & Eb).
  destruct Hwf as (_ & _ & Hcount & _ & (o & Ho) & Hraw).
  unfold TagM.Size in Hraw.
  unfold Values. rewrite (@Values_not_bypass t Hx Hc).
  assert (Hn : count_of t = S (Z.to_nat (Count t - 1))).
  { unfold count_of. lia. }
  assert (Hlen : forall l : list string,
             List.length l = Z.to_nat (Count t - 1) -> len l = Count t - 1).
  { intros l Hl. unfold len. rewrite Hl. lia. }
  unfold TagM.Uint in Hu.
  destruct Hty as [E|[E|E]]; rewrite E in *.
  - change (Format.Size Format.Byte) with 1 in Hraw.
    cbn [Z.eqb Format.Byte Format.String Format.Long Format.SLong Format.Short
         Format.SShort Pos.eqb] in Hu |- *.
    rewrite Eb in Hu. injection Hu as <-.
    unfold decodeByte. rewrite Hn. cbn [each].
    change (from 0 (Raw t)) with (Raw t). rewrite Eb. cbn [rbind].
    destruct (@each_total string (Z.to_nat (Count t - 1))
                (fun i => match from i (b :: rest) with
                          | c :: _ => Ok (FormatUint (byte_val c))
                          | [] => Panic
                          end) (0 + 1)) as (l & Hl & Hll).
    + intros k Hk. rewrite <- Eb.
      destruct (@from_cons byte (Raw t) k ltac:(lia)) as (c & rest' & Ec).
      rewrite Ec. eexists. reflexivity.
    + rewrite Hl. cbn [rbind]. exists l. split; [reflexivity | apply Hlen; exact Hll].
  - change (Format.Size Format.Short) with 2 in Hraw.
    cbn [Z.eqb Format.Byte Format.String Format.Long Format.SLong Format.Short
         Format.SShort Pos.eqb] in Hu |- *.
    unfold decodeShort. rewrite Hn. cbn [each].
    change (from (0 * 2) (Raw t)) with (Raw t). rewrite Hu. cbn [rbind].
    destruct (@each_total string (Z.to_nat (Count t - 1))
                (fun i => let? x := Uint16 (order t) (from (i * 2) (Raw t)) in
                          Ok (FormatUint x)) (0 + 1)) as (l & Hl & Hll).
    + intros k Hk. rewrite Ho. unfold Uint16.
      rewrite UintN_total by lia. eexists. reflexivity.
    + rewrite Hl. cbn [rbind]. exists l. split; [reflexivity | apply Hlen; exact Hll].
  - change (Format.Size Format.Long) with 4 in Hraw.
    cbn [Z.eqb Format.Byte Format.String Format.Long Format.SLong Format.Short
         Format.SShort Pos.eqb] in Hu |- *.
    unfold decodeLong. rewrite Hn. cbn [each].
    change (from (0 * 4) (Raw t)) with (Raw t). rewrite Hu. cbn [rbind].
    destruct (@each_total string (Z.to_nat (Count t - 1))
                (fun i => let? x := Uint32 (order t) (from (i * 4) (Raw t)) in
                          Ok (FormatUint x)) (0 + 1)) as (l & Hl & Hll).
    + intros k Hk. rewrite Ho. unfold Uint32.
      rewrite UintN_total by lia. eexists. reflexivity.
    + rewrite Hl. cbn [rbind]. exists l. split; [reflexivity | apply Hlen; exact Hll].
Qed.
End UintValues.

Lemma Uint_is_first_value_witness :
  exists u vs,
    TagM.Uint (widthTag BigEndian) = Ok u /\
    Values noFloat noFloat (widthTag BigEndian) = Ok (FormatUint u :: vs) /\
    len vs = 0.
Proof.
  assert (Hwf : tag_wf (widthTag BigEndian)).
  { unfold tag_wf. vm_compute. repeat split; try congruence. eexists. reflexivity. }
  destruct (@Uint_is_first_value noFloat noFloat (widthTag BigEndian) Hwf)
    as (u & Hu & _ & Hv).
  destruct Hv as (vs & Hvs & Hl); [discriminate | discriminate | vm_compute; congruence
                                  | right; left; reflexivity |].
  exists u, vs. repeat split; assumption.
Defined.

Lemma typeName_cases (u : Z) :
  0 <= u ->
  FileM.typeName u <> "jpeg"%string /\
  ((0 <=? u) && (u <=? 6) = false <-> FileM.typeName u = "unsupported"%string).
Proof.
  intros Hu. unfold FileM.typeName, ImgBlack, ImgWhite, ImgRGB, ImgPalette, ImgMask,
    ImgCMYK, ImgYCbCr.
  destruct (Z.leb_spec 0 u); [|lia]. cbn [andb].
  destruct (Z.eqb_spec u 0); [subst; cbn; split; [|split]; discriminate|].
  destruct (Z.eqb_spec u 1); [subst; cbn; split; [|split]; discriminate|].
  destruct (Z.eqb_spec u 2); [subst; cbn; split; [|split]; discriminate|].
  destruct (Z.eqb_spec u 3); [subst; cbn; split; [|split]; discriminate|].
  destruct (Z.eqb_spec u 4); [subst; cbn; split; [|split]; discriminate|].
  destruct (Z.eqb_spec u 5); [subst; cbn; split; [|split]; discriminate|].
  destruct (Z.eqb_spec u 6); [subst; cbn; split; [|split]; discriminate|].
  cbn [orb]. split; [discriminate|]. split; [reflexivity|].
  intros _. apply Z.leb_gt. lia.
Qed.

(** X8.  On a File whose TIFF tags are well formed, as [Decode] builds them,
    [IsSupported] and [ImageType] do not panic, and they agree: the type is
    "jpeg" exactly when there is no Photometric tag, and the File is
    unsupported exactly when its type is "unsupported". *)
Theorem IsSupported_ImageType_agree (f : File) :
  Forall tag_wf (tiff f) ->
  exists s name,
    FileM.IsSupported f = Ok s /\ FileM.ImageType f = Ok name /\
    (name = "jpeg"%string <-> FileM.Has f Photometric = false) /\
    (s = false <-> name = "unsupported"%string).
Proof.
  intros Hwf. unfold FileM.IsSupported, FileM.ImageType.
  rewrite Has_find, get_find.
  destruct (find (tiff f) Photometric) as [t|] eqn:E.
  - apply find_Some_In in E. destruct E as [Hin _].
    rewrite Forall_forall in Hwf. destruct (Uint_wf (Hwf t Hin)) as (u & Hu & Hr).
    rewrite Hu. cbn [rbind].
    destruct (@typeName_cases u ltac:(lia)) as [Hj Hs].
    exists ((0 <=? u) && (u <=? 6)), (FileM.typeName u).
    split; [reflexivity|]. split; [reflexivity|]. split; [|exact Hs].
    split; intros H; [contradiction | discriminate].
  - exists true, "jpeg"%string.
    split; [reflexivity|]. split; [reflexivity|].
    split; split; intros H; try reflexivity; discriminate.
Qed.

Lemma IsSupported_ImageType_agree_witness :
  exists s name,
    FileM.IsSupported strips_sample = Ok s /\
    FileM.ImageType strips_sample = Ok name /\
    (s = false <-> name = "unsupported"%string).
Proof.
  assert (Hwf : Forall tag_wf (tiff strips_sample)).
  { assert (E : tiff strips_sample
                = ltac:(let x := eval vm_compute in (tiff strips_sample) in exact x))
      by (vm_compute; reflexivity).
    rewrite E.
    repeat (constructor;
            [unfold tag_wf; vm_compute; repeat split; try congruence; eexists; reflexivity|]).
    constructor. }
  destruct (@IsSupported_ImageType_agree strips_sample Hwf) as (s & name & Hs & Hn & _ & Ha).
  exists s, name. repeat split; try assumption; apply Ha.
Defined.


(* ------------------------------------------------------------------ *)
(** ** Lookups in the forest *)

(** X9.  In every File of the forest that [Decode] returns, [GetTag] on one of
    the families it searches returns a tag exactly when this tag is in the
    vector of the family and has the id asked for, and fails with the
    not-found error when the vector has no such tag; [Has] is true exactly
    when the TIFF vector holds the id. *)
Theorem Decode_lookup (fuel : nat) (b : list byte) (files : list File) (g : File)
        (id fam : Z) :
  Decode fuel b = Some (Ok files) -> in_forest files g ->
  fam = Tiff \/ fam = Nef \/ fam = Exif \/ fam = Note ->
  (forall t, FileM.GetTag g id fam = Ok t <-> In t (FileM.TagsFor g fam) /\ Id t = id) /\
  (~ contains (FileM.TagsFor g fam) id -> FileM.GetTag g id fam = Err ErrExist) /\
  (FileM.Has g id = true <-> contains (tiff g) id).
Proof.
  intros Hd Hg Hfam. apply Decode_ok in Hd.
  pose proof (@in_forest_sat vectors_ascending files g Hd Hg) as (Ht & He & Hn & Hp).
  assert (Hs : ascending (FileM.TagsFor g fam)).
  { destruct Hfam as [ -> | [ -> | [ -> | -> ] ] ]; assumption. }
  assert (E : FileM.GetTag g id fam =
              match find (FileM.TagsFor g fam) id with
              | Some t => Ok t
              | None => Err ErrExist
              end).
  { destruct Hfam as [ -> | [ -> | [ -> | -> ] ] ]; reflexivity. }
  split; [|split].
  - intros t. rewrite E. split.
    + destruct (find (FileM.TagsFor g fam) id) as [t'|] eqn:F; [|discriminate].
      intros [= ->]. apply find_Some_In. exact F.
    + intros [Hin <-]. rewrite (find_ascending _ Hs Hin). reflexivity.
  - intros Hno. rewrite E, (find_absent Hno). reflexivity.
  - apply Has_iff. exact Ht.
Qed.

Lemma Decode_lookup_witness :
  exists t, FileM.GetTag strips_sample RowsPerStrip Tiff = Ok t /\ Offset t = 2.
Proof.
  assert (Hd : Decode 8 strips_file = Some (Ok [strips_sample])) by (vm_compute; reflexivity).
  assert (Hg : in_forest [strips_sample] strips_sample).
  { exists strips_sample. split; left; reflexivity. }
  destruct (@Decode_lookup 8 strips_file [strips_sample] strips_sample RowsPerStrip Tiff
              Hd Hg (or_introl eq_refl)) as (H & _ & _).
  exists (at_index (tiff strips_sample) 2). split; [|vm_compute; reflexivity].
  apply H. split; [|vm_compute; reflexivity].
  apply at_index_In. vm_compute. split; congruence.
Defined.

(* ------------------------------------------------------------------ *)
(** ** What holds of every root directory *)

Section RootInvariant.
Variable P : File -> Prop.
Hypothesis P_readDirectory :
  forall o at_ i r f r', readDirectory o at_ i r = (Ok f, r') -> P f.

Lemma decodeLoop_roots (fuel : nat) (o : ByteOrder) (offset i : Z)
      (files res : list File) (r : Reader) :
  Forall P files ->
  decodeLoop fuel o offset i files r = Some (Ok res) -> Forall P res.
Proof.
  revert offset i files r; induction fuel as [|fuel IH]; intros offset i files r Hf H;
    cbn [decodeLoop] in H.
  - destruct (offset =? 0); [|discriminate]. injection H as <-. exact Hf.
  - destruct (offset =? 0); [injection H as <-; exact Hf|].
    destruct (readDirectory o offset i r) as [[f| |] r1] eqn:Ed; try discriminate.
    assert (Hf' : Forall P (files ++ [f])).
    { apply Forall_app. split; [exact Hf|]. constructor; [|constructor].
      eapply P_readDirectory; exact Ed. }
    destruct (binary_Read 4 o r1) as [[offset'|e|] r2].
    + eapply IH; [exact Hf' | exact H].
    + destruct e; try discriminate. injection H as <-. exact Hf'.
    + discriminate.
Qed.

Lemma Decode_roots (fuel : nat) (b : list byte) (files : list File) :
  Decode fuel b = Some (Ok files) -> Forall P files.
Proof.
  unfold Decode.
  destruct (readOrder (mkReader b 0)) as [[o| |] r]; try discriminate.
  destruct (binary_Read 4 o r) as [[offset| |] r1]; try discriminate.
  apply decodeLoop_roots. constructor.
Qed.
End RootInvariant.

Lemma times_length {A} (n : nat) (body : M A) (r r' : Reader) (l : list A) :
  times n body r = (Ok l, r') -> List.length l = n.
Proof.
  revert r r' l; induction n as [|n IH]; intros r r' l H.
  - cbn in H. unfold ret in H. injection H as <- _. reflexivity.
  - cbn [times] in H. apply bind_Ok in H. destruct H as (x & r1 & _ & H).
    apply bind_Ok in H. destruct H as (xs & r2 & Hxs & H).
    unfold ret in H. injection H as <- _. cbn. f_equal. eapply IH. exact Hxs.
Qed.

Lemma forEach_length {A B} (f : A -> M B) (l : list A) (r r' : Reader) (bs : list B) :
  forEach f l r = (Ok bs, r') -> List.length bs = List.length l.
Proof.
  revert r r' bs; induction l as [|a l IH]; intros r r' bs H.
  - cbn in H. unfold ret in H. injection H as <- _. reflexivity.
  - cbn [forEach] in H. apply bind_Ok in H. destruct H as (x & r1 & _ & H).
    apply bind_Ok in H. destruct H as (xs & r2 & Hxs & H).
    unfold ret in H. injection H as <- _. cbn. f_equal. eapply IH. exact Hxs.
Qed.

Lemma indexed_length {A} (i : Z) (l : list A) : List.length (indexed i l) = List.length l.
Proof. revert i; induction l as [|a l IH]; intros i; cbn; [reflexivity | f_equal; apply IH]. Qed.

Lemma readDirectory_pointers (o : ByteOrder) (at_ index : Z) (f : File) (r r' : Reader) :
  readDirectory o at_ index r = (Ok f, r') ->
  (find (tiff f) Exif = None -> exif f = []) /\
  (find (exif f) Note = None -> notes f = []) /\
  (find (tiff f) Gps = None -> gps f = []) /\
  (find (tiff f) Nef = None -> Files f = []) /\
  (forall t, find (tiff f) Nef = Some t -> List.length (Files f) = count_of t).
Proof.
  unfold readDirectory. intros H.
  apply bind_Ok in H. destruct H as (tags & r1 & Htags & H).
  apply bind_Ok in H. destruct H as (offset & r2 & _ & H).
  apply deferSeek_Ok in H. destruct H as (r3 & H).
  apply bind_Ok in H. destruct H as (fexif & r4 & Hexif & H).
  apply bind_Ok in H. destruct H as (fgps & r5 & Hgps & H).
  apply bind_Ok in H. destruct H as (fnotes & r6 & Hnotes & H).
  apply bind_Ok in H. destruct H as (data & r7 & Hdata & H).
  injection H as <- _. unfold buildFile. cbn [tiff exif notes gps Files].
  split; [|split; [|split; [|split]]].
  - intros E. unfold exifTags in Hexif. rewrite E in Hexif.
    unfold ret in Hexif. injection Hexif as <- _. reflexivity.
  - intros E. unfold notesTags in Hnotes. rewrite E in Hnotes.
    unfold ret in Hnotes. injection Hnotes as <- _. reflexivity.
  - intros E. unfold gpsTags in Hgps. rewrite E in Hgps.
    unfold ret in Hgps. injection Hgps as <- _. reflexivity.
  - intros E. unfold subTags in Hdata. rewrite E in Hdata.
    unfold ret in Hdata. injection Hdata as <- _. reflexivity.
  - intros t E. unfold subTags in Hdata. rewrite E in Hdata.
    apply bind_Ok in Hdata. destruct Hdata as (_ & ra & _ & Hdata).
    apply bind_Ok in Hdata. destruct Hdata as (pos & rb & Hpos & Hdata).
    apply forEach_length in Hdata. apply times_length in Hpos.
    rewrite length_map, indexed_length. congruence.
Qed.

(** X10.  The pointers of a root directory that [Decode] returns: without the
    EXIF pointer (0x8769) among its TIFF tags the root has no EXIF and no
    MakerNote tags, without the GPS pointer (0x8825) no GPS tags, without
    the sub-directory pointer (0x14a) no children; without the MakerNote tag
    (0x927c) among its EXIF tags it has no MakerNote tags; and with the
    sub-directory pointer it has one child per offset that the count of the
    pointer announces. *)
Theorem Decode_pointers (fuel : nat) (b : list byte) (files : list File) (f : File) :
  Decode fuel b = Some (Ok files) -> In f files ->
  (~ contains (tiff f) Exif -> exif f = [] /\ notes f = []) /\
  (~ contains (exif f) Note -> notes f = []) /\
  (~ contains (tiff f) Gps -> gps f = []) /\
  (~ contains (tiff f) Nef -> Files f = []) /\
  (forall t, In t (tiff f) -> Id t = Nef -> len (Files f) = Count t).
Proof.
  intros Hd Hin.
  pose proof (Decode_ok _ _ Hd) as Hok.
  pose proof (@Decode_family_wf fuel b files Hd) as Hwf.
  assert (Hp : Forall (fun f =>
                 (find (tiff f) Exif = None -> exif f = []) /\
                 (find (exif f) Note = None -> notes f = []) /\
                 (find (tiff f) Gps = None -> gps f = []) /\
                 (find (tiff f) Nef = None -> Files f = []) /\
                 (forall t, find (tiff f) Nef = Some t ->
                            List.length (Files f) = count_of t)) files).
  { revert Hd. apply Decode_roots. intros o at_ i r g r'. apply readDirectory_pointers. }
  rewrite Forall_forall in Hok, Hp, Hwf.
  destruct (Hp f Hin) as (He & Hn & Hg & Hs & Hc).
  destruct (Hok f Hin) as ((Ht & _) & _).
  split; [|split; [|split; [|split]]].
  - intros H. assert (E : exif f = []) by (apply He, find_absent, H).
    split; [exact E|]. apply Hn. rewrite E. reflexivity.
  - intros H. apply Hn, find_absent, H.
  - intros H. apply Hg, find_absent, H.
  - intros H. apply Hs, find_absent, H.
  - intros t Ht' Hid. unfold len. rewrite (Hc t).
    + destruct (Hwf f Hin) as ((Hwt & _) & _). unfold family_wf in Hwt.
      rewrite Forall_forall in Hwt.
      destruct (Hwt t Ht') as ((_ & _ & Hcnt & _) & _). unfold count_of. lia.
    + rewrite <- Hid. apply find_ascending; assumption.
Qed.

Lemma Decode_pointers_witness :
  exif strips_sample = [] /\ notes strips_sample = [].
Proof.
  assert (Hd : Decode 8 strips_file = Some (Ok [strips_sample])) by (vm_compute; reflexivity).
  destruct (@Decode_pointers 8 strips_file [strips_sample] strips_sample Hd
              (or_introl eq_refl)) as (H & _).
  apply H. unfold contains. vm_compute. discriminate.
Defined.

(* ------------------------------------------------------------------ *)
(** ** MakerNote blocks *)

Lemma slice_slice {A} (s : list A) (p m n : Z) :
  0 <= n <= m -> slice (slice s p m) 0 n = slice s p n.
Proof.
  intros H. unfold slice, from. cbn [Z.to_nat skipn].
  rewrite firstn_firstn. f_equal. lia.
Qed.

(** X11.  A MakerNote block that does not start with "Nikon\0" is skipped: the
    File gets no MakerNote tags, and there is no error.  The ten bytes of
    the preamble are read before they are looked at: a MakerNote tag whose
    offset is within the last ten bytes of the buffer makes [notesTags], and
    with it [Decode], fail as truncated, whoever the maker is. *)
Theorem notesTags_foreign_maker (tags : list Tag) (t : Tag) (r : Reader) :
  find tags Note = Some t -> 0 <= Offset t ->
  (Offset t + 10 <= len (buf r) -> slice (buf r) (Offset t) 6 <> nikon ->
   notesTags tags r = (Ok [], mkReader (buf r) (Offset t + 10))) /\
  (len (buf r) < Offset t + 10 ->
   exists e, fst (notesTags tags r) = Err e /\ kind e = Truncated).
Proof.
  intros Hf Hoff. unfold notesTags. rewrite Hf. unfold bind at 1, SeekStart.
  cbv beta iota. split.
  - intros Hfit Hne. unfold bind at 1. rewrite ReadFull_ok by lia.
    rewrite slice_slice by lia.
    destruct (bytes_eqb (slice (buf r) (Offset t) 6) nikon) eqn:E.
    + apply bytes_eqb_iff in E. contradiction.
    + reflexivity.
  - intros Hshort. unfold bind, ReadFull. cbn [buf pos Z.leb Z.compare].
    destruct (Z.leb_spec (len (buf r)) (Offset t)).
    + exists EOF. split; reflexivity.
    + destruct (Z.ltb_spec (len (buf r) - Offset t) 10); [|lia].
      exists ErrUnexpectedEOF. split; reflexivity.
Qed.

Lemma notesTags_foreign_maker_witness :
  notesTags [foreignNote] (mkReader foreign_buffer 0)
  = (Ok [], mkReader foreign_buffer 18).
Proof.
  apply (proj1 (@notesTags_foreign_maker [foreignNote] foreignNote
                  (mkReader foreign_buffer 0) eq_refl ltac:(vm_compute; congruence))).
  - vm_compute. congruence.
  - vm_compute. congruence.
Defined.


(* ------------------------------------------------------------------ *)
(** ** The embedded JPEG *)

Lemma get__found (f : File) (t : Tag) :
  ascending (tiff f) -> In t (tiff f) -> FileM.get_ f (Id t) = t.
Proof.
  intros Hs Hin. unfold FileM.get_. rewrite get_find, (find_ascending _ Hs Hin).
  reflexivity.
Qed.

(** X12.  The preview of a File with the two embedded-JPEG tags: [Bytes] returns
    exactly the [length] bytes of the buffer at [start] when they are all
    there, and fails as truncated when the buffer ends before; it never
    returns a part of them. *)
Theorem Bytes_jpeg_all_or_nothing (f : File) (start length : Tag) :
  ascending (tiff f) ->
  In start (tiff f) -> Id start = JpegFromRawStart ->
  In length (tiff f) -> Id length = JpegFromRawLength ->
  0 <= Offset start -> 0 <= Offset length ->
  (Offset start + Offset length <= len (reader f) ->
   FileM.Bytes f = Ok (slice (reader f) (Offset start) (Offset length)) /\
   len (slice (reader f) (Offset start) (Offset length)) = Offset length) /\
  (0 < Offset length -> len (reader f) < Offset start + Offset length ->
   exists e, FileM.Bytes f = Err e /\ kind e = Truncated).
Proof.
  intros Hs Hin1 Hid1 Hin2 Hid2 H1 H2.
  assert (Hj : FileM.IsJpeg f = true).
  { unfold FileM.IsJpeg. apply andb_true_iff.
    split; apply Has_iff; try exact Hs; apply contains_iff; eauto. }
  unfold FileM.Bytes. rewrite Hj. unfold FileM.processJpeg.
  rewrite <- Hid1, <- Hid2, !get__found by assumption.
  unfold SectionReadFull. split.
  - intros Hfit. split; [|apply slice_length; lia].
    destruct (Z.leb_spec (Offset length) 0).
    + replace (Offset length) with 0 by lia. reflexivity.
    + destruct (Z.leb_spec (len (reader f)) (Offset start)); [lia|].
      destruct (Z.ltb_spec (len (reader f) - Offset start) (Offset length)); [lia|].
      reflexivity.
  - intros Hpos Hshort.
    destruct (Z.leb_spec (Offset length) 0); [lia|].
    destruct (Z.leb_spec (len (reader f)) (Offset start)).
    + exists EOF. split; reflexivity.
    + destruct (Z.ltb_spec (len (reader f) - Offset start) (Offset length)); [|lia].
      exists ErrUnexpectedEOF. split; reflexivity.
Qed.

Lemma Bytes_jpeg_all_or_nothing_witness :
  FileM.Bytes both_sample = Ok [xff; xd8; xff].
Proof.
  destruct (@Bytes_jpeg_all_or_nothing both_sample
              (at_index (tiff both_sample) 4) (at_index (tiff both_sample) 5))
    as [H _].
  - vm_compute. reflexivity.
  - apply at_index_In. vm_compute. split; congruence.
  - vm_compute. reflexivity.
  - apply at_index_In. vm_compute. split; congruence.
  - vm_compute. reflexivity.
  - vm_compute. congruence.
  - vm_compute. congruence.
  - destruct H as [H _]; [vm_compute; congruence|].
    rewrite H. vm_compute. reflexivity.
Defined.

(* ------------------------------------------------------------------ *)
(** ** The pixels of a raw image *)

Lemma from_nth {A} (l : list A) (k : Z) (d : A) :
  0 <= k < len l -> from k l = nth (Z.to_nat k) l d :: from (k + 1) l.
Proof.
  intros Hk. unfold from, len in *.
  replace (Z.to_nat (k + 1)) with (S (Z.to_nat k)) by lia.
  assert (Hn : (Z.to_nat k < List.length l)%nat) by lia.
  revert Hn. generalize (Z.to_nat k) as n. clear Hk k.
  induction l as [|a l IH]; intros n Hn; [cbn in Hn; lia|].
  destruct n as [|n]; [reflexivity|]. cbn [skipn nth]. apply IH. cbn in Hn. lia.
Qed.

Lemma ReadByte_after (b : list byte) (k : Z) :
  0 <= k -> ReadByte_ (afterBytes b k) = (Ok (byteAt b k), afterBytes b (k + 1)).
Proof.
  intros Hk. unfold ReadByte_, afterBytes, byteAt. cbn [buf pos].
  pose proof (len_nonneg b) as HL.
  destruct (Z.lt_ge_cases k (len b)) as [Hlt|Hge].
  - rewrite !Z.min_l by lia. rewrite (@from_nth byte b k x00) by lia. reflexivity.
  - rewrite !Z.min_r by lia.
    replace (from (len b) b) with (@nil byte).
    + rewrite nth_overflow by (unfold len in Hge; lia). reflexivity.
    + unfold from, len. rewrite Nat2Z.id, skipn_all. reflexivity.
Qed.

Lemma rows_stepped {A} (pixel : M A) (px : Z -> A) (c : Z) (b : list byte) (w h : Z) :
  0 <= c -> 0 <= w ->
  (forall k, 0 <= k -> pixel (afterBytes b k) = (Ok (px k), afterBytes b (k + c))) ->
  rows w h pixel b = Ok (pixelGrid w h (fun n => px (c * n))).
Proof.
  intros Hc Hw Hpx. unfold rows.
  assert (Hrow : forall k, 0 <= k ->
            times (Z.to_nat w) pixel (afterBytes b k)
            = (Ok (map (fun i => px (k + c * i)) (zseq 0 (Z.to_nat w))),
               afterBytes b (k + c * w))).
  { intros k Hk. rewrite (@times_stepped A (afterBytes b) pixel px c Hc Hpx) by exact Hk.
    rewrite Z2Nat.id by exact Hw. reflexivity. }
  replace (mkReader b 0) with (afterBytes b 0).
  - rewrite (@times_stepped (list A) (afterBytes b) (times (Z.to_nat w) pixel)
               (fun k => map (fun i => px (k + c * i)) (zseq 0 (Z.to_nat w))) (c * w))
      by (try exact Hrow; nia).
    cbn [fst]. f_equal. unfold pixelGrid. apply map_ext. intros j.
    apply map_ext. intros i. f_equal. lia.
  - unfold afterBytes. pose proof (len_nonneg b). rewrite Z.min_l by lia. reflexivity.
Qed.

(** The pixel buffer of an image whose sides are 32-bit numbers: it has the
    bytes of all pixels, and is refused above the limit of the run time. *)
Lemma pixelBuffer_cases (bpp w h : Z) :
  0 < bpp <= 4 -> 0 <= w < 2 ^ 32 -> 0 <= h < 2 ^ 32 ->
  pixelBuffer bpp w h
  = if maxAlloc <? bpp * w * h then Panic else Ok (bpp * w * h).
Proof.
  intros Hb Hw Hh. unfold pixelBuffer, mul3NonNeg, maxAlloc.
  change (2 ^ 32) with 4294967296 in *.
  change (2 ^ 48) with 281474976710656.
  change (2 ^ 63) with 9223372036854775808.
  change (2 ^ 64) with 18446744073709551616.
  assert (H1 : 0 <= bpp * w < 17179869184) by nia.
  assert (H2 : 0 <= bpp * w * h) by nia.
  destruct (Z.ltb_spec bpp 0); [lia|]. destruct (Z.ltb_spec w 0); [lia|].
  destruct (Z.ltb_spec h 0); [lia|]. cbn [orb].
  destruct (Z.leb_spec 18446744073709551616 (bpp * w)); [lia|].
  destruct (Z.leb_spec 18446744073709551616 (bpp * w * h)).
  { cbn. destruct (Z.ltb_spec 281474976710656 (bpp * w * h)); [reflexivity | lia]. }
  destruct (Z.leb_spec 9223372036854775808 (bpp * w * h)).
  { cbn. destruct (Z.ltb_spec 281474976710656 (bpp * w * h)); [reflexivity | lia]. }
  destruct (Z.ltb_spec (bpp * w * h) 0); [lia|]. reflexivity.
Qed.

(** X13.  The images that [grayImage] and [rgbImage] build over a rectangle
    whose sides are 32-bit numbers.  When the pixel buffer, one byte per
    pixel for a gray image and four for an RGB image, is within the limit of
    the run time: pixel [i] of row [j] is pixel number [w * j + i] of the
    buffer, one byte per pixel for a gray image (255 minus the byte when
    inverted), three bytes and the alpha 255 for an RGB image; bytes that
    the buffer does not have count as zero.  Above the limit the
    constructor of the image panics. *)
Theorem image_pixels (w h : Z) (b : list byte) (inverted : bool) :
  0 <= w < 2 ^ 32 -> 0 <= h < 2 ^ 32 ->
  (w * h <= maxAlloc ->
   grayImage w h b inverted
   = Ok (ImgGray w h
           (pixelGrid w h (fun k => if inverted
                                    then byte_of (255 - byte_val (byteAt b k))
                                    else byteAt b k)))) /\
  (maxAlloc < w * h -> grayImage w h b inverted = Panic) /\
  (4 * w * h <= maxAlloc ->
   rgbImage w h b
   = Ok (ImgRGBA w h
           (pixelGrid w h (fun k => (byteAt b (3 * k), byteAt b (3 * k + 1),
                                     byteAt b (3 * k + 2), xff))))) /\
  (maxAlloc < 4 * w * h -> rgbImage w h b = Panic).
Proof.
  intros Hw Hh.
  assert (Eg : pixelBuffer 1 w h = if maxAlloc <? w * h then Panic else Ok (w * h)).
  { rewrite pixelBuffer_cases by lia. rewrite Z.mul_1_l. reflexivity. }
  assert (Er : pixelBuffer 4 w h
               = if maxAlloc <? 4 * w * h then Panic else Ok (4 * w * h)).
  { apply pixelBuffer_cases; lia. }
  split; [|split; [|split]].
  - intros Hfit. unfold grayImage. rewrite Eg.
    destruct (Z.ltb_spec maxAlloc (w * h)); [lia|]. cbn [rbind].
    rewrite (@rows_stepped byte _
               (fun k => if inverted then byte_of (255 - byte_val (byteAt b k))
                         else byteAt b k) 1 b w h); try lia.
    + cbn [rbind]. do 2 f_equal. unfold pixelGrid. apply map_ext. intros j.
      apply map_ext. intros i.
      replace (1 * (w * j + i)) with (w * j + i) by lia. reflexivity.
    + intros k Hk. unfold bind. rewrite ReadByte_after by exact Hk. reflexivity.
  - intros Hbig. unfold grayImage. rewrite Eg.
    destruct (Z.ltb_spec maxAlloc (w * h)); [reflexivity | lia].
  - intros Hfit. unfold rgbImage. rewrite Er.
    destruct (Z.ltb_spec maxAlloc (4 * w * h)); [lia|]. cbn [rbind].
    rewrite (@rows_stepped (byte * byte * byte * byte) _
               (fun k => (byteAt b k, byteAt b (k + 1), byteAt b (k + 2), xff)) 3 b w h);
      try lia.
    + cbn [rbind]. reflexivity.
    + intros k Hk. unfold bind. rewrite ReadByte_after by exact Hk.
      rewrite ReadByte_after by lia. rewrite ReadByte_after by lia.
      unfold ret. replace (k + 1 + 1) with (k + 2) by lia.
      replace (k + 2 + 1) with (k + 3) by lia. reflexivity.
  - intros Hbig. unfold rgbImage. rewrite Er.
    destruct (Z.ltb_spec maxAlloc (4 * w * h)); [reflexivity | lia].
Qed.

Lemma image_pixels_witness :
  grayImage 2 2 [x01; x02; x03] true
  = Ok (ImgGray 2 2 [[xfe; xfd]; [xfc; xff]]) /\
  rgbImage 4294967295 4294967295 [x01; x02; x03] = Panic.
Proof.
  split.
  - rewrite (proj1 (@image_pixels 2 2 [x01; x02; x03] true
                      ltac:(vm_compute; split; congruence)
                      ltac:(vm_compute; split; congruence)))
      by (vm_compute; congruence).
    vm_compute. reflexivity.
  - apply (proj2 (proj2 (proj2 (@image_pixels 4294967295 4294967295 [x01; x02; x03] true
                      ltac:(vm_compute; split; congruence)
                      ltac:(vm_compute; split; congruence))))).
    vm_compute. reflexivity.
Defined.

(* ------------------------------------------------------------------ *)
(** ** Supported files and the images they give *)

Section Supported.
Variable image_Decode : list byte -> result Image.

(** X14.  A raw File (strips, no embedded JPEG) with a Photometric tag of value
    [u] whose bytes can be assembled: [Image] returns an image only for the
    values 0, 1, 2 and 5.  For the values 3 (palette), 4 (mask) and 6
    (YCbCr) [IsSupported] is true and [Image] fails with the unknown-format
    error; for a value above 6 both refuse. *)
Theorem IsSupported_overstates (f : File) (t : Tag) (u : Z) (b : list byte) :
  FileM.IsJpeg f = false -> FileM.IsRaw f = true ->
  find (tiff f) Photometric = Some t -> TagM.Uint t = Ok u ->
  FileM.Bytes f = Ok b ->
  (u = ImgPalette \/ u = ImgMask \/ u = ImgYCbCr ->
   FileM.IsSupported f = Ok true /\ ImageOf image_Decode f = Err ErrFormat) /\
  (6 < u ->
   FileM.IsSupported f = Ok false /\ ImageOf image_Decode f = Err ErrFormat) /\
  (forall img, ImageOf image_Decode f = Ok img ->
               u = ImgBlack \/ u = ImgWhite \/ u = ImgRGB \/ u = ImgCMYK).
Proof.
  intros Hj Hr Hf Hu Hb.
  assert (Es : FileM.IsSupported f = Ok ((0 <=? u) && (u <=? 6))).
  { unfold FileM.IsSupported. rewrite get_find, Hf, Hu. reflexivity. }
  assert (Ei : ImageOf image_Decode f
               = if (u =? ImgBlack) || (u =? ImgWhite)
                 then grayImage (Offset (FileM.get_ f ImageWidth))
                                (Offset (FileM.get_ f ImageLength)) b (u =? ImgWhite)
                 else if u =? ImgRGB
                 then rgbImage (Offset (FileM.get_ f ImageWidth))
                               (Offset (FileM.get_ f ImageLength)) b
                 else if u =? ImgCMYK
                 then let? _ := pixelBuffer 4 (Offset (FileM.get_ f ImageWidth))
                                            (Offset (FileM.get_ f ImageLength)) in
                      Ok (ImgCMYKBlank (Offset (FileM.get_ f ImageWidth))
                                       (Offset (FileM.get_ f ImageLength)))
                 else Err ErrFormat).
  { unfold ImageOf. rewrite Hj, Hr. unfold decodeRaw. rewrite Hb. cbn [rbind].
    unfold FileM.get_ at 1. rewrite get_find, Hf, Hu. reflexivity. }
  rewrite Es, Ei. unfold ImgBlack, ImgWhite, ImgRGB, ImgPalette, ImgMask, ImgCMYK, ImgYCbCr.
  split; [|split].
  - intros [ -> | [ -> | -> ] ]; split; reflexivity.
  - intros H6.
    destruct (Z.leb_spec u 6); [lia|]. rewrite andb_false_r.
    destruct (Z.eqb_spec u 0); [lia|]. destruct (Z.eqb_spec u 1); [lia|].
    destruct (Z.eqb_spec u 2); [lia|]. destruct (Z.eqb_spec u 5); [lia|].
    split; reflexivity.
  - intros img.
    destruct (Z.eqb_spec u 0); [auto|]. destruct (Z.eqb_spec u 1); [auto|].
    destruct (Z.eqb_spec u 2); [auto|]. destruct (Z.eqb_spec u 5); [auto|].
    discriminate.
Qed.
End Supported.

Lemma IsSupported_overstates_witness :
  FileM.IsSupported palette_sample = Ok true /\
  ImageOf keepBytes palette_sample = Err ErrFormat /\
  FileM.Bytes palette_sample = Ok [x00; x01; x02; x03].
Proof.
  destruct (@IsSupported_overstates keepBytes palette_sample
              (at_index (tiff palette_sample) 1) 3 [x00; x01; x02; x03])
    as ([H1 H2] & _); try (vm_compute; reflexivity).
  - left. reflexivity.
  - split; [exact H1|]. split; [exact H2|]. vm_compute. reflexivity.
Defined.


(* ------------------------------------------------------------------ *)
(** ** From the content of a directory to its tags and values *)

(** X15.  A buffer that holds a directory, behind the header of its byte order,
    with ids that go up and no sentinel count, decodes to the tags of its
    content, one per item and in this order. *)
Theorem held_content_decodes (o : ByteOrder) (s : list byte) (at_ fam : Z)
        (place : Item -> Z) (items : list Item) :
  has_header o s = true -> holds o s at_ place items = true ->
  increasingb (map itemId items) = true ->
  forallb (fun it => negb (itemCount it =? 0xFFFFFFFF)) items = true ->
  fst (readRoot at_ fam (mkReader s 0)) = Ok (map (tagOfItem o fam place) items).
Proof.
  intros Hh Hheld Hs Hc. rewrite (@readRoot_holds o s at_ fam place items Hh Hheld).
  rewrite decodeItems_Ok; [reflexivity | exact Hs | exact Hc].
Qed.

Lemma held_content_decodes_witness :
  fst (readRoot 8 Tiff (mkReader (sample_buffer BigEndian) 0))
  = Ok (map (tagOfItem BigEndian Tiff sample_place) sample_items).
Proof.
  apply held_content_decodes; vm_compute; reflexivity.
Defined.



Section ValuesOfNumbers.
Variable FormatFloat32 FormatFloat64 : Z -> string.
Variable fam : Z.

End ValuesOfNumbers.



(* ------------------------------------------------------------------ *)
(** ** The chain of root directories *)

Lemma readTags_position (o : ByteOrder) (at_ delta fam : Z) (r r' : Reader)
      (tags : list Tag) :
  0 <= at_ ->
  readTags o at_ delta fam r = (Ok tags, r') ->
  directoryEnd o (buf r) at_ <= len (buf r) /\
  r' = mkReader (buf r) (directoryEnd o (buf r) at_).
Proof.
  intros Hat H. unfold readTags in H. unfold directoryEnd.
  apply bind_Ok in H. destruct H as (u & r1 & Hseek & H).
  cbn [SeekStart] in Hseek. injection Hseek as _ <-.
  apply bind_Ok in H. destruct H as (count & r2 & Hcount & H).
  unfold binary_Read in Hcount.
  destruct (ReadFull 2 (mkReader (buf r) at_)) as [[bs| |] r3] eqn:E; try discriminate.
  injection Hcount as <- <-.
  apply ReadFull_Ok_inv in E; [|lia]. destruct E as (Hfit & -> & ->).
  assert (Hn : 0 <= get_uint o (slice (buf r) at_ 2)) by apply get_uint_range.
  apply readEntries_Ok_inv in H; [|lia]. rewrite Z2Nat.id in H by lia.
  destruct H as (Hfit' & _ & ->). split; [lia | f_equal; lia].
Qed.

Lemma deferSeek_inv {A} (offset : Z) (body : M A) (r r' : Reader) (res : result A) :
  deferSeek offset body r = (res, r') ->
  exists r3, body r = (res, r3) /\ r' = mkReader (buf r3) offset.
Proof.
  unfold deferSeek. destruct (body r) as [res0 r3]. intros [= <- <-]. eauto.
Qed.

Lemma readDirectory_position (o : ByteOrder) (at_ index : Z) (f : File) (r r' : Reader) :
  0 <= at_ ->
  readDirectory o at_ index r = (Ok f, r') ->
  directoryEnd o (buf r) at_ <= len (buf r) /\
  r' = mkReader (buf r) (directoryEnd o (buf r) at_).
Proof.
  intros Hat H. pose proof (keeps_readDirectory o at_ index r) as Hb.
  rewrite H in Hb. cbn [snd] in Hb.
  unfold readDirectory in H.
  apply bind_Ok in H. destruct H as (tags & r1 & Htags & H).
  apply readTags_position in Htags; [|exact Hat]. destruct Htags as [Hfit ->].
  apply bind_Ok in H. destruct H as (offset & r2 & Htell & H).
  unfold Tell in Htell. injection Htell as <- <-. cbn [pos] in H.
  apply deferSeek_inv in H. destruct H as (r3 & _ & ->).
  cbn [buf] in Hb. rewrite Hb. auto.
Qed.

(** X17.  How the loop of [Decode] leaves a root directory that it has read, at
    an offset that is not zero: it stops with the Files read so far when the
    buffer ends right behind the directory, or when the next offset is zero;
    it fails when the buffer ends inside the four bytes of the next offset;
    and otherwise it goes on with the directory at the next offset. *)
Theorem chain_ends (fuel : nat) (o : ByteOrder) (at_ i : Z) (files : list File)
        (r r' : Reader) (f : File) :
  0 < at_ -> readDirectory o at_ i r = (Ok f, r') ->
  let e := directoryEnd o (buf r) at_ in
  let next := get_uint o (slice (buf r) e 4) in
  (len (buf r) = e ->
   decodeLoop (S fuel) o at_ i files r = Some (Ok (files ++ [f]))) /\
  (e < len (buf r) < e + 4 ->
   decodeLoop (S fuel) o at_ i files r = Some (Err ErrUnexpectedEOF)) /\
  (e + 4 <= len (buf r) -> next = 0 ->
   decodeLoop (S fuel) o at_ i files r = Some (Ok (files ++ [f]))) /\
  (e + 4 <= len (buf r) ->
   decodeLoop (S fuel) o at_ i files r
   = decodeLoop fuel o next (i + 1) (files ++ [f]) (mkReader (buf r) (e + 4))).
Proof.
  intros Hat Hd e next.
  destruct (@readDirectory_position o at_ i f r r' ltac:(lia) Hd) as [Hfit Hr'].
  fold e in Hfit, Hr'.
  assert (He : 0 <= e).
  { unfold e, directoryEnd. pose proof (get_uint_range o (slice (buf r) at_ 2)). lia. }
  cbn [decodeLoop]. destruct (Z.eqb_spec at_ 0); [lia|]. rewrite Hd, Hr'.
  assert (Hgo : e + 4 <= len (buf r) ->
                binary_Read 4 o (mkReader (buf r) e)
                = (Ok next, mkReader (buf r) (e + 4))).
  { intros H4. apply binary_Read_ok; lia. }
  split; [|split; [|split]].
  - intros Hend. unfold binary_Read, ReadFull. cbn [buf pos Z.leb Z.compare].
    destruct (Z.leb_spec (len (buf r)) e); [reflexivity | lia].
  - intros Hcut. unfold binary_Read, ReadFull. cbn [buf pos Z.leb Z.compare].
    destruct (Z.leb_spec (len (buf r)) e); [lia|].
    destruct (Z.ltb_spec (len (buf r) - e) 4); [reflexivity | lia].
  - intros H4 H0. rewrite (Hgo H4), H0. destruct fuel; reflexivity.
  - intros H4. rewrite (Hgo H4). reflexivity.
Qed.

Lemma chain_ends_witness :
  decodeLoop 1 LittleEndian 8 0 [] (mkReader strips_file 8) = Some (Ok [strips_sample]).
Proof.
  destruct (readDirectory LittleEndian 8 0 (mkReader strips_file 8)) as [[f| |] r'] eqn:E;
    try (vm_compute in E; discriminate).
  destruct (@chain_ends 0 LittleEndian 8 0 [] (mkReader strips_file 8) r' f
              ltac:(lia) E) as (_ & _ & H & _).
  rewrite H; [| vm_compute; congruence | vm_compute; reflexivity].
  assert (Ef : fst (readDirectory LittleEndian 8 0 (mkReader strips_file 8)) = Ok f)
    by (rewrite E; reflexivity).
  vm_compute in Ef. injection Ef as <-. vm_compute. reflexivity.
Defined.

(** X18.  A buffer with a header only: [Decode] fails as truncated when the four
    bytes of the first offset are not all there, and returns the empty
    forest, without an error, when the first offset is zero. *)
Theorem Decode_header_only (fuel : nat) (b : list byte) (o : ByteOrder) :
  has_header o b = true ->
  (len b < 8 -> exists e, Decode fuel b = Some (Err e) /\ kind e = Truncated) /\
  (8 <= len b -> get_uint o (slice b 4 4) = 0 -> Decode fuel b = Some (Ok [])).
Proof.
  intros Hh. unfold Decode. rewrite (@readOrder_header o b Hh). split.
  - intros Hshort. unfold binary_Read, ReadFull. cbn [buf pos Z.leb Z.compare].
    destruct (Z.leb_spec (len b) 4).
    + exists EOF. split; reflexivity.
    + destruct (Z.ltb_spec (len b - 4) 4); [|lia].
      exists ErrUnexpectedEOF. split; reflexivity.
  - intros Hlen H0. rewrite binary_Read_ok by lia. rewrite H0.
    destruct fuel; reflexivity.
Qed.

Lemma Decode_header_only_witness :
  Decode 0 (header BigEndian ++ u32 BigEndian 0) = Some (Ok []).
Proof.
  apply (proj2 (@Decode_header_only 0 (header BigEndian ++ u32 BigEndian 0) BigEndian
                  eq_refl)).
  - vm_compute. congruence.
  - vm_compute. reflexivity.
Defined.

Lemma readDirectory_any (o : ByteOrder) (at_ i1 i2 : Z) (r1 r2 r' : Reader) (f : File) :
  buf r1 = buf r2 ->
  readDirectory o at_ i1 r1 = (Ok f, r') ->
  exists f2, readDirectory o at_ i2 r2 = (Ok f2, r').
Proof.
  destruct r1 as [s p1], r2 as [s2 p2]. cbn [buf]. intros <- H.
  unfold readDirectory, bind, Tell, deferSeek in *.
  change (readTags o at_ 0 Tiff (mkReader s p1))
    with (readTags o at_ 0 Tiff (mkReader s p2)) in H.
  destruct (readTags o at_ 0 Tiff (mkReader s p2)) as [[tags|e|] ra]; try discriminate.
  destruct (exifTags o tags ra) as [[fexif|e|] rb]; try discriminate.
  destruct (gpsTags o tags rb) as [[fgps|e|] rc]; try discriminate.
  destruct (notesTags fexif rc) as [[fnotes|e|] rd]; try discriminate.
  destruct (subTags o tags rd) as [[data|e|] re]; try discriminate.
  injection H as _ <-. eexists. reflexivity.
Qed.

Lemma decodeLoop_cycle (o : ByteOrder) (s : list byte) (at_ : Z) (f : File)
      (r r' : Reader) :
  0 < at_ -> buf r = s ->
  readDirectory o at_ 0 r = (Ok f, r') ->
  directoryEnd o s at_ + 4 <= len s ->
  get_uint o (slice s (directoryEnd o s at_) 4) = at_ ->
  forall fuel i files p, decodeLoop fuel o at_ i files (mkReader s p) = None.
Proof.
  intros Hat Hbuf Hd Hfit Hnext.
  induction fuel as [|fuel IH]; intros i files p; cbn [decodeLoop];
    (destruct (Z.eqb_spec at_ 0); [lia|]); [reflexivity|].
  destruct (@readDirectory_any o at_ 0 i r (mkReader s p) r' f Hbuf Hd) as (f2 & Hd2).
  rewrite Hd2.
  destruct (@readDirectory_position o at_ i f2 (mkReader s p) r' ltac:(lia) Hd2)
    as [_ ->]. cbn [buf].
  assert (He : 0 <= directoryEnd o s at_).
  { unfold directoryEnd. pose proof (get_uint_range o (slice s at_ 2)). lia. }
  rewrite binary_Read_ok by lia. rewrite Hnext. apply IH.
Qed.

(** X19.  A root directory whose next-directory offset is its own offset: the
    loop of [Decode] reads it again and again, and [Decode] does not return,
    however many rounds it is given. *)
Theorem Decode_cycle_never_returns (o : ByteOrder) (b : list byte) (f : File)
        (r' : Reader) :
  has_header o b = true -> 8 <= len b ->
  let at_ := get_uint o (slice b 4 4) in
  0 < at_ ->
  readDirectory o at_ 0 (mkReader b 8) = (Ok f, r') ->
  directoryEnd o b at_ + 4 <= len b ->
  get_uint o (slice b (directoryEnd o b at_) 4) = at_ ->
  forall fuel, Decode fuel b = None.
Proof.
  intros Hh Hlen at_ Hat Hd Hfit Hnext fuel.
  unfold Decode. rewrite (@readOrder_header o b Hh).
  rewrite binary_Read_ok by lia. fold at_.
  eapply decodeLoop_cycle; [exact Hat | | exact Hd | exact Hfit | exact Hnext].
  reflexivity.
Qed.

Lemma Decode_cycle_never_returns_witness :
  Decode 1000 (cyclic_file LittleEndian) = None.
Proof.
  destruct (readDirectory LittleEndian 8 0 (mkReader (cyclic_file LittleEndian) 8))
    as [[f| |] r'] eqn:E; try (vm_compute in E; discriminate).
  apply (@Decode_cycle_never_returns LittleEndian (cyclic_file LittleEndian) f r').
  - reflexivity.
  - vm_compute. congruence.
  - vm_compute. reflexivity.
  - exact E.
  - vm_compute. congruence.
  - vm_compute. reflexivity.
Defined.


(* ------------------------------------------------------------------ *)
(** ** Package mov: reading the atoms *)

Lemma len_atom (name content : list byte) :
  len name = 4 -> len (Mov.atom name content) = 8 + len content.
Proof.
  intros Hn. unfold Mov.atom. rewrite !len_app, Hn.
  unfold len at 1. rewrite put_uint_length. lia.
Qed.

Lemma mov_read_header (pre post name content : list byte) :
  len name = 4 ->
  Mov.readFull 8 (mkReader (pre ++ Mov.atom name content ++ post) (len pre))
  = (Mov.Ok (put_uint BigEndian 4 (8 + len content) ++ name),
     mkReader (pre ++ Mov.atom name content ++ post) (len pre + 8)).
Proof.
  intros Hn. unfold Mov.readFull. cbn [buf pos Z.leb Z.compare].
  pose proof (len_nonneg pre). pose proof (len_nonneg post).
  pose proof (len_nonneg content).
  rewrite !len_app, (@len_atom name content Hn).
  destruct (Z.leb_spec (len pre + (8 + len content + len post)) (len pre)); [lia|].
  destruct (Z.ltb_spec (len pre + (8 + len content + len post) - len pre) 8); [lia|].
  f_equal. f_equal.
  rewrite <- (Z.add_0_r (len pre)), slice_app_r by lia.
  unfold Mov.atom. rewrite <- !app_assoc.
  rewrite (app_assoc (put_uint BigEndian 4 (8 + len content)) name).
  apply slice_app_l'. rewrite len_app, Hn. unfold len. rewrite put_uint_length. lia.
Qed.

Lemma mov_header_fields (name content : list byte) :
  len name = 4 -> 8 + len content < 2 ^ 32 ->
  from 4 (put_uint BigEndian 4 (8 + len content) ++ name) = name /\
  get_uint BigEndian (slice (put_uint BigEndian 4 (8 + len content) ++ name) 0 4)
  = 8 + len content.
Proof.
  intros Hn Hc. pose proof (len_nonneg content).
  assert (H4 : len (put_uint BigEndian 4 (8 + len content)) = 4)
    by (unfold len; rewrite put_uint_length; reflexivity).
  split.
  - rewrite <- H4 at 1. rewrite <- (Z.add_0_r (len _)), from_app_r by lia. reflexivity.
  - rewrite slice_app_l' by exact H4. rewrite get_put_uint.
    change (256 ^ Z.of_nat 4) with (2 ^ 32). apply Z.mod_small. lia.
Qed.

Lemma mov_content (pre post name content : list byte) :
  len name = 4 ->
  slice (pre ++ Mov.atom name content ++ post) (len pre + 8) (len content) = content.
Proof.
  intros Hn. unfold Mov.atom. rewrite <- !app_assoc.
  rewrite (app_assoc pre), (app_assoc (pre ++ _)).
  rewrite <- (Z.add_0_r (len pre + 8)).
  rewrite slice_app_r' with (k := len pre + 8); [apply slice_app_l | | lia].
  rewrite !len_app, Hn. unfold len at 2. rewrite put_uint_length. lia.
Qed.

Lemma readLoop_atoms (items : Mov.Atoms) :
  Forall Mov.atom_ok items ->
  forall (pre post : list byte) (m : Mov.Atoms) (k : nat),
    let body := List.concat (map (fun kv => Mov.atom (fst kv) (snd kv)) items) in
    Mov.readLoop (List.length items + k) m (mkReader (pre ++ body ++ post) (len pre))
    = Mov.readLoop k (rev items ++ m)
        (mkReader (pre ++ body ++ post) (len pre + len body)).
Proof.
  induction 1 as [|[name content] items [Hn Hc] _ IH]; intros pre post m k; cbn zeta.
  - cbn [map List.concat rev app List.length Nat.add]. change (len (@nil byte)) with 0.
    rewrite Z.add_0_r. reflexivity.
  - cbn [fst snd] in Hn, Hc.
    cbn [map List.concat List.length Nat.add fst snd Mov.readLoop].
    rewrite <- app_assoc. rewrite (@mov_read_header pre _ name content Hn).
    destruct (@mov_header_fields name content Hn Hc) as [-> ->].
    cbn [buf pos]. replace (8 + len content - 8) with (len content) by lia.
    rewrite (@mov_content pre _ name content Hn).
    unfold Mov.seekCurrent. cbn [buf pos].
    pose proof (len_nonneg pre). pose proof (len_nonneg content).
    destruct (Z.ltb_spec (len pre + 8 + len content) 0); [lia|].
    rewrite app_assoc.
    replace (len pre + 8 + len content) with (len (pre ++ Mov.atom name content))
      by (rewrite len_app, (@len_atom name content Hn); lia).
    rewrite IH. cbn [rev].
    replace ((rev items ++ [(name, content)]) ++ m)
      with (rev items ++ (name, content) :: m)
      by (rewrite <- app_assoc; reflexivity).
    rewrite <- app_assoc. f_equal. f_equal. rewrite !len_app. lia.
Qed.

Lemma mov_magic (brand rest : list byte) :
  8 + len brand < 2 ^ 32 ->
  Mov.readMagic (mkReader (Mov.atom Mov.ftyp brand ++ rest) 0)
  = (Mov.Ok tt, mkReader (Mov.atom Mov.ftyp brand ++ rest)
                         (len (Mov.atom Mov.ftyp brand))).
Proof.
  intros Hb. unfold Mov.readMagic.
  pose proof (@mov_read_header [] rest Mov.ftyp brand eq_refl) as H.
  cbn [app] in H. change (len (@nil byte)) with 0 in H. rewrite H.
  destruct (@mov_header_fields Mov.ftyp brand eq_refl Hb) as [-> ->].
  change (bytes_eqb Mov.ftyp Mov.ftyp) with true. cbn [negb].
  unfold Mov.seekCurrent. cbn [buf pos]. pose proof (len_nonneg brand).
  destruct (Z.ltb_spec (0 + 8 + (8 + len brand - 8)) 0); [lia|].
  rewrite (@len_atom Mov.ftyp brand eq_refl). do 2 f_equal. lia.
Qed.

(** X20.  A file made of a [ftyp] atom and of atoms with names of four
    bytes and sizes that fit 32 bits is decoded by [Mov.Decode] to the map
    of its atoms: every name gives the content of the atom that bears it,
    of the last one when several do. *)
Theorem mov_Decode_atoms (brand : list byte) (items : Mov.Atoms) :
  8 + len brand < 2 ^ 32 -> Forall Mov.atom_ok items ->
  Mov.Decode (S (List.length items)) (Mov.movie brand items)
  = Some (Mov.Ok (Mov.mkFile (rev items))).
Proof.
  intros Hb Hok. unfold Mov.Decode, Mov.movie. rewrite (@mov_magic brand _ Hb).
  unfold Mov.readAtoms.
  pose proof (@readLoop_atoms items Hok (Mov.atom Mov.ftyp brand) [] [] 1%nat) as H.
  cbn zeta in H. rewrite app_nil_r in H.
  replace (S (List.length items)) with (List.length items + 1)%nat by lia.
  rewrite H. rewrite app_nil_r. cbn [Mov.readLoop]. unfold Mov.readFull.
  cbn [buf pos Z.leb Z.compare]. rewrite len_app.
  destruct (Z.leb_spec
              (len (Mov.atom Mov.ftyp brand)
               + len (List.concat (map (fun kv => Mov.atom (fst kv) (snd kv)) items)))
              (len (Mov.atom Mov.ftyp brand)
               + len (List.concat (map (fun kv => Mov.atom (fst kv) (snd kv)) items))));
    [reflexivity | lia].
Qed.

Lemma mov_Decode_atoms_witness :
  exists f, Mov.Decode 2 headless_movie = Some (Mov.Ok f) /\
            Mov.lookup Mov.moov (Mov.atoms f)
            = Some (Mov.atom [x74; x72; x61; x6b] [x00; x01]).
Proof.
  eexists. split.
  - unfold headless_movie.
    apply (@mov_Decode_atoms [x71; x74; x20; x20]
             [(Mov.moov, Mov.atom [x74; x72; x61; x6b] [x00; x01])]).
    + vm_compute. reflexivity.
    + constructor; [|constructor]. split; vm_compute; reflexivity.
  - reflexivity.
Defined.

Lemma readLoop_more (fuel k : nat) (m : Mov.Atoms) (r : Reader) (x : Mov.result Mov.File) :
  Mov.readLoop fuel m r = Some x -> Mov.readLoop (fuel + k) m r = Some x.
Proof.
  revert m r; induction fuel as [|fuel IH]; intros m r H; [discriminate|].
  cbn [Mov.readLoop Nat.add] in *.
  destruct (Mov.readFull 8 r) as [[head|e|] r1]; try exact H.
  destruct (Mov.seekCurrent _ r1) as [[u|e|] r2]; try exact H.
  apply IH. exact H.
Qed.

Lemma readLoop_zero_size (s : list byte) (p : Z) :
  0 <= p -> p + 8 <= len s -> get_uint BigEndian (slice s p 4) = 0 ->
  forall fuel m, Mov.readLoop fuel m (mkReader s p) = None.
Proof.
  intros Hp Hfit H0. induction fuel as [|fuel IH]; intros m; [reflexivity|].
  cbn [Mov.readLoop]. unfold Mov.readFull. cbn [buf pos Z.leb Z.compare].
  destruct (Z.leb_spec (len s) p); [lia|].
  destruct (Z.ltb_spec (len s - p) 8); [lia|].
  rewrite slice_slice by lia. rewrite H0.
  unfold Mov.seekCurrent. cbn [buf pos].
  destruct (Z.ltb_spec (p + 8 + (0 - 8)) 0); [lia|].
  replace (p + 8 + (0 - 8)) with p by lia. apply IH.
Qed.

(** X21.  An atom of size zero stops [Mov.Decode] for good: the loop of [readAtoms]
    steps back over the header it has just read and reads it again, so a
    file with such an atom behind well-formed ones is never decoded,
    however many rounds the loop is given. *)
Theorem mov_zero_size_never_returns (brand name rest : list byte) (items : Mov.Atoms) :
  8 + len brand < 2 ^ 32 -> Forall Mov.atom_ok items -> len name = 4 ->
  forall fuel,
    Mov.Decode fuel (Mov.movie brand items ++ put_uint BigEndian 4 0 ++ name ++ rest)
    = None.
Proof.
  intros Hb Hok Hn fuel. unfold Mov.Decode, Mov.movie. rewrite <- app_assoc.
  rewrite (@mov_magic brand _ Hb). unfold Mov.readAtoms.
  match goal with |- ?lhs = None => destruct lhs as [x|] eqn:E end; [|reflexivity].
  apply (@readLoop_more fuel (List.length items)) in E.
  rewrite Nat.add_comm in E.
  pose proof (@readLoop_atoms items Hok (Mov.atom Mov.ftyp brand)
                (put_uint BigEndian 4 0 ++ name ++ rest) [] fuel) as H.
  cbn zeta in H. rewrite H in E. rewrite readLoop_zero_size in E; [discriminate | | |].
  - pose proof (len_nonneg (Mov.atom Mov.ftyp brand)).
    pose proof (len_nonneg (List.concat (map (fun kv => Mov.atom (fst kv) (snd kv)) items))).
    lia.
  - rewrite !len_app, Hn. change (len (put_uint BigEndian 4 0)) with 4.
    pose proof (len_nonneg rest). lia.
  - rewrite app_assoc, <- len_app, <- (Z.add_0_r (len _)), slice_app_r by lia.
    rewrite slice_app_l' by reflexivity.
    reflexivity.
Qed.

Lemma mov_zero_size_never_returns_witness :
  Mov.Decode 1000 open_movie = None.
Proof.
  unfold open_movie.
  apply (@mov_zero_size_never_returns [x71; x74; x20; x20] [x6d; x64; x61; x74]
           [x01; x02; x03] [(Mov.moov, [])]).
  - vm_compute. reflexivity.
  - constructor; [|constructor]. split; vm_compute; reflexivity.
  - reflexivity.
Defined.

(* ------------------------------------------------------------------ *)
(** ** Package mov: the header of the movie *)

Lemma mov_readFull_pos (n : Z) (r r' : Reader) (bs : list byte) :
  0 < n -> Mov.readFull n r = (Mov.Ok bs, r') ->
  buf r' = buf r /\ pos r' = pos r + n /\ pos r + n <= len (buf r).
Proof.
  intros Hn. unfold Mov.readFull.
  destruct (Z.leb_spec n 0); [lia|].
  destruct (Z.leb_spec (len (buf r)) (pos r)); [discriminate|].
  destruct (Z.ltb_spec (len (buf r) - pos r) n); [discriminate|].
  intros [= <- <-]. cbn [buf pos]. repeat split. lia.
Qed.

Lemma mov_readFull_errors (n : Z) (r r' : Reader) (x : Mov.result (list byte)) :
  Mov.readFull n r = (x, r') ->
  match x with
  | Mov.Ok _ => True
  | Mov.Err e => e = Mov.EOF \/ e = Mov.ErrUnexpectedEOF
  | Mov.Panic => False
  end.
Proof.
  unfold Mov.readFull.
  destruct (n <=? 0); [intros [= <- _]; exact I|].
  destruct (len (buf r) <=? pos r); [intros [= <- _]; auto|].
  destruct (len (buf r) - pos r <? n); intros [= <- _]; auto.
Qed.

Lemma findLoop_results (fuel : nat) (atom : list byte) (r : Reader)
      (x : Mov.result (option (list byte))) :
  0 <= pos r -> Mov.findLoop fuel atom r = Some x ->
  match x with
  | Mov.Ok rs => rs <> None
  | Mov.Err e => e = Mov.EOF \/ e = Mov.ErrUnexpectedEOF
  | Mov.Panic => False
  end.
Proof.
  revert r; induction fuel as [|fuel IH]; intros r Hp H; [discriminate|].
  cbn [Mov.findLoop] in H.
  destruct (Mov.readFull 8 r) as [[head|e|] r1] eqn:E1.
  - apply mov_readFull_pos in E1; [|lia]. destruct E1 as (_ & Hp1 & _).
    destruct (bytes_eqb (from 4 head) atom).
    + destruct (Mov.readFull _ r1) as [[body|e|] r2] eqn:E2.
      * injection H as <-. discriminate.
      * injection H as <-. exact (mov_readFull_errors _ _ E2).
      * exact (False_ind _ (mov_readFull_errors _ _ E2)).
    + unfold Mov.seekCurrent in H.
      pose proof (Z.mod_pos_bound (get_uint BigEndian (slice head 0 4) - 8) (2 ^ 32)
                    ltac:(lia)) as Hs.
      destruct (Z.ltb_spec (pos r1 + (get_uint BigEndian (slice head 0 4) - 8) mod 2 ^ 32) 0);
        [lia|].
      apply IH in H; [exact H|]. cbn [pos]. lia.
  - injection H as <-. exact (mov_readFull_errors _ _ E1).
  - exact (False_ind _ (mov_readFull_errors _ _ E1)).
Qed.

Lemma findLoop_returns (atom : list byte) (fuel : nat) (r : Reader) :
  0 <= pos r -> Z.max 0 (len (buf r) - pos r) < 8 * Z.of_nat fuel ->
  exists x, Mov.findLoop fuel atom r = Some x.
Proof.
  revert r; induction fuel as [|fuel IH]; intros r Hp Hf; [lia|].
  cbn [Mov.findLoop].
  destruct (Mov.readFull 8 r) as [[head|e|] r1] eqn:E1; [|eauto|eauto].
  apply mov_readFull_pos in E1; [|lia]. destruct E1 as (Hb & Hp1 & Hfit).
  destruct (bytes_eqb (from 4 head) atom).
  - destruct (Mov.readFull _ r1) as [[body|e|] r2]; eauto.
  - unfold Mov.seekCurrent.
    pose proof (Z.mod_pos_bound (get_uint BigEndian (slice head 0 4) - 8) (2 ^ 32)
                  ltac:(lia)) as Hs.
    destruct (Z.ltb_spec (pos r1 + (get_uint BigEndian (slice head 0 4) - 8) mod 2 ^ 32) 0);
      [lia|].
    apply IH; cbn [buf pos]; rewrite ?Hb; lia.
Qed.

(** X22.  [findAtom] on a section: with a round for every eight bytes of the
    section, and one more, it returns; it returns the content of an atom or
    fails with an end-of-file error, and never with the not-found error,
    also when the section has no atom of the name asked for. *)
Theorem findAtom_never_not_found (atom section : list byte) :
  exists x,
    Mov.findAtom (S (Z.to_nat (len section))) atom (mkReader section 0) = Some x /\
    match x with
    | Mov.Ok _ => True
    | Mov.Err e => e = Mov.EOF \/ e = Mov.ErrUnexpectedEOF
    | Mov.Panic => False
    end.
Proof.
  pose proof (len_nonneg section) as HL.
  destruct (@findLoop_returns atom (S (Z.to_nat (len section))) (mkReader section 0))
    as (x & Hx); [cbn; lia | cbn [buf pos]; lia |].
  pose proof (@findLoop_results _ atom (mkReader section 0) x ltac:(cbn; lia) Hx) as Hr.
  unfold Mov.findAtom. rewrite Hx.
  destruct x as [[body|]|e|].
  - eexists. split; [reflexivity | exact I].
  - exfalso. apply Hr. reflexivity.
  - eexists. split; [reflexivity | exact Hr].
  - destruct Hr.
Qed.

Lemma findLoop_skips (atom : list byte) (items : Mov.Atoms) :
  Forall Mov.atom_ok items -> (forall kv, In kv items -> fst kv <> atom) ->
  forall (pre post : list byte) (k : nat),
    let body := List.concat (map (fun kv => Mov.atom (fst kv) (snd kv)) items) in
    Mov.findLoop (List.length items + k) atom (mkReader (pre ++ body ++ post) (len pre))
    = Mov.findLoop k atom (mkReader (pre ++ body ++ post) (len pre + len body)).
Proof.
  induction 1 as [|[name content] items [Hn Hc] _ IH]; intros Hne pre post k; cbn zeta.
  - cbn [map List.concat List.length Nat.add]. change (len (@nil byte)) with 0.
    rewrite Z.add_0_r. reflexivity.
  - cbn [fst snd] in Hn, Hc.
    cbn [map List.concat List.length Nat.add fst snd Mov.findLoop].
    rewrite <- app_assoc. rewrite (@mov_read_header pre _ name content Hn).
    destruct (@mov_header_fields name content Hn Hc) as [-> ->].
    destruct (bytes_eqb name atom) eqn:E.
    { apply bytes_eqb_iff in E. exfalso. apply (Hne (name, content)); [left; reflexivity|].
      exact E. }
    pose proof (len_nonneg pre). pose proof (len_nonneg content).
    replace ((8 + len content - 8) mod 2 ^ 32) with (len content)
      by (rewrite Z.mod_small; lia).
    unfold Mov.seekCurrent. cbn [buf pos].
    destruct (Z.ltb_spec (len pre + 8 + len content) 0); [lia|].
    rewrite app_assoc.
    replace (len pre + 8 + len content) with (len (pre ++ Mov.atom name content))
      by (rewrite len_app, (@len_atom name content Hn); lia).
    rewrite IH by (intros kv Hin; apply Hne; right; exact Hin).
    rewrite <- app_assoc. f_equal. f_equal. rewrite !len_app. lia.
Qed.

(** X23.  In a section made of well-formed atoms [findAtom] returns the content
    of the first atom that has the name asked for. *)
Theorem findAtom_first (atom content rest : list byte) (items : Mov.Atoms) :
  Forall Mov.atom_ok items -> (forall kv, In kv items -> fst kv <> atom) ->
  len atom = 4 -> 8 + len content < 2 ^ 32 ->
  Mov.findAtom (S (List.length items)) atom
    (mkReader (List.concat (map (fun kv => Mov.atom (fst kv) (snd kv)) items)
               ++ Mov.atom atom content ++ rest) 0)
  = Some (Mov.Ok content).
Proof.
  intros Hok Hne Hn Hc. unfold Mov.findAtom.
  pose proof (@findLoop_skips atom items Hok Hne [] (Mov.atom atom content ++ rest) 1%nat)
    as H.
  cbn zeta in H. cbn [app] in H. change (len (@nil byte)) with 0 in H.
  replace (S (List.length items)) with (List.length items + 1)%nat by lia.
  rewrite H. cbn [Mov.findLoop]. rewrite Z.add_0_l.
  rewrite (@mov_read_header _ rest atom content Hn).
  destruct (@mov_header_fields atom content Hn Hc) as [-> ->].
  assert (E : bytes_eqb atom atom = true) by (apply bytes_eqb_iff; reflexivity).
  rewrite E. pose proof (len_nonneg content).
  replace ((8 + len content - 8) mod 2 ^ 32) with (len content)
    by (rewrite Z.mod_small; lia).
  unfold Mov.readFull. cbn [buf pos].
  destruct (Z.leb_spec (len content) 0).
  { destruct content; [reflexivity | rewrite len_cons in *; pose proof (len_nonneg content); lia]. }
  set (pre := List.concat _) in *.
  pose proof (len_nonneg pre). pose proof (len_nonneg rest).
  rewrite !len_app, (@len_atom atom content Hn).
  destruct (Z.leb_spec (len pre + (8 + len content + len rest)) (len pre + 8)); [lia|].
  destruct (Z.ltb_spec (len pre + (8 + len content + len rest) - (len pre + 8))
                       (len content)); [lia|].
  rewrite (@mov_content pre rest atom content Hn). reflexivity.
Qed.

Lemma findAtom_first_witness :
  Mov.findAtom 2 Mov.mvhd
    (mkReader (Mov.atom [x74; x72; x61; x6b] [x00; x01]
               ++ Mov.atom Mov.mvhd [x07; x08; x09] ++ [x00]) 0)
  = Some (Mov.Ok [x07; x08; x09]).
Proof.
  apply (@findAtom_first Mov.mvhd [x07; x08; x09] [x00]
           [([x74; x72; x61; x6b], [x00; x01])]).
  - constructor; [|constructor]. split; vm_compute; reflexivity.
  - intros kv [<-|[]]. discriminate.
  - reflexivity.
  - vm_compute. reflexivity.
Defined.

(** X24.  [DecodeProfile] drops the error of [findAtom]: for a file whose [moov]
    atom is made of well-formed atoms, none of them named [mvhd], it
    returns the zero profile and no error, and the command, which then
    divides by the zero time scale, crashes after it has printed the two
    times of the zero profile instead of reporting the file. *)
Theorem DecodeProfile_drops_error (f : Mov.File) (items : Mov.Atoms) :
  Forall Mov.atom_ok items -> (forall kv, In kv items -> fst kv <> Mov.mvhd) ->
  Mov.lookup Mov.moov (Mov.atoms f)
  = Some (List.concat (map (fun kv => Mov.atom (fst kv) (snd kv)) items)) ->
  Mov.DecodeProfile (S (List.length items)) f = Some (Mov.Ok (Mov.zeroProfile, None)) /\
  Mov.report (S (List.length items)) f = Some (Mov.Crashed [Mov.delta; Mov.delta]).
Proof.
  intros Hok Hne Hl.
  assert (Hf : Mov.findAtom (S (List.length items)) Mov.mvhd
                 (mkReader (List.concat (map (fun kv => Mov.atom (fst kv) (snd kv)) items)) 0)
               = Some (Mov.Err Mov.EOF)).
  { unfold Mov.findAtom.
    pose proof (@findLoop_skips Mov.mvhd items Hok Hne [] [] 1%nat) as H.
    cbn zeta in H. cbn [app] in H. rewrite app_nil_r in H.
    change (len (@nil byte)) with 0 in H.
    replace (S (List.length items)) with (List.length items + 1)%nat by lia.
    rewrite H. cbn [Mov.findLoop]. unfold Mov.readFull. cbn [buf pos Z.leb Z.compare].
    rewrite Z.add_0_l.
    destruct (Z.leb_spec (len (List.concat (map (fun kv => Mov.atom (fst kv) (snd kv)) items)))
                         (len (List.concat (map (fun kv => Mov.atom (fst kv) (snd kv)) items))));
      [reflexivity | lia]. }
  unfold Mov.report, Mov.DecodeProfile. rewrite Hl, Hf. split; reflexivity.
Qed.

Lemma DecodeProfile_drops_error_witness :
  Mov.Decode 2 headless_movie = Some (Mov.Ok headless_file) /\
  Mov.DecodeProfile 2 headless_file = Some (Mov.Ok (Mov.zeroProfile, None)) /\
  Mov.report 2 headless_file = Some (Mov.Crashed [Mov.delta; Mov.delta]).
Proof.
  split; [vm_compute; reflexivity|].
  apply (@DecodeProfile_drops_error headless_file [([x74; x72; x61; x6b], [x00; x01])]).
  - constructor; [|constructor]. split; vm_compute; reflexivity.
  - intros kv [<-|[]]. discriminate.
  - reflexivity.
Defined.


(* ------------------------------------------------------------------ *)
(** ** The directory that extract makes *)

Lemma extLoop_app (l rest acc : list byte) :
  Forall (fun c => c <> Cmd.slash /\ c <> Cmd.dot) l ->
  Cmd.extLoop (l ++ Cmd.dot :: rest) acc = Cmd.dot :: rev l ++ acc.
Proof.
  intros H. revert acc. induction H as [|c l [Hs Hd] _ IH]; intros acc.
  - reflexivity.
  - cbn [app Cmd.extLoop].
    destruct (Byte.eqb c Cmd.slash) eqn:E1; [apply Byte.byte_dec_bl in E1; contradiction|].
    destruct (Byte.eqb c Cmd.dot) eqn:E2; [apply Byte.byte_dec_bl in E2; contradiction|].
    rewrite IH. cbn [rev]. rewrite <- app_assoc. reflexivity.
Qed.

Lemma lastElem_all (l acc : list byte) :
  Forall (fun c => c <> Cmd.slash) l -> Cmd.lastElem l acc = rev l ++ acc.
Proof.
  intros H. revert acc. induction H as [|c l Hs _ IH]; intros acc; [reflexivity|].
  cbn [Cmd.lastElem].
  destruct (Byte.eqb c Cmd.slash) eqn:E1; [apply Byte.byte_dec_bl in E1; contradiction|].
  rewrite IH. cbn [rev]. rewrite <- app_assoc. reflexivity.
Qed.

Lemma dropIn_app (cutset l r : list byte) :
  Forall (fun c => Cmd.inSet cutset c = true) l ->
  Cmd.dropIn cutset (l ++ r) = Cmd.dropIn cutset r.
Proof.
  induction 1 as [|c l Hc _ IH]; [reflexivity|].
  cbn [app Cmd.dropIn]. rewrite Hc. exact IH.
Qed.

Lemma inSet_In (cutset : list byte) (c : byte) :
  In c cutset -> Cmd.inSet cutset c = true.
Proof.
  intros H. unfold Cmd.inSet. apply existsb_exists. exists c. split; [exact H|].
  apply Byte.byte_dec_lb. reflexivity.
Qed.

(** X25.  The directory that [extract] makes for a file [stem.e] (no separator
    in it, no dot in [e]) is named by the stem without the characters at
    its end that occur in ".e": the extension, here of ASCII characters, is
    passed to [TrimRight] as a set of characters.  So the name is the stem exactly when the last
    character of the stem is not a character of the extension. *)
Theorem mkdir_trims_letters (stem e : list byte) :
  stem <> [] ->
  Forall (fun c => c <> Cmd.slash) stem ->
  Forall (fun c => c <> Cmd.slash /\ c <> Cmd.dot) e ->
  Forall (fun c => byte_val c < 128) e ->
  Cmd.Ext (stem ++ Cmd.dot :: e) = Cmd.dot :: e /\
  Cmd.Base (stem ++ Cmd.dot :: e) = stem ++ Cmd.dot :: e /\
  Cmd.mkdirName (stem ++ Cmd.dot :: e) = Cmd.TrimRight stem (Cmd.dot :: e) /\
  (Cmd.mkdirName (stem ++ Cmd.dot :: e) = stem <->
   Cmd.inSet (Cmd.dot :: e) (last stem x00) = false).
Proof.
  intros Hne Hstem He _.
  assert (Hrev : rev (stem ++ Cmd.dot :: e) = rev e ++ Cmd.dot :: rev stem).
  { rewrite rev_app_distr. cbn [rev]. rewrite <- app_assoc. reflexivity. }
  assert (Hre : Forall (fun c => c <> Cmd.slash /\ c <> Cmd.dot) (rev e)).
  { apply Forall_forall. intros c Hc. rewrite Forall_forall in He. apply He.
    apply in_rev. exact Hc. }
  assert (Hext : Cmd.Ext (stem ++ Cmd.dot :: e) = Cmd.dot :: e).
  { unfold Cmd.Ext. rewrite Hrev, (extLoop_app _ _ Hre), rev_involutive, app_nil_r.
    reflexivity. }
  assert (Hall : Forall (fun c => c <> Cmd.slash) (rev (stem ++ Cmd.dot :: e))).
  { apply Forall_forall. intros c Hc. apply in_rev, in_app_or in Hc.
    destruct Hc as [Hc|[<-|Hc]].
    - rewrite Forall_forall in Hstem. apply Hstem. exact Hc.
    - discriminate.
    - rewrite Forall_forall in He. apply He. exact Hc. }
  assert (Hbase : Cmd.Base (stem ++ Cmd.dot :: e) = stem ++ Cmd.dot :: e).
  { unfold Cmd.Base. destruct (stem ++ Cmd.dot :: e) as [|c0 path0] eqn:Ep.
    { destruct stem; discriminate. }
    rewrite <- Ep in *.
    assert (Hds : Cmd.dropSlashes (rev (stem ++ Cmd.dot :: e)) = rev (stem ++ Cmd.dot :: e)).
    { destruct (rev (stem ++ Cmd.dot :: e)) as [|c l]; [reflexivity|].
      cbn [Cmd.dropSlashes]. inversion Hall as [|? ? Hc _]; subst.
      destruct (Byte.eqb c Cmd.slash) eqn:E1; [apply Byte.byte_dec_bl in E1; contradiction|].
      reflexivity. }
    rewrite Hds, (lastElem_all _ Hall), rev_involutive, app_nil_r, Ep. reflexivity. }
  assert (Hname : Cmd.mkdirName (stem ++ Cmd.dot :: e) = Cmd.TrimRight stem (Cmd.dot :: e)).
  { unfold Cmd.mkdirName. rewrite Hext, Hbase. unfold Cmd.TrimRight. rewrite Hrev.
    replace (rev e ++ Cmd.dot :: rev stem) with ((rev e ++ [Cmd.dot]) ++ rev stem)
      by (rewrite <- app_assoc; reflexivity).
    rewrite dropIn_app; [reflexivity|].
    apply Forall_forall. intros c Hc. apply inSet_In. apply in_app_or in Hc.
    destruct Hc as [Hc|[<-|[]]]; [right; apply in_rev; exact Hc | left; reflexivity]. }
  split; [exact Hext|]. split; [exact Hbase|]. split; [exact Hname|].
  rewrite Hname. unfold Cmd.TrimRight.
  destruct (exists_last Hne) as (stem' & c & ->).
  rewrite last_last, rev_app_distr. cbn [rev app Cmd.dropIn].
  destruct (Cmd.inSet (Cmd.dot :: e) c) eqn:E.
  - split; [|discriminate]. intros H. exfalso.
    apply (f_equal (@List.length byte)) in H.
    rewrite length_rev, length_app in H. cbn [List.length] in H.
    assert (Hle : forall l : list byte,
               (List.length (Cmd.dropIn (Cmd.dot :: e) l) <= List.length l)%nat).
    { induction l as [|a l IHl]; [cbn; lia|]. cbn [Cmd.dropIn].
      destruct (Cmd.inSet (Cmd.dot :: e) a); cbn [List.length]; lia. }
    specialize (Hle (rev stem')). rewrite length_rev in Hle. lia.
  - split; [reflexivity|]. intros _. cbn [rev]. rewrite rev_involutive. reflexivity.
Qed.

Lemma mkdir_trims_letters_witness :
  Cmd.mkdirName queen_nef = [x71; x75].
Proof.
  destruct (@mkdir_trims_letters [x71; x75; x65; x65; x6e] [x6e; x65; x66])
    as (_ & _ & H & _).
  - discriminate.
  - repeat constructor; discriminate.
  - repeat constructor; discriminate.
  - repeat constructor.
  - change queen_nef with ([x71; x75; x65; x65; x6e] ++ Cmd.dot :: [x6e; x65; x66]).
    rewrite H. vm_compute. reflexivity.
Defined.

(* ------------------------------------------------------------------ *)
(** ** The transformations of the command list *)

(** X26.  [userComment] passes the character code "ASCII\0\0" to [TrimLeft] as a
    set of characters: of a comment that follows the code "ASCII\0\0\0",
    the leading characters A, S, C, I and NUL go with the code. *)
Theorem userComment_eats_letters (t : Tag) (text : list byte) :
  TagString t = string_of_list_byte (asciiCode ++ text) ->
  Cmd.userComment t
  = string_of_list_byte (Cmd.TrimLeft text Cmd.commentCutset) /\
  (forall c rest, text = c :: rest -> In c Cmd.commentCutset ->
                  Cmd.userComment t <> string_of_list_byte text).
Proof.
  intros H. unfold Cmd.userComment. rewrite H, list_byte_of_string_of_list_byte.
  assert (E : Cmd.TrimLeft (asciiCode ++ text) Cmd.commentCutset
              = Cmd.TrimLeft text Cmd.commentCutset) by reflexivity.
  rewrite E. split; [reflexivity|].
  intros c rest -> Hc Heq.
  apply (f_equal list_byte_of_string) in Heq.
  rewrite !list_byte_of_string_of_list_byte in Heq.
  unfold Cmd.TrimLeft in Heq. cbn [Cmd.dropIn] in Heq.
  rewrite (inSet_In _ _ Hc) in Heq.
  apply (f_equal (@List.length byte)) in Heq. cbn [List.length] in Heq.
  assert (Hle : forall l : list byte,
             (List.length (Cmd.dropIn Cmd.commentCutset l) <= List.length l)%nat).
  { induction l as [|a l IHl]; [cbn; lia|]. cbn [Cmd.dropIn].
    destruct (Cmd.inSet Cmd.commentCutset a); cbn [List.length]; lia. }
  specialize (Hle rest). lia.
Qed.

Lemma userComment_eats_letters_witness :
  TagString casioComment = string_of_list_byte (asciiCode ++ [x43; x41; x53; x49; x4f]) /\
  Cmd.userComment casioComment = "O"%string.
Proof.
  assert (H : TagString casioComment
              = string_of_list_byte (asciiCode ++ [x43; x41; x53; x49; x4f]))
    by (vm_compute; reflexivity).
  split; [exact H|].
  rewrite (proj1 (@userComment_eats_letters casioComment [x43; x41; x53; x49; x4f] H)).
  vm_compute. reflexivity.
Defined.

Lemma onesPos_pos (p : positive) : (1 <= Cmd.onesPos p)%nat.
Proof. induction p; cbn; lia. Qed.

Lemma onesPos_one (p : positive) :
  Cmd.onesPos p = 1%nat <-> exists k, 0 <= k /\ Zpos p = 2 ^ k.
Proof.
  induction p as [q IH|q IH|].
  - cbn [Cmd.onesPos]. pose proof (onesPos_pos q). split; [lia|].
    intros (k & Hk & E). exfalso.
    destruct (Z.eq_dec k 0) as [->|Hne]; [discriminate|].
    replace k with (Z.succ (k - 1)) in E by lia.
    rewrite Z.pow_succ_r in E by lia. lia.
  - cbn [Cmd.onesPos]. rewrite IH. split; intros (k & Hk & E).
    + exists (k + 1). split; [lia|]. rewrite Z.pow_add_r by lia. lia.
    + destruct (Z.eq_dec k 0) as [->|Hne]; [discriminate|].
      exists (k - 1). split; [lia|].
      replace k with (Z.succ (k - 1)) in E by lia.
      rewrite Z.pow_succ_r in E by lia. lia.
  - split; [|reflexivity]. intros _. exists 0. split; [lia | reflexivity].
Qed.

(** X27.  [lensType] names the number of the flags that are set, not the flags:
    it answers "MF" for the value zero only, and "D" for every value with
    exactly one flag, whichever it is. *)
Theorem lensType_counts_flags (t : Tag) (u : Z) :
  TagM.Uint t = Ok u -> 0 <= u ->
  (Cmd.lensType t = Ok "MF"%string <-> u = 0) /\
  (Cmd.lensType t = Ok "D"%string <-> exists k, 0 <= k /\ u = 2 ^ k).
Proof.
  intros Hu H0. unfold Cmd.lensType. rewrite Hu. cbn [rbind].
  destruct u as [|p|p]; [| |lia].
  - cbn [Cmd.OnesCount32]. split; split; try reflexivity; try discriminate.
    intros (k & Hk & E). pose proof (Z.pow_pos_nonneg 2 k ltac:(lia) Hk). lia.
  - cbn [Cmd.OnesCount32]. pose proof (onesPos_pos p) as Hp.
    pose proof (onesPos_one p) as H1.
    destruct (Cmd.onesPos p) as [|[|[|[|[|[|[|[|n]]]]]]]]; try lia;
      (split; [split; discriminate|]);
      (split; [try discriminate | intros Hk; apply H1 in Hk; try discriminate]).
    + intros _. apply H1. reflexivity.
    + reflexivity.
Qed.

Lemma lensType_counts_flags_witness :
  Cmd.lensType (lensTag 1) = Ok "D"%string /\ Cmd.lensType (lensTag 8) = Ok "D"%string.
Proof.
  split.
  - apply (proj2 (@lensType_counts_flags (lensTag 1) 1 eq_refl ltac:(lia))).
    exists 0. split; [lia | reflexivity].
  - apply (proj2 (@lensType_counts_flags (lensTag 8) 8 eq_refl ltac:(lia))).
    exists 3. split; [lia | reflexivity].
Defined.


(* ------------------------------------------------------------------ *)
(** ** Decode returns *)

Lemma decodeLoop_more (fuel k : nat) (o : ByteOrder) (offset i : Z)
      (files : list File) (r : Reader) (x : result (list File)) :
  decodeLoop fuel o offset i files r = Some x ->
  decodeLoop (fuel + k) o offset i files r = Some x.
Proof.
  revert offset i files r; induction fuel as [|fuel IH]; intros offset i files r H.
  - cbn [decodeLoop] in H. destruct (offset =? 0) eqn:E; [|discriminate].
    destruct k; cbn [Nat.add decodeLoop]; rewrite E; exact H.
  - cbn [Nat.add decodeLoop] in *. destruct (offset =? 0); [exact H|].
    destruct (readDirectory o offset i r) as [[f|e|] r1]; try exact H.
    destruct (binary_Read 4 o r1) as [[offset'|e|] r2]; try exact H.
    apply IH. exact H.
Qed.

(** The result of [Decode] does not depend on the number of rounds its
    loop is given, once they are enough for it to return. *)
Lemma Decode_fuel_irrelevant (fuel fuel' : nat) (b : list byte)
      (x : result (list File)) :
  Decode fuel b = Some x -> (fuel <= fuel')%nat -> Decode fuel' b = Some x.
Proof.
  unfold Decode. intros H Hle.
  destruct (readOrder (mkReader b 0)) as [[o|e|] r]; try exact H.
  destruct (binary_Read 4 o r) as [[offset|e|] r1]; try exact H.
  replace fuel' with (fuel + (fuel' - fuel))%nat by lia.
  apply decodeLoop_more. exact H.
Qed.

Lemma binary_Read_Ok_inv (o : ByteOrder) (s : list byte) (p w v : Z) (r' : Reader) :
  0 < w -> binary_Read w o (mkReader s p) = (Ok v, r') ->
  v = get_uint o (slice s p w) /\ r' = mkReader s (p + w).
Proof.
  intros Hw. unfold binary_Read.
  destruct (ReadFull w (mkReader s p)) as [[bs|e|] r1] eqn:E; try discriminate.
  apply ReadFull_Ok_inv in E; [|exact Hw]. destruct E as (_ & -> & ->).
  intros [= <- <-]. auto.
Qed.

Lemma decodeLoop_returns (b : list byte) (o : ByteOrder) (a : Z) :
  forward_from o b a ->
  forall fuel at_ i files r,
    buf r = b -> 0 <= at_ -> chain o b a at_ ->
    at_ = 0 \/ Z.max 0 (len b - at_) < Z.of_nat fuel ->
    exists x, decodeLoop fuel o at_ i files r = Some x.
Proof.
  intros Hfw. induction fuel as [|fuel IH]; intros at_ i files r Hb Hat Hch Hm.
  - destruct Hm as [->|Hm]; [eexists; reflexivity | lia].
  - cbn [decodeLoop]. destruct (Z.eqb_spec at_ 0) as [E|E]; [eexists; reflexivity|].
    destruct Hm as [Hm|Hm]; [contradiction|].
    destruct (readDirectory o at_ i r) as [[f|e|] r1] eqn:Ed; [|eauto|eauto].
    apply readDirectory_position in Ed; [|exact Hat]. rewrite Hb in Ed.
    destruct Ed as [Hfit ->].
    assert (He : at_ + 2 <= directoryEnd o b at_).
    { unfold directoryEnd. pose proof (get_uint_range o (slice b at_ 2)). lia. }
    destruct (binary_Read 4 o (mkReader b (directoryEnd o b at_)))
      as [[offset'|e|] r2] eqn:Er.
    + assert (H4 : directoryEnd o b at_ + 4 <= len b).
      { unfold binary_Read in Er.
        destruct (ReadFull 4 (mkReader b (directoryEnd o b at_))) as [[bs|e|] r3] eqn:E4;
          try discriminate.
        apply ReadFull_Ok_inv in E4; [tauto | lia]. }
      apply binary_Read_Ok_inv in Er; [|lia]. destruct Er as [-> ->].
      fold (nextOffset o b at_).
      apply IH; [reflexivity | apply get_uint_range | |].
      * apply chain_next; [exact Hch | lia | exact H4].
      * destruct (Hfw at_ Hch ltac:(lia) H4) as [H0|Hgt]; [left; exact H0|].
        right. lia.
    + destruct e; eauto.
    + eauto.
Qed.

(** X28.  [Decode] returns on every buffer whose chain of root directories
    points forward: when the next-directory offset of every directory of
    the chain is zero or above the offset of the directory, one round for
    every byte of the buffer, and one more, are enough. *)
Theorem Decode_returns_on_forward_chains (b : list byte) (o : ByteOrder) :
  has_header o b = true ->
  forward_from o b (get_uint o (slice b 4 4)) ->
  exists x, Decode (S (Z.to_nat (len b))) b = Some x.
Proof.
  intros Hh Hfw. unfold Decode. rewrite (@readOrder_header o b Hh).
  destruct (binary_Read 4 o (mkReader b 4)) as [[offset|e|] r1] eqn:Er; [|eauto|eauto].
  apply binary_Read_Ok_inv in Er; [|lia]. destruct Er as [-> ->].
  apply (@decodeLoop_returns b o (get_uint o (slice b 4 4)) Hfw);
    [reflexivity | apply get_uint_range | apply chain_here |].
  right. pose proof (len_nonneg b). pose proof (get_uint_range o (slice b 4 4)). lia.
Qed.

Lemma Decode_returns_on_forward_chains_witness :
  exists x, Decode (S (Z.to_nat (len strips_file))) strips_file = Some x.
Proof.
  apply (@Decode_returns_on_forward_chains strips_file LittleEndian); [reflexivity|].
  assert (Hc : forall x, chain LittleEndian strips_file 8 x -> x = 8 \/ x = 0).
  { induction 1 as [|x _ IH Hx _]; [left; reflexivity|].
    destruct IH as [->| ->]; [right; vm_compute; reflexivity | lia]. }
  intros x Hx Hpos _. change (get_uint LittleEndian (slice strips_file 4 4)) with 8 in Hx.
  destruct (Hc x Hx) as [->| ->]; [left; vm_compute; reflexivity | lia].
Defined.


(* ------------------------------------------------------------------ *)
(** ** The file names of a forest *)

Lemma valueOf_FormatInt (x : Z) : valueOf (FormatInt x) = x.
Proof.
  unfold valueOf, FormatInt. rewrite NilZero.isi.
  - apply DecimalZ.of_to.
  - intros E. pose proof (DecimalZ.of_to x) as H. rewrite E in H. cbn in H. subst x.
    discriminate.
  - intros E. pose proof (DecimalZ.of_to x) as H. rewrite E in H. cbn in H. subst x.
    discriminate.
Qed.

Lemma FormatInt_inj (x y : Z) : FormatInt x = FormatInt y -> x = y.
Proof.
  intros H. rewrite <- (valueOf_FormatInt x), <- (valueOf_FormatInt y), H. reflexivity.
Qed.

Lemma valueOf_pad2 (x : Z) : 0 <= x -> valueOf (pad2 x) = x.
Proof.
  intros Hx. unfold pad2.
  destruct (Z.leb_spec 0 x) as [_|?]; [|lia]. cbn [andb].
  destruct (Z.ltb_spec x 10) as [Hlt|_]; [|apply valueOf_FormatInt].
  assert (H : x = 0 \/ x = 1 \/ x = 2 \/ x = 3 \/ x = 4 \/ x = 5 \/ x = 6 \/ x = 7 \/
              x = 8 \/ x = 9) by lia.
  repeat (destruct H as [->|H]; [vm_compute; reflexivity|]). subst x. vm_compute. reflexivity.
Qed.

Lemma pad2_inj (x y : Z) : 0 <= x -> 0 <= y -> pad2 x = pad2 y -> x = y.
Proof.
  intros Hx Hy H. rewrite <- (valueOf_pad2 Hx), <- (valueOf_pad2 Hy), H. reflexivity.
Qed.

Lemma noDash_uint (d : Decimal.uint) : noDash (NilEmpty.string_of_uint d) = true.
Proof. induction d; cbn; auto. Qed.

Lemma noDash_FormatInt (x : Z) : 0 <= x -> noDash (FormatInt x) = true.
Proof.
  intros Hx. unfold FormatInt. destruct x as [|p|p]; [reflexivity | | lia].
  cbn [Z.to_int NilZero.string_of_int]. unfold NilZero.string_of_uint.
  destruct (Pos.to_uint p) eqn:E; try apply noDash_uint. reflexivity.
Qed.

Lemma noDash_pad2 (x : Z) : 0 <= x -> noDash (pad2 x) = true.
Proof.
  intros Hx. unfold pad2. pose proof (noDash_FormatInt Hx) as H.
  destruct ((0 <=? x) && (x <? 10)); [|exact H]. cbn. exact H.
Qed.

Lemma split_at_dash (s1 s2 t1 t2 : string) :
  noDash s1 = true -> noDash s2 = true ->
  (s1 ++ "-" ++ t1 = s2 ++ "-" ++ t2)%string -> s1 = s2 /\ t1 = t2.
Proof.
  revert s2; induction s1 as [|c s1 IH]; intros s2 H1 H2 E.
  - destruct s2 as [|c2 s2]; cbn in E.
    + injection E as E. auto.
    + injection E as Ec _. subst c2. cbn in H2. discriminate.
  - destruct s2 as [|c2 s2]; cbn in E.
    + injection E as Ec _. subst c. cbn in H1. discriminate.
    + injection E as Ec E. subst c2. cbn in H1, H2.
      apply andb_true_iff in H1. apply andb_true_iff in H2.
      destruct (IH s2) as [-> ->]; [tauto | tauto | exact E |]. auto.
Qed.

Lemma in_forest_index (fuel : nat) (b : list byte) (files : list File) (f : File) :
  Decode fuel b = Some (Ok files) -> in_forest files f ->
  (exists j, 0 <= j /\ Index f = [j]) \/
  (exists j k, 0 <= j /\ 0 <= k /\ Index f = [j; k]).
Proof.
  intros Hd (r & Hin & Hf). apply Decode_shape in Hd.
  destruct (In_nth_error _ _ Hin) as (n & Hn).
  pose proof (@roots_from_nth b 0 files n r Hd Hn) as (Hi & _ & Hc).
  destruct Hf as [->|Hf].
  - left. exists (0 + Z.of_nat n). split; [lia | exact Hi].
  - right. destruct (In_nth_error _ _ Hf) as (k & Hk).
    pose proof (@children_from_nth r (0 + Z.of_nat n) 0 (Files r) k f Hc Hk) as (Ci & _).
    exists (0 + Z.of_nat n), (0 + Z.of_nat k). split; [lia|]. split; [lia | exact Ci].
Qed.

(** X29.  In the forest that [Decode] returns, two Files with the same file name
    have the same index path, and so are the same File of the forest: the
    command [extract], which writes every File under its file name, never
    writes two of them to the same place. *)
Theorem Decode_filenames_distinct (fuel : nat) (b : list byte) (files : list File)
        (f g : File) :
  Decode fuel b = Some (Ok files) -> in_forest files f -> in_forest files g ->
  Filename f = Filename g -> Index f = Index g.
Proof.
  intros Hd Hf Hg.
  destruct (@in_forest_index fuel b files f Hd Hf) as [(j & Hj & Ef)|(j & k & Hj & Hk & Ef)];
    destruct (@in_forest_index fuel b files g Hd Hg) as [(j' & Hj' & Eg)|(j' & k' & Hj' & Hk' & Eg)];
    unfold Filename, IsSubDir; rewrite Ef, Eg; cbn [len List.length Z.of_nat Z.ltb Z.compare
      Pos.compare Pos.compare_cont Pos.of_succ_nat Pos.succ map Join String.append];
    intros E.
  - injection E as E. apply pad2_inj in E; [subst; reflexivity | lia | lia].
  - discriminate.
  - discriminate.
  - injection E as E.
    apply split_at_dash in E; [| apply noDash_pad2; lia | apply noDash_pad2; lia].
    destruct E as [E1 E2].
    apply pad2_inj in E1; [|lia|lia]. apply pad2_inj in E2; [|lia|lia]. subst. reflexivity.
Qed.

Lemma Decode_filenames_distinct_witness :
  exists c0 c1,
    Files sub_sample = [c0; c1] /\ Filename c0 <> Filename c1.
Proof.
  assert (Hd : Decode 8 sub_file = Some (Ok [sub_sample])) by (vm_compute; reflexivity).
  destruct (Files sub_sample) as [|c0 [|c1 [|c2 l]]] eqn:E;
    try (vm_compute in E; discriminate).
  exists c0, c1. split; [reflexivity|]. intros H.
  assert (H0 : in_forest [sub_sample] c0).
  { exists sub_sample. split; [left; reflexivity|]. right. rewrite E. left. reflexivity. }
  assert (H1 : in_forest [sub_sample] c1).
  { exists sub_sample. split; [left; reflexivity|]. right. rewrite E. right. left.
    reflexivity. }
  pose proof (@Decode_filenames_distinct 8 sub_file [sub_sample] c0 c1 Hd H0 H1 H) as Hi.
  assert (E0 : map Index (Files sub_sample) = [[0; 0]; [0; 1]]) by (vm_compute; reflexivity).
  rewrite E in E0. cbn [map] in E0. injection E0 as E0 E1. rewrite E0, E1 in Hi.
  discriminate.
Defined.


(* ------------------------------------------------------------------ *)
(** ** The offsets of the sub-directories *)

Lemma times_read_u32 (o : ByteOrder) (s : list byte) (n : nat) (p : Z) :
  0 <= p -> p + 4 * Z.of_nat n <= len s ->
  times n (or_zero (binary_Read 4 o)) (mkReader s p)
  = (Ok (map (fun i => get_uint o (slice s (p + 4 * i) 4)) (zseq 0 n)),
     mkReader s (p + 4 * Z.of_nat n)).
Proof.
  revert p; induction n as [|n IH]; intros p Hp Hfit.
  - cbn [times zseq map]. unfold ret. rewrite Z.mul_0_r, Z.add_0_r. reflexivity.
  - cbn [times zseq map]. unfold bind at 1. unfold or_zero at 1.
    rewrite binary_Read_ok by lia. unfold bind at 1. rewrite IH by lia. unfold ret.
    rewrite Z.mul_0_r, Z.add_0_r. f_equal.
    + f_equal. f_equal. rewrite (zseq_succ 0 n), map_map. apply map_ext.
      intros i. do 2 f_equal. lia.
    + f_equal. lia.
Qed.

(** X30.  [subTags] reads the offsets of the sub-directories from the buffer, at
    the offset field of the pointer (0x14a), whatever its count: when the
    numbers are in the buffer, the sub-directories are read at the [Count]
    numbers of four bytes found there.  For a pointer with the count 1,
    whose four raw bytes are its value field, the one sub-directory is so
    read at the number stored at that value, not at the value. *)
Theorem subTags_reads_at_pointer (o : ByteOrder) (tags : list Tag) (t : Tag) (r : Reader) :
  find tags Nef = Some t -> 0 <= Offset t ->
  0 <= Count t -> Offset t + 4 * Count t <= len (buf r) ->
  subTags o tags r
  = forEach (fun p => readTags o p 0 Tiff)
            (map (fun i => get_uint o (slice (buf r) (Offset t + 4 * i) 4))
                 (zseq 0 (count_of t)))
            (mkReader (buf r) (Offset t + 4 * Count t)) /\
  (Count t = 1 ->
   subTags o tags r
   = forEach (fun p => readTags o p 0 Tiff)
             [get_uint o (slice (buf r) (Offset t) 4)]
             (mkReader (buf r) (Offset t + 4))).
Proof.
  intros Hf Hoff Hc Hfit.
  assert (E : subTags o tags r
              = forEach (fun p => readTags o p 0 Tiff)
                  (map (fun i => get_uint o (slice (buf r) (Offset t + 4 * i) 4))
                       (zseq 0 (count_of t)))
                  (mkReader (buf r) (Offset t + 4 * Count t))).
  { unfold subTags. rewrite Hf. unfold bind at 1. cbn [SeekStart]. unfold bind at 1.
    rewrite times_read_u32; [| exact Hoff | unfold count_of; lia].
    unfold count_of. rewrite Z2Nat.id by exact Hc. reflexivity. }
  split; [exact E|]. intros H1. rewrite E. unfold count_of. rewrite H1.
  change (Z.to_nat 1) with 1%nat. cbn [zseq map].
  rewrite Z.mul_0_r, Z.add_0_r, Z.mul_1_r. reflexivity.
Qed.

Lemma subTags_reads_at_pointer_witness :
  exists t,
    find (map (tagOf one_sub_file LittleEndian 0 Tiff)
              (descriptors one_sub_file 10 1)) Nef = Some t /\
    TagM.Uint t = Ok 26 /\
    fst (readTags LittleEndian 26 0 Tiff (mkReader one_sub_file 0))
    = Ok [widthTag LittleEndian] /\
    fst (subTags LittleEndian
           (map (tagOf one_sub_file LittleEndian 0 Tiff) (descriptors one_sub_file 10 1))
           (mkReader one_sub_file 0))
    = Err EOF /\
    Decode 8 one_sub_file = Some (Err EOF).
Proof.
  destruct (find (map (tagOf one_sub_file LittleEndian 0 Tiff)
                      (descriptors one_sub_file 10 1)) Nef) as [t|] eqn:E;
    [|vm_compute in E; discriminate].
  exists t. split; [reflexivity|].
  assert (Et : t = mkTag Nef Format.Long 1 26 (u32 LittleEndian 26) Tiff (Some LittleEndian)).
  { vm_compute in E. injection E as <-. vm_compute. reflexivity. }
  split; [rewrite Et; vm_compute; reflexivity|].
  split; [vm_compute; reflexivity|].
  split; [|vm_compute; reflexivity].
  destruct (@subTags_reads_at_pointer LittleEndian
              (map (tagOf one_sub_file LittleEndian 0 Tiff) (descriptors one_sub_file 10 1))
              t (mkReader one_sub_file 0) E) as [_ H].
  - rewrite Et. vm_compute. congruence.
  - rewrite Et. vm_compute. congruence.
  - rewrite Et. vm_compute. congruence.
  - rewrite H by (rewrite Et; reflexivity). rewrite Et. vm_compute. reflexivity.
Defined.
